(** * A shallow embedding of the video proxy / cache server

    The repository holds two variants of one Express server:
    [video-proxy-server/server.js] and
    [video_proxy_system/mainframe_server/server.js].  Both keep a global
    object [videos] (id -> metadata), mirror it to [videos.json] with
    [persist], download remote files in the background with
    [downloadFull], serve cached files with HTTP Range support on
    [/stream/:id], relay remote streams on [/stream-proxy] and evict
    inactive files from a timer.

    The development models the JavaScript values the handlers manipulate
    (strings, numbers with [NaN], objects used as maps), the part of the
    file system they touch, and each handler as a program in a small
    state-and-exception monad over the process state. *)

From Stdlib Require Import ZArith NArith String Ascii List Lia.
From Stdlib Require Import DecimalString DecimalPos.
From stdpp Require Import base option gmap strings list.
Import ListNotations.

Local Open Scope string_scope.
Local Open Scope Z_scope.

(** ** JavaScript primitives *)

Module JS.

(** A JavaScript Number as the handlers use it: an integer or [NaN].
    Integers are exact in the source up to 2^53 - 1
    ([Number.MAX_SAFE_INTEGER]); theorems that format or subtract parsed
    numbers state that bound where the input is not already limited by a
    file size. *)
Inductive number : Type :=
| NaN
| Num (z : Z).

Definition MAX_SAFE_INTEGER : Z := 2 ^ 53 - 1.

(** [Number.MAX_VALUE], the largest finite Number.  A decimal numeral up
    to it is read by [parseInt] as a finite Number; a much longer one is
    read as [Infinity], which [number] leaves out. *)
Definition MAX_VALUE : Z := 2 ^ 1024 - 2 ^ 971.

Definition isNaN (x : number) : bool :=
  match x with NaN => true | Num _ => false end.

(** Truthiness of a string: only the empty string is falsy. *)
Definition truthy (s : string) : bool :=
  match s with EmptyString => false | String _ _ => true end.

(** Truthiness of a possibly-undefined string property. *)
Definition truthy_opt (o : option string) : bool :=
  match o with Some s => truthy s | None => false end.

(** Truthiness of a possibly-undefined numeric property ([0] is falsy). *)
Definition truthy_num (o : option Z) : bool :=
  match o with Some z => negb (z =? 0) | None => false end.

(** [StrWhiteSpaceChar] restricted to code units below 256, which is what
    a header value decoded by the HTTP parser can contain: TAB, LF, VT,
    FF, CR, SP and NBSP. *)
Definition is_whitespace (c : ascii) : bool :=
  let n := nat_of_ascii c in
  ((n =? 9) || (n =? 10) || (n =? 11) || (n =? 12) || (n =? 13)
   || (n =? 32) || (n =? 160))%nat.

Fixpoint trim_start (s : string) : string :=
  match s with
  | String c s' => if is_whitespace c then trim_start s' else s
  | EmptyString => EmptyString
  end.

Definition digit_value (c : ascii) : option Z :=
  let n := Z.of_nat (nat_of_ascii c) in
  if (48 <=? n) && (n <=? 57) then Some (n - 48) else None.

(** The longest prefix of decimal digits, read most significant first.
    [acc] is [None] until a digit has been seen. *)
Fixpoint parse_digits (s : string) (acc : option Z) : option Z :=
  match s with
  | String c s' =>
      match digit_value c with
      | Some d => parse_digits s' (Some (10 * default 0 acc + d))
      | None => acc
      end
  | EmptyString => acc
  end.

(** [parseInt(s, 10)]: skip leading white space, read an optional sign,
    then the longest run of decimal digits; [NaN] when there is none.
    Trailing characters are ignored. *)
Definition parseInt (s : string) : number :=
  let s1 := trim_start s in
  let '(sign, s2) :=
    match s1 with
    | String "-" r => (-1, r)
    | String "+" r => (1, r)
    | _ => (1, s1)
    end in
  match parse_digits s2 None with
  | Some z => Num (sign * z)
  | None => NaN
  end.

Fixpoint string_drop (n : nat) (s : string) : string :=
  match n, s with
  | O, _ => s
  | S n', String _ s' => string_drop n' s'
  | S _, EmptyString => EmptyString
  end.

(** [s.replace(/pat/, rep)] for a pattern without metacharacters: the
    first occurrence of [pat], searched from the left, is replaced. *)
Fixpoint replace_first (pat rep s : string) : string :=
  if String.prefix pat s then rep ++ string_drop (String.length pat) s
  else match s with
       | EmptyString => EmptyString
       | String c s' => String c (replace_first pat rep s')
       end.

(** [s.split(sep)] for a one-character separator; never empty. *)
Fixpoint split (sep : ascii) (s : string) : list string :=
  match s with
  | EmptyString => [EmptyString]
  | String c s' =>
      if Ascii.eqb c sep then EmptyString :: split sep s'
      else match split sep s' with
           | p :: ps => String c p :: ps
           | [] => [String c EmptyString]
           end
  end.

(** Decimal rendering of an integer, as [String(n)], [n.toString()] and
    template literals produce it. *)
Definition dec (z : Z) : string := NilZero.string_of_int (Z.to_int z).

End JS.

(** ** The Range resolver of [/stream/:id] *)

(** [const parts = range.replace(/bytes=/, '').split('-')] *)
Definition range_parts (range : string) : list string :=
  JS.split "-" (JS.replace_first "bytes=" "" range).

(** [const start = parseInt(parts[0], 10)] *)
Definition range_start (parts : list string) : JS.number :=
  JS.parseInt (nth 0 parts EmptyString).

(** [const end = parts[1] ? parseInt(parts[1], 10) : total - 1] *)
Definition range_end (parts : list string) (total : Z) : JS.number :=
  match nth_error parts 1 with
  | Some p => if JS.truthy p then JS.parseInt p else JS.Num (total - 1)
  | None => JS.Num (total - 1)
  end.

(** [isNaN(start) || isNaN(end) || start > end] *)
Definition range_rejected (start end_ : JS.number) : bool :=
  match start, end_ with
  | JS.Num s, JS.Num e => e <? s
  | _, _ => true
  end.

(** ** SHA-1, as [crypto.createHash('sha1')] computes it (FIPS 180-4) *)

Module Sha1.
Local Open Scope N_scope.

Definition w32 (x : N) : N := N.land x 0xFFFFFFFF.

Definition rotl (n x : N) : N :=
  w32 (N.lor (N.shiftl x n) (N.shiftr x (32 - n))).

Definition add32 (a b : N) : N := w32 (a + b).

Definition not32 (x : N) : N := N.lxor x 0xFFFFFFFF.

(** Big-endian bytes of the low [8 * n] bits of [x]. *)
Fixpoint be_bytes (n : nat) (x : N) : list N :=
  match n with
  | O => []
  | S n' => N.land (N.shiftr x (8 * N.of_nat n')) 0xFF :: be_bytes n' x
  end.

(** Message padding: a one bit, zeros up to 56 modulo 64 bytes, and the
    bit length as a 64-bit big-endian integer. *)
Definition pad (msg : list N) : list N :=
  let l := N.of_nat (length msg) in
  let k := (119 - l mod 64) mod 64 in
  ((msg ++ 0x80 :: repeat 0 (N.to_nat k)) ++ be_bytes 8 (8 * l))%list.

Fixpoint words (fuel : nat) (bs : list N) : list N :=
  match fuel, bs with
  | S f, b0 :: b1 :: b2 :: b3 :: rest =>
      (b0 * 0x1000000 + b1 * 0x10000 + b2 * 0x100 + b3) :: words f rest
  | _, _ => []
  end.

(** The message schedule, newest word first. *)
Fixpoint extend (n : nat) (ws : list N) : list N :=
  match n with
  | O => ws
  | S n' =>
      let w := rotl 1 (N.lxor (N.lxor (nth 2 ws 0) (nth 7 ws 0))
                              (N.lxor (nth 13 ws 0) (nth 15 ws 0))) in
      extend n' (w :: ws)
  end.

Definition schedule (block : list N) : list N :=
  rev (extend 64 (rev block)).

Definition state : Type := N * N * N * N * N.

Definition f_k (t : nat) (b c d : N) : N * N :=
  if (t <? 20)%nat then (N.lor (N.land b c) (N.land (not32 b) d), 0x5A827999)
  else if (t <? 40)%nat then (N.lxor (N.lxor b c) d, 0x6ED9EBA1)
  else if (t <? 60)%nat then
    (N.lor (N.lor (N.land b c) (N.land b d)) (N.land c d), 0x8F1BBCDC)
  else (N.lxor (N.lxor b c) d, 0xCA62C1D6).

Definition round (t : nat) (w : N) (s : state) : state :=
  let '(a, b, c, d, e) := s in
  let '(f, k) := f_k t b c d in
  let temp := add32 (add32 (add32 (add32 (rotl 5 a) f) e) k) w in
  (temp, a, rotl 30 b, c, d).

Fixpoint rounds (t : nat) (ws : list N) (s : state) : state :=
  match ws with
  | [] => s
  | w :: ws' => rounds (S t) ws' (round t w s)
  end.

Definition compress (s : state) (block : list N) : state :=
  let '(a, b, c, d, e) := s in
  let '(a', b', c', d', e') := rounds 0 (schedule block) s in
  (add32 a a', add32 b b', add32 c c', add32 d d', add32 e e').

Fixpoint blocks (fuel : nat) (ws : list N) (s : state) : state :=
  match fuel with
  | O => s
  | S f =>
      match ws with
      | [] => s
      | _ => blocks f (skipn 16 ws) (compress s (firstn 16 ws))
      end
  end.

Definition init : state :=
  (0x67452301, 0xEFCDAB89, 0x98BADCFE, 0x10325476, 0xC3D2E1F0).

Definition hex_digit (n : N) : ascii :=
  if n <? 10 then ascii_of_N (48 + n) else ascii_of_N (87 + n).

(** [n] lower-case hexadecimal digits of [x], most significant first. *)
Fixpoint hex (n : nat) (x : N) : string :=
  match n with
  | O => EmptyString
  | S n' =>
      String (hex_digit (N.land (N.shiftr x (4 * N.of_nat n')) 0xF)) (hex n' x)
  end.

Definition bytes_of_string (s : string) : list N :=
  map N_of_ascii (list_ascii_of_string s).

(** [createHash('sha1').update(s).digest('hex')] *)
Definition digest_hex (s : string) : string :=
  let ws := let bs := pad (bytes_of_string s) in words (length bs) bs in
  let '(a, b, c, d, e) := blocks (length ws) ws init in
  (hex 8 a ++ hex 8 b ++ hex 8 c ++ hex 8 d ++ hex 8 e)%string.

End Sha1.

(** ** Data model *)

(** The two variants of the server. *)
Inductive server : Type :=
| VideoProxyServer   (* video-proxy-server/server.js *)
| MainframeServer.   (* video_proxy_system/mainframe_server/server.js *)

(** Values of the [status] property. *)
Inductive Status : Type :=
| downloading
| ready
| error.

(** One value of the [videos] object.  A property that may be missing is an
    [option]; [None] is [undefined]. *)
Record Entry : Type := mkEntry {
  e_id : string;
  e_source : option string;
  e_status : Status;
  e_path : option string;
  e_size : option Z;
  e_addedAt : option Z;
  e_lastAccess : option Z;
  e_error : option string
}.

Definition with_status (s : Status) (e : Entry) : Entry :=
  mkEntry (e_id e) (e_source e) s (e_path e) (e_size e) (e_addedAt e)
          (e_lastAccess e) (e_error e).

Definition with_path (p : string) (e : Entry) : Entry :=
  mkEntry (e_id e) (e_source e) (e_status e) (Some p) (e_size e)
          (e_addedAt e) (e_lastAccess e) (e_error e).

Definition with_size (n : Z) (e : Entry) : Entry :=
  mkEntry (e_id e) (e_source e) (e_status e) (e_path e) (Some n)
          (e_addedAt e) (e_lastAccess e) (e_error e).

Definition with_lastAccess (t : Z) (e : Entry) : Entry :=
  mkEntry (e_id e) (e_source e) (e_status e) (e_path e) (e_size e)
          (e_addedAt e) (Some t) (e_error e).

Definition with_error (m : string) (e : Entry) : Entry :=
  mkEntry (e_id e) (e_source e) (e_status e) (e_path e) (e_size e)
          (e_addedAt e) (e_lastAccess e) (Some m).

(** ** The file system under [DATA_DIR]

    A directory maps a path to an inode and an inode holds the bytes, so
    that a write stream opened on a path keeps writing to the same file
    after the path is renamed, as a file descriptor does.  [undeletable]
    lists the paths on which [unlinkSync] fails although the file exists
    (EPERM, EBUSY). *)
Record FS : Type := mkFS {
  names : gmap string nat;
  inodes : gmap nat (list Byte.byte);
  next_ino : nat;
  undeletable : gset string
}.

Definition empty_fs : FS := mkFS ∅ ∅ 0%nat ∅.

(** A thrown [Error] object: its [name] and [message]. *)
Record Exn : Type := mkExn { exn_name : string; exn_message : string }.

Definition Error (m : string) : Exn := mkExn "Error" m.
Definition TypeError (m : string) : Exn := mkExn "TypeError" m.

(** [String(err)], that is [Error.prototype.toString]. *)
Definition exn_to_string (e : Exn) : string :=
  if negb (JS.truthy (exn_name e)) then exn_message e
  else if negb (JS.truthy (exn_message e)) then exn_name e
  else exn_name e ++ ": " ++ exn_message e.

(** The outcome of a call that may throw. *)
Inductive Res (A : Type) : Type :=
| Ok (a : A)
| Throw (e : Exn).
Arguments Ok {A} a.
Arguments Throw {A} e.

Module Fs.

Definition content (p : string) (fs : FS) : option (list Byte.byte) :=
  i ← names fs !! p; Some (default [] (inodes fs !! i)).

Definition existsSync (p : string) (fs : FS) : bool :=
  bool_decide (is_Some (names fs !! p)).

(** [fs.statSync(p).size] *)
Definition statSync_size (p : string) (fs : FS) : Res Z :=
  match content p fs with
  | Some bs => Ok (Z.of_nat (length bs))
  | None =>
      Throw (Error ("ENOENT: no such file or directory, stat '" ++ p ++ "'"))
  end.

(** Opening with flags ['w'], the default of [createWriteStream]: the
    file is created when missing and truncated when present. *)
Definition open_w (p : string) (fs : FS) : nat * FS :=
  match names fs !! p with
  | Some i => (i, mkFS (names fs) (<[i := []]> (inodes fs)) (next_ino fs)
                       (undeletable fs))
  | None =>
      let i := next_ino fs in
      (i, mkFS (<[p := i]> (names fs)) (<[i := []]> (inodes fs)) (S i)
               (undeletable fs))
  end.

(** Writing [bs] at offset [pos] of a byte sequence; a gap is filled with
    zero bytes. *)
Definition overwrite (pos : nat) (bs old : list Byte.byte)
  : list Byte.byte :=
  (take pos (old ++ repeat Byte.x00 (pos - length old)) ++ bs
   ++ drop (pos + length bs) old)%list.

Definition write_at (i pos : nat) (bs : list Byte.byte) (fs : FS) : FS :=
  mkFS (names fs)
       (<[i := overwrite pos bs (default [] (inodes fs !! i))]> (inodes fs))
       (next_ino fs) (undeletable fs).

(** [fs.renameSync(src, dst)]: an existing [dst] is replaced. *)
Definition renameSync (src dst : string) (fs : FS) : Res FS :=
  match names fs !! src with
  | Some i => Ok (mkFS (<[dst := i]> (delete src (names fs))) (inodes fs)
                       (next_ino fs) (undeletable fs))
  | None => Throw (Error ("ENOENT: no such file or directory, rename '"
                          ++ src ++ "' -> '" ++ dst ++ "'"))
  end.

(** [fs.unlinkSync(p)] *)
Definition unlinkSync (p : string) (fs : FS) : Res FS :=
  match names fs !! p with
  | Some _ =>
      if decide (p ∈ undeletable fs)
      then Throw (Error ("EPERM: operation not permitted, unlink '"
                         ++ p ++ "'"))
      else Ok (mkFS (delete p (names fs)) (inodes fs) (next_ino fs)
                    (undeletable fs))
  | None =>
      Throw (Error ("ENOENT: no such file or directory, unlink '" ++ p
                    ++ "'"))
  end.

(** The bytes [fs.createReadStream(p, {start, end})] delivers: from
    offset [start] to offset [end] inclusive, or to the end of the file
    when it is shorter. *)
Definition read_range (start end_ : Z) (bs : list Byte.byte)
  : list Byte.byte :=
  take (Z.to_nat (end_ - start + 1)) (drop (Z.to_nat start) bs).

End Fs.

(** ** Background downloads in flight *)

(** An open write stream: the inode of its descriptor and its file
    position. *)
Record Writer : Type := mkWriter { w_ino : nat; w_pos : nat }.

(** Where a call of [downloadFull] is suspended. *)
Inductive Phase : Type :=
| Requesting (w : option Writer)   (* at [await axios(...)] / [await fetch(url)] *)
| Piping (w : Writer)              (* at [await pipeline(body, writer)] *)
| Received                         (* [pipeline] resolved: the body is whole *)
| Aborted.                         (* the request or [pipeline] failed *)

(** One call [downloadFull(url, id)].  [t_received] is the body received so
    far through [pipeline]. *)
Record Task : Type := mkTask {
  t_id : string;
  t_url : string;
  t_phase : Phase;
  t_received : list Byte.byte
}.

(** ** Process state *)

Record World : Type := mkWorld {
  videos : gmap string Entry;         (* [let videos = {}] *)
  fs : FS;
  disk_ok : bool;                     (* can [videos.json] be written now? *)
  persisted : gmap string Entry;      (* what [videos.json] holds *)
  console : list string;              (* console output, newest first *)
  tasks : list Task                   (* calls of [downloadFull], oldest first *)
}.

Definition set_videos (f : gmap string Entry → gmap string Entry) (w : World)
  : World :=
  mkWorld (f (videos w)) (fs w) (disk_ok w) (persisted w) (console w) (tasks w).

Definition set_fs (f : FS → FS) (w : World) : World :=
  mkWorld (videos w) (f (fs w)) (disk_ok w) (persisted w) (console w) (tasks w).

Definition set_disk_ok (b : bool) (w : World) : World :=
  mkWorld (videos w) (fs w) b (persisted w) (console w) (tasks w).

Definition set_persisted (m : gmap string Entry) (w : World) : World :=
  mkWorld (videos w) (fs w) (disk_ok w) m (console w) (tasks w).

Definition add_console (line : string) (w : World) : World :=
  mkWorld (videos w) (fs w) (disk_ok w) (persisted w) (line :: console w)
          (tasks w).

Definition set_tasks (f : list Task → list Task) (w : World) : World :=
  mkWorld (videos w) (fs w) (disk_ok w) (persisted w) (console w) (f (tasks w)).

Definition initial_world : World := mkWorld ∅ empty_fs true ∅ [] [].

(** ** Handlers as programs: state and exceptions

    A thrown exception keeps the state reached so far, as in JavaScript. *)
Definition M (A : Type) : Type := World → Res A * World.

Definition ret {A} (a : A) : M A := fun w => (Ok a, w).

Definition bind {A B} (m : M A) (k : A → M B) : M B :=
  fun w => match m w with
           | (Ok a, w') => k a w'
           | (Throw e, w') => (Throw e, w')
           end.

Definition throw {A} (e : Exn) : M A := fun w => (Throw e, w).

(** [try { m } catch (e) { h e }] *)
Definition try_catch {A} (m : M A) (h : Exn → M A) : M A :=
  fun w => match m w with
           | (Ok a, w') => (Ok a, w')
           | (Throw e, w') => h e w'
           end.

Definition get : M World := fun w => (Ok w, w).

Definition modify (f : World → World) : M unit := fun w => (Ok tt, f w).

Definition lift_res {A} (r : Res A) : M A := fun w => (r, w).

Declare Scope js_scope.
Delimit Scope js_scope with js.
Notation "'do' x <- m ; k" := (bind m (fun x => k))
  (at level 10, x name, m at level 100, k at level 200) : js_scope.
Notation "'run' m ; k" := (bind m (fun _ => k))
  (at level 10, m at level 100, k at level 200) : js_scope.
Local Open Scope js_scope.

Definition console_log (line : string) : M unit := modify (add_console line).

(** ** HTTP responses

    [headers] lists the headers the handler sets itself, in the order of
    the source; what Express adds on its own is not modelled. *)
Inductive Body : Type :=
| NoBody
| Text (s : string)                       (* [res.send(s)] *)
| Json (fields : list (string * string))  (* [res.json({...})] *)
| Bytes (bs : list Byte.byte).            (* a stream piped to [res] *)

Record Response : Type := mkResponse {
  status : Z;
  headers : list (string * string);
  body : Body
}.

Fixpoint header (name : string) (hs : list (string * string)) : option string :=
  match hs with
  | [] => None
  | (k, v) :: hs' => if String.eqb k name then Some v else header name hs'
  end.

(** [res.status(code).json({ error: msg })] *)
Definition json_error (code : Z) (msg : string) : Response :=
  mkResponse code [] (Json [("error", msg)]).

(** [s.slice(0, n)] *)
Fixpoint slice0 (n : nat) (s : string) : string :=
  match n, s with
  | S n', String c s' => String c (slice0 n' s')
  | _, _ => EmptyString
  end.

(** [genId(seed)], reading [now] from [Date.now()]: the first twelve
    hexadecimal digits of the SHA-1 of the seed followed by the time in
    decimal.  The seed is hashed as the bytes of its UTF-8 encoding. *)
Definition genId (seed : string) (now : Z) : string :=
  slice0 12 (Sha1.digest_hex (seed ++ JS.dec now)).

(** What the origin answers to a request. *)
Record Upstream : Type := mkUpstream {
  up_status : Z;
  up_headers : list (string * string);   (* names in lower case *)
  up_body : list Byte.byte
}.

(** [response.ok] of [fetch], and the default [validateStatus] of axios. *)
Definition status_ok (st : Z) : bool := (200 <=? st) && (st <? 300).

(** What the client receives when the handler throws after
    [res.writeHead]: Express finds the head already set and destroys the
    socket, so neither status line, header nor byte is sent.  The status
    [0] stands for that. *)
Definition no_response : Response := mkResponse 0 [] NoBody.

(** The last part of the handler of [/stream/:id], from [if (range)] on:
    [total] is [stat.size] and [data] the bytes of the file, which the
    read stream piped to the response delivers.

    [fs.createReadStream(filePath, { start, end })] is called after
    [res.writeHead(206, ...)] and throws a [RangeError] unless [start] and
    [end] are integers between [0] and [Number.MAX_SAFE_INTEGER]; here
    [0 <= start <= end], so [end] decides.  (This is the behaviour for
    the finite Numbers, up to [Number.MAX_VALUE]; a numeral so long that
    [parseInt] reads it as [Infinity] lies outside [JS.number].) *)
Definition send_file (range : option string) (total : Z)
           (data : list Byte.byte) : Response :=
  if JS.truthy_opt range then
    let parts := range_parts (default "" range) in
    let start := range_start parts in
    let end_ := range_end parts total in
    match start, end_ with
    | JS.Num s, JS.Num e =>
        if e <? s then
          mkResponse 416 [] (Text "Requested Range Not Satisfiable")
        else if JS.MAX_SAFE_INTEGER <? e then no_response
        else
          let chunkSize := e - s + 1 in
          mkResponse 206
            [("Content-Range",
              "bytes " ++ JS.dec s ++ "-" ++ JS.dec e ++ "/" ++ JS.dec total);
             ("Accept-Ranges", "bytes");
             ("Content-Length", JS.dec chunkSize);
             ("Content-Type", "video/mp4");
             ("Cache-Control", "no-store")]
            (Bytes (Fs.read_range s e data))
    | _, _ => mkResponse 416 [] (Text "Requested Range Not Satisfiable")
    end
  else
    mkResponse 200
      [("Content-Length", JS.dec total);
       ("Content-Type", "video/mp4");
       ("Accept-Ranges", "bytes");
       ("Cache-Control", "no-store")]
      (Bytes data).

(** ** Configuration

    [DATA_DIR] and [INACTIVITY_MINUTES] come from the environment.
    [parses_as_URL] stands for [new URL(url)] not throwing. *)
Record Config : Type := mkConfig {
  variant : server;
  DATA_DIR : string;
  INACTIVITY_MINUTES : Z;
  parses_as_URL : string → bool
}.

Section Server.

Variable cfg : Config.

(** [fs.writeFileSync(METADATA_FILE, JSON.stringify(videos, null, 2))] *)
Definition writeMetadata : M unit :=
  fun w =>
    if disk_ok w then (Ok tt, set_persisted (videos w) w)
    else (Throw (Error "EACCES: permission denied, open 'videos.json'"), w).

(** [persist()].  Only [video-proxy-server] wraps the write in
    [try { } catch (e) { console.error('persist error', e) }]. *)
Definition persist : M unit :=
  match variant cfg with
  | VideoProxyServer =>
      try_catch writeMetadata
                (fun e => console_log ("persist error " ++ exn_to_string e))
  | MainframeServer => writeMetadata
  end.

(** The handler of [GET /stream/:id].  [range] is [req.headers.range]
    and [now] the value of [Date.now()]. *)
Definition stream (id : string) (range : option string) (now : Z)
  : M Response :=
  do w <- get;
  match videos w !! id with
  | None => ret (json_error 404 "not cached")
  | Some info =>
      if negb (JS.truthy_opt (e_path info))
         || negb (Fs.existsSync (default "" (e_path info)) (fs w))
      then ret (json_error 404 "not cached")
      else
        let filePath := default "" (e_path info) in
        do total <- lift_res (Fs.statSync_size filePath (fs w));
        run modify (set_videos (<[id := with_lastAccess now info]>));
        run persist;
        ret (send_file range total (default [] (Fs.content filePath (fs w))))
  end.

(** Express answers 500 when a synchronous handler throws. *)
Definition route_stream (id : string) (range : option string) (now : Z)
           (w : World) : Response * World :=
  match stream id range now w with
  | (Ok r, w') => (r, w')
  | (Throw e, w') => (mkResponse 500 [] (Text (exn_to_string e)), w')
  end.

(** [path.join(DATA_DIR, id)] for an [id] of hexadecimal digits, and the
    temporary path [filePath + '.part']. *)
Definition filePath_of (id : string) : string := DATA_DIR cfg ++ "/" ++ id.
Definition tmpPath_of (id : string) : string := filePath_of id ++ ".part".

(** [videos[id].prop = ...]: a [TypeError] when [videos[id]] is
    [undefined]. *)
Definition assign (id prop : string) (f : Entry → Entry) : M unit :=
  do w <- get;
  match videos w !! id with
  | Some e => modify (set_videos (<[id := f e]>))
  | None =>
      throw (TypeError ("Cannot set properties of undefined (setting '"
                        ++ prop ++ "')"))
  end.

Definition renameSync (src dst : string) : M unit :=
  do w <- get;
  do fs' <- lift_res (Fs.renameSync src dst (fs w));
  modify (set_fs (fun _ => fs')).

Definition statSync_size (p : string) : M Z :=
  do w <- get; lift_res (Fs.statSync_size p (fs w)).

(** [fs.createWriteStream(p)] *)
Definition createWriteStream (p : string) : M Writer :=
  fun w => let '(i, fs') := Fs.open_w p (fs w) in
           (Ok (mkWriter i 0), set_fs (fun _ => fs') w).

(** *** [downloadFull(url, id)]

    The function is suspended twice: while the request is pending and
    while [pipeline] copies the body.  Each piece below runs without
    interruption. *)

(** The [catch (err)] block. *)
Definition download_catch (id : string) (err : Exn) : M unit :=
  match variant cfg with
  | VideoProxyServer =>
      run console_log ("download error " ++ exn_message err);
      do w <- get;
      match videos w !! id with
      | Some _ =>
          run assign id "status" (with_status error);
          run assign id "error"
              (with_error (if JS.truthy (exn_message err)
                           then exn_message err else "download_failed"));
          persist
      | None => ret tt
      end
  | MainframeServer =>
      run console_log ("downloadFull error " ++ exn_to_string err);
      run assign id "status" (with_status error);
      run assign id "error" (with_error (exn_to_string err));
      persist
  end.

Definition set_task (n : nat) (ph : Phase) (more : list Byte.byte)
  : M unit :=
  modify (set_tasks
            (alter (fun t => mkTask (t_id t) (t_url t) ph
                                    (t_received t ++ more)%list) n)).

(** From the call to the first [await].  [video-proxy-server] creates the
    write stream before it sends the request. *)
Definition download_start (url id : string) : M unit :=
  do ow <- match variant cfg with
           | VideoProxyServer =>
               do wr <- createWriteStream (tmpPath_of id); ret (Some wr)
           | MainframeServer => ret None
           end;
  modify (set_tasks (fun ts => (ts ++ [mkTask id url (Requesting ow) []])%list)).

(** The request has settled: [r] is the status of the response, or the
    error of a failed request. *)
Definition download_response (n : nat) (id : string) (ow : option Writer)
           (r : Res Z) : M unit :=
  try_catch
    (match r with
     | Throw e => throw e
     | Ok st =>
         if status_ok st then
           do wr <- match ow with
                    | Some wr => ret wr
                    | None => createWriteStream (tmpPath_of id)
                    end;
           set_task n (Piping wr) []
         else
           match variant cfg with
           | VideoProxyServer =>
               throw (mkExn "AxiosError"
                            ("Request failed with status code " ++ JS.dec st))
           | MainframeServer =>
               run assign id "status" (with_status error);
               run assign id "error"
                   (with_error ("fetch_failed_" ++ JS.dec st));
               persist
           end
     end)
    (download_catch id).

(** [pipeline] writes one chunk of the body. *)
Definition download_chunk (n : nat) (wr : Writer) (bs : list Byte.byte)
  : M unit :=
  run modify (set_fs (Fs.write_at (w_ino wr) (w_pos wr) bs));
  set_task n (Piping (mkWriter (w_ino wr) (w_pos wr + length bs))) bs.

(** [pipeline] has resolved: the rest of the [try] block. *)
Definition download_finish (id : string) (now : Z) : M unit :=
  try_catch
    (let filePath := filePath_of id in
     run renameSync (tmpPath_of id) filePath;
     run assign id "status" (with_status ready);
     run match variant cfg with
         | VideoProxyServer =>
             run assign id "path" (with_path filePath);
             do sz <- statSync_size filePath;
             assign id "size" (with_size sz)
         | MainframeServer =>
             do sz <- statSync_size filePath;
             run assign id "size" (with_size sz);
             assign id "path" (with_path filePath)
         end;
     run assign id "lastAccess" (with_lastAccess now);
     run persist;
     console_log ("Downloaded " ++ id))
    (download_catch id).

(** *** [GET /add] *)

(** [now] is the time [genId] reads and [now'] the one stored in
    [addedAt]. *)
Definition add (url : option string) (now now' : Z) : M Response :=
  if negb (JS.truthy_opt url) then ret (json_error 400 "missing url")
  else
    let url := default "" url in
    if negb (parses_as_URL cfg url) then ret (json_error 400 "invalid url")
    else
      let id := genId url now in
      run modify (set_videos
                    (<[id := mkEntry id (Some url) downloading None None
                                     (Some now') None None]>));
      run persist;
      run download_start url id;
      ret (mkResponse 200 [] (Json [("id", id); ("status", "downloading")])).

(** *** The cleanup task *)

Definition INACTIVITY_MS : Z := INACTIVITY_MINUTES cfg * 60 * 1000.

(** [info.lastAccess || info.addedAt || 0] *)
Definition last_seen (info : Entry) : Z :=
  if JS.truthy_num (e_lastAccess info) then default 0 (e_lastAccess info)
  else if JS.truthy_num (e_addedAt info) then default 0 (e_addedAt info)
  else 0.

Definition expired (now : Z) (info : Entry) : bool :=
  JS.truthy_opt (e_path info) && (INACTIVITY_MS <? now - last_seen info).

(** One turn of the loop over [Object.entries(videos)]. *)
Definition sweep_entry (now : Z) (w : World) (kv : string * Entry) : World :=
  let '(id, info) := kv in
  if negb (JS.truthy_opt (e_path info)) then w
  else if INACTIVITY_MS <? now - last_seen info then
    let w1 := match Fs.unlinkSync (default "" (e_path info)) (fs w) with
              | Ok fs' => set_fs (fun _ => fs') w
              | Throw _ => w
              end in
    add_console ("Deleted " ++ id) (set_videos (delete id) w1)
  else w.

(** The body of the timer callback. *)
Definition sweep (now : Z) : M unit :=
  do w <- get;
  run modify (fun w0 => foldl (sweep_entry now) w0 (map_to_list (videos w)));
  persist.

(** *** [POST /admin/delete] ([video-proxy-server] only) *)

Definition admin_delete (id : option string) : M Response :=
  if negb (JS.truthy_opt id) then ret (json_error 400 "missing id")
  else
    let id := default "" id in
    do w <- get;
    match videos w !! id with
    | None => ret (json_error 404 "not found")
    | Some info =>
        run (if JS.truthy_opt (e_path info)
                && Fs.existsSync (default "" (e_path info)) (fs w)
             then match Fs.unlinkSync (default "" (e_path info)) (fs w) with
                  | Ok fs' => modify (set_fs (fun _ => fs'))
                  | Throw _ => ret tt
                  end
             else ret tt);
        run modify (set_videos (delete id));
        run persist;
        ret (mkResponse 200 [] (Json [("ok", "true")]))
    end.

(** *** [GET /stream-proxy]

    [origin url range] is what the request to [url], carrying the
    client's Range header when there is one, comes back with.  The
    response is the head the handler has set when it starts piping, with
    the body the origin delivers. *)
Definition stream_proxy (url range : option string)
           (origin : string → option string → Res Upstream) : Response :=
  if negb (JS.truthy_opt url) then json_error 400 "missing url"
  else
    let url := default "" url in
    if negb (parses_as_URL cfg url) then json_error 400 "invalid url"
    else
      let range := if JS.truthy_opt range then range else None in
      match origin url range with
      | Throw _ => json_error 502 "stream failed"
      | Ok upstream =>
          let h := up_headers upstream in
          let rejected :=
            match variant cfg with
            | VideoProxyServer => 400 <=? up_status upstream
            | MainframeServer => negb (status_ok (up_status upstream))
            end in
          if rejected then
            json_error 502 ("upstream " ++ JS.dec (up_status upstream))
          else
            let partial :=
              if up_status upstream =? 206 then
                ((if JS.truthy_opt (header "content-range" h)
                  then [("Content-Range",
                         default "" (header "content-range" h))]
                  else [])
                 ++ [("Accept-Ranges",
                      if JS.truthy_opt (header "accept-ranges" h)
                      then default "" (header "accept-ranges" h)
                      else "bytes")])%list
              else [] in
            let length_ :=
              if JS.truthy_opt (header "content-length" h)
              then [("Content-Length",
                     default "" (header "content-length" h))]
              else [] in
            let type_ :=
              match variant cfg with
              | VideoProxyServer =>
                  if JS.truthy_opt (header "content-type" h)
                  then [("Content-Type",
                         default "" (header "content-type" h))]
                  else []
              | MainframeServer =>
                  [("Content-Type",
                    if JS.truthy_opt (header "content-type" h)
                    then default "" (header "content-type" h)
                    else "application/octet-stream")]
              end in
            mkResponse (if up_status upstream =? 206 then 206 else 200)
                       (partial ++ length_ ++ type_
                        ++ [("Cache-Control", "no-store")])%list
                       (Bytes (up_body upstream))
      end.

End Server.

(** ** The event loop

    Handlers and the continuations of [downloadFull] run one at a time,
    each to its next suspension point.  An event is one such turn; its
    arguments are what the outside world supplies. *)
Inductive Event : Type :=
| GetAdd (url : option string) (now now' : Z)
| GetStream (id : string) (range : option string) (now : Z)
| PostAdminDelete (id : option string)
| Cleanup (now : Z)                   (* the timer fires *)
| Responded (n : nat) (r : Res Z)     (* the request of task [n] settles *)
| Chunk (n : nat) (bs : list Byte.byte)
| Finished (n : nat) (now : Z)        (* [pipeline] of task [n] resolves *)
| Failed (n : nat) (e : Exn)          (* [pipeline] of task [n] rejects *)
| DiskOk (b : bool).                  (* [videos.json] becomes (un)writable *)

(** What the client gets, when the turn answers a request, and the next
    state.  A rejected [async] handler or continuation answers nothing. *)
Definition step (cfg : Config) (ev : Event) (w : World)
  : option Response * World :=
  match ev with
  | GetAdd url now now' =>
      match add cfg url now now' w with
      | (Ok r, w') => (Some r, w')
      | (Throw _, w') => (None, w')
      end
  | GetStream id range now =>
      let '(r, w') := route_stream cfg id range now w in (Some r, w')
  | PostAdminDelete id =>
      match variant cfg with
      | VideoProxyServer =>
          match admin_delete cfg id w with
          | (Ok r, w') => (Some r, w')
          | (Throw e, w') => (Some (mkResponse 500 [] (Text (exn_to_string e))), w')
          end
      | MainframeServer =>
          (Some (mkResponse 404 [] (Text "Cannot POST /admin/delete")), w)
      end
  | Cleanup now => (None, snd (sweep cfg now w))
  | Responded n r =>
      match tasks w !! n with
      | Some (mkTask id _ (Requesting ow) _) =>
          (None, snd ((run set_task n Aborted [];
                       download_response cfg n id ow r) w))
      | _ => (None, w)
      end
  | Chunk n bs =>
      match tasks w !! n with
      | Some (mkTask _ _ (Piping wr) _) => (None, snd (download_chunk n wr bs w))
      | _ => (None, w)
      end
  | Finished n now =>
      match tasks w !! n with
      | Some (mkTask id _ (Piping _) _) =>
          (None, snd ((run set_task n Received [];
                       download_finish cfg id now) w))
      | _ => (None, w)
      end
  | Failed n e =>
      match tasks w !! n with
      | Some (mkTask id _ (Piping _) _) =>
          (None, snd ((run set_task n Aborted []; download_catch cfg id e) w))
      | _ => (None, w)
      end
  | DiskOk b => (None, set_disk_ok b w)
  end.

(** The state after a sequence of turns. *)
Definition exec (cfg : Config) (evs : list Event) (w : World) : World :=
  foldl (fun w ev => snd (step cfg ev w)) w evs.

(** * Definitions used by the statements *)

(** ** A sample configuration, with a sample download *)

Definition sample_url : string := "http://x/a.mp4".

Definition sample_config (v : server) : Config :=
  mkConfig v "/data" 60 (String.eqb sample_url).

Definition bytes_of (s : string) : list Byte.byte :=
  map byte_of_ascii (list_ascii_of_string s).

Definition sample_id : string := "e482ef9a1c39".

(** The sample download just before [pipeline] resolves. *)
Definition sample_piping : list Event :=
  [GetAdd (Some sample_url) 1700013942250 1700013942250;
   Responded 0 (Ok 200);
   Chunk 0 (bytes_of "hello ");
   Chunk 0 (bytes_of "world")].

(** One [/add] whose download runs to completion in two chunks. *)
Definition sample_download : list Event :=
  [GetAdd (Some sample_url) 1700013942250 1700013942250;
   Responded 0 (Ok 200);
   Chunk 0 (bytes_of "hello ");
   Chunk 0 (bytes_of "world");
   Finished 0 1700013943000].

(** An entry whose download failed before any file was promoted. *)
Definition sample_failed : list Event :=
  [GetAdd (Some sample_url) 1700013942250 1700013942250;
   Responded 0 (Throw (Error "connect ECONNREFUSED"))].

Definition sample_world (v : server) : World :=
  exec (sample_config v) sample_download initial_world.

(** The entry of the sample download once it is ready. *)
Definition sample_entry : Entry :=
  mkEntry sample_id (Some sample_url) ready (Some "/data/e482ef9a1c39")
          (Some 11) (Some 1700013942250) (Some 1700013943000) None.

(** The sample state with the cached file protected against removal. *)
Definition sample_world_protected (v : server) : World :=
  set_fs (fun f => mkFS (names f) (inodes f) (next_ino f)
                        {["/data/e482ef9a1c39"]})
         (sample_world v).

(** An origin that answers every request with 206 and the given
    [Content-Range] value. *)
Definition sample_origin (cr : string) (url : string) (range : option string)
  : Res Upstream :=
  Ok (mkUpstream 206 [("content-range", cr); ("content-length", "11")]
                 (bytes_of "hello world")).

(** ** The Range resolver *)

(** [persist()] cannot throw in [video-proxy-server]; in the other variant
    it throws exactly when the write fails. *)
Definition persist_succeeds (cfg : Config) (w : World) : Prop :=
  variant cfg = MainframeServer → disk_ok w = true.

(** No minus sign occurs in [s]. *)
Definition dash_free (s : string) : Prop :=
  Forall (fun c => c ≠ "-"%char) (list_ascii_of_string s).

(** The value of a decimal numeral read after [acc]. *)
Fixpoint digits_value (d : Decimal.uint) (acc : Z) : Z :=
  match d with
  | Decimal.Nil => acc
  | Decimal.D0 d => digits_value d (10 * acc)
  | Decimal.D1 d => digits_value d (10 * acc + 1)
  | Decimal.D2 d => digits_value d (10 * acc + 2)
  | Decimal.D3 d => digits_value d (10 * acc + 3)
  | Decimal.D4 d => digits_value d (10 * acc + 4)
  | Decimal.D5 d => digits_value d (10 * acc + 5)
  | Decimal.D6 d => digits_value d (10 * acc + 6)
  | Decimal.D7 d => digits_value d (10 * acc + 7)
  | Decimal.D8 d => digits_value d (10 * acc + 8)
  | Decimal.D9 d => digits_value d (10 * acc + 9)
  end.

(** [s] is made of decimal digits. *)
Definition all_digits (s : string) : Prop :=
  Forall (fun c => is_Some (JS.digit_value c)) (list_ascii_of_string s).

(** The header [bytes=start-end]. *)
Definition bytes_range (s e : Z) : string :=
  "bytes=" ++ JS.dec s ++ "-" ++ JS.dec e.

(** The two ways in which the 416 rule of the specification is broken on
    the sample file of 11 bytes: a range with [start >= T] and an explicit
    end is answered 206, and a 416 answer carries a body. *)
Definition range_416_rule_broken (v : server) : Prop :=
  let w := sample_world v in
  let T := 11 in
  let r1 := fst (route_stream (sample_config v) sample_id
                              (Some "bytes=20-400") 1700013950000 w) in
  let r2 := fst (route_stream (sample_config v) sample_id
                              (Some "bytes=5-3") 1700013950000 w) in
  (range_start (range_parts "bytes=20-400") = JS.Num 20
   ∧ range_end (range_parts "bytes=20-400") T = JS.Num 400
   ∧ T ≤ 20 ∧ status r1 = 206)
  ∧ (range_start (range_parts "bytes=5-3") = JS.Num 5
     ∧ range_end (range_parts "bytes=5-3") T = JS.Num 3
     ∧ 3 < 5 ∧ status r2 = 416
     ∧ body r2 = Text "Requested Range Not Satisfiable"
     ∧ body r2 ≠ NoBody).

(** A range whose end is the first integer above
    [Number.MAX_SAFE_INTEGER], asked of the sample file of 11 bytes: the
    bounds are parsed, [start <= end], [start < T] and [end >= T], and yet
    the client gets no response, let alone 206. *)
Definition end_beyond_safe_integers (v : server) : Prop :=
  let w := sample_world v in
  let T := 11 in
  let range := "bytes=0-9007199254740992" in
  let r := fst (route_stream (sample_config v) sample_id (Some range)
                             1700013950000 w) in
  (Fs.content "/data/e482ef9a1c39" (fs w) = Some (bytes_of "hello world")
   ∧ range_start (range_parts range) = JS.Num 0
   ∧ range_end (range_parts range) T = JS.Num (2 ^ 53)
   ∧ 0 ≤ 2 ^ 53 ∧ 0 < T ∧ T ≤ 2 ^ 53)
  ∧ r = no_response ∧ status r ≠ 206.

(** ** [/add] *)

(** The record [/add] stores. *)
Definition new_entry (url : string) (id : string) (t' : Z) : Entry :=
  mkEntry id (Some url) downloading None None (Some t') None None.

(** The body of an accepted [/add]: [{ id, status: 'downloading' }]. *)
Definition add_answer (id : string) : Response :=
  mkResponse 200 [] (Json [("id", id); ("status", "downloading")]).


(** ** [/stream-proxy] *)

(** What [/stream-proxy] forwards of the client's Range header:
    [if (req.headers.range) headers.range = req.headers.range]. *)
Definition forwarded_range (range : option string) : option string :=
  if JS.truthy_opt range then range else None.

(** The verbatim relay of [Content-Range] is broken for an origin whose
    206 answer carries the header with an empty value: the answer to the
    client is 206 without the header. *)
Definition content_range_relay_broken (v : server) : Prop :=
  let r := stream_proxy (sample_config v) (Some sample_url)
                        (Some "bytes=0-10") (sample_origin "") in
  header "content-range" [("content-range", ""); ("content-length", "11")]
  = Some ""
  ∧ status r = 206
  ∧ header "Content-Range" (headers r) = None.

(** ** [persist] *)

(** The [status] and [error] of the sample entry after the download
    finishes, with [videos.json] writable or not at that moment. *)
Definition finish_with_disk (v : server) (ok : bool)
  : option (Status * option string) :=
  let cfg := sample_config v in
  let w := set_disk_ok ok (exec cfg sample_piping initial_world) in
  (fun e => (e_status e, e_error e))
    <$> videos (snd (step cfg (Finished 0 1700013943000) w)) !! sample_id.

(** The answer to a request for the cached sample file, with
    [videos.json] writable or not. *)
Definition stream_with_disk (v : server) (ok : bool) : Z :=
  status (fst (route_stream (sample_config v) sample_id None 1700013950000
                            (set_disk_ok ok (sample_world v)))).

(** Two states that differ at most in the console, in [videos.json] and in
    whether [videos.json] can be written. *)
Definition same_memory (w w' : World) : Prop :=
  videos w = videos w' ∧ fs w = fs w' ∧ tasks w = tasks w'.

(** [m] gives the same result and the same memory from two such states. *)
Definition oblivious {A} (m : M A) : Prop :=
  ∀ w w', same_memory w w' →
    fst (m w) = fst (m w') ∧ same_memory (snd (m w)) (snd (m w')).

(** ** The state of the cache while downloads are in flight *)

(** The write stream a suspended [downloadFull] holds. *)
Definition writer_of (ph : Phase) : option Writer :=
  match ph with
  | Requesting ow => ow
  | Piping wr => Some wr
  | Received | Aborted => None
  end.

(** The paths of the entries: all the invariant needs of [videos]. *)
Definition paths (w : World) : gmap string (option string) :=
  e_path <$> videos w.

(** What holds in every state reached when no id is generated twice,
    stated on the directory [N], the inodes [I], the next free inode [X],
    the downloads [T] and the paths of the entries [P]. *)
Record Inv (cfg : Config) (N : gmap string nat)
       (I : gmap nat (list Byte.byte)) (X : nat) (T : list Task)
       (P : gmap string (option string)) : Prop := mkInv {
  (* one call of [downloadFull] per id *)
  inv_unique : ∀ n m t t', T !! n = Some t → T !! m = Some t' →
      t_id t = t_id t' → n = m;
  inv_len : ∀ n t, T !! n = Some t → String.length (t_id t) = 12%nat;
  (* the files under [DATA_DIR] are those of the downloads *)
  inv_names : ∀ p i, N !! p = Some i →
      (i < X)%nat
      ∧ ∃ n t, T !! n = Some t
               ∧ (p = tmpPath_of cfg (t_id t) ∨ p = filePath_of cfg (t_id t));
  (* a write stream writes to the temporary file alone, which holds what
     was received so far *)
  inv_writer : ∀ n t wr, T !! n = Some t → writer_of (t_phase t) = Some wr →
      N !! tmpPath_of cfg (t_id t) = Some (w_ino wr)
      ∧ (∀ p, N !! p = Some (w_ino wr) → p = tmpPath_of cfg (t_id t))
      ∧ I !! w_ino wr = Some (t_received t)
      ∧ w_pos wr = length (t_received t);
  (* before the mainframe server opens its write stream *)
  inv_pending : ∀ n t, T !! n = Some t → t_phase t = Requesting None →
      N !! tmpPath_of cfg (t_id t) = None ∧ t_received t = [];
  (* [path] set: the file is there and is the whole body of the download *)
  inv_cached : ∀ id p, P !! id = Some (Some p) → JS.truthy p = true →
      p = filePath_of cfg id
      ∧ ∃ n t i, T !! n = Some t ∧ t_id t = id ∧ t_phase t = Received
                 ∧ N !! p = Some i ∧ I !! i = Some (t_received t);
  (* [path] not set: nothing is at the final path *)
  inv_uncached : ∀ id op, P !! id = Some op → JS.truthy_opt op = false →
      N !! filePath_of cfg id = None;
  (* the keys of [videos] are generated ids *)
  inv_key : ∀ id op, P !! id = Some op → String.length id = 12%nat
}.

Definition invariant (cfg : Config) (w : World) : Prop :=
  Inv cfg (names (fs w)) (inodes (fs w)) (next_ino (fs w)) (tasks w) (paths w).

(** The id an event makes [/add] generate, if any. *)
Definition minted (cfg : Config) (ev : Event) : option string :=
  match ev with
  | GetAdd (Some url) now _ =>
      if JS.truthy url && parses_as_URL cfg url then Some (genId url now)
      else None
  | _ => None
  end.

(** Along [evs], started in [w], every generated id is new: no earlier
    [/add] has started a download under it. *)
Fixpoint fresh_ids (cfg : Config) (evs : list Event) (w : World) : Prop :=
  match evs with
  | [] => True
  | ev :: evs' =>
      (∀ id, minted cfg ev = Some id → id ∉ t_id <$> tasks w)
      ∧ fresh_ids cfg evs' (snd (step cfg ev w))
  end.

(** The footprint of code that only touches properties other than [path]
    of existing entries, the console and [videos.json]. *)
Definition keeps_files (w w' : World) : Prop :=
  fs w' = fs w ∧ tasks w' = tasks w ∧ paths w' = paths w.

(** Every run of [m] relates the state before to the state after. *)
Definition stable {A} (R : World → World → Prop) (m : M A) : Prop :=
  ∀ w, R w (snd (m w)).

(** [T'] is [T] with its [n]th download replaced by [t']. *)
Definition replaced (T : list Task) (n : nat) (t' : Task) (T' : list Task)
  : Prop :=
  ∀ j, T' !! j = if decide (n = j) then Some t' else T !! j.

(** Two [/add] calls for one URL in the same millisecond share an id, and
    so a temporary file.  In the mainframe server the second download
    truncates the file when its response arrives; the first goes on
    writing at its own offset, finishes and renames the file. *)
Definition colliding_downloads_mainframe : list Event :=
  [GetAdd (Some sample_url) 1700013942250 1700013942250;
   GetAdd (Some sample_url) 1700013942250 1700013942250;
   Responded 0 (Ok 200);
   Chunk 0 (bytes_of "hello ");
   Responded 1 (Ok 200);
   Chunk 0 (bytes_of "world");
   Finished 0 1700013943000].

(** In [video-proxy-server] both write streams exist from the start; the
    second download is still writing after the first has renamed the
    file. *)
Definition colliding_downloads_proxy : list Event :=
  [GetAdd (Some sample_url) 1700013942250 1700013942250;
   GetAdd (Some sample_url) 1700013942250 1700013942250;
   Responded 0 (Ok 200);
   Responded 1 (Ok 200);
   Chunk 0 (bytes_of "hello ");
   Chunk 0 (bytes_of "world");
   Finished 0 1700013943000;
   Chunk 1 (bytes_of "HE")].

(** After [evs] a download of the sample id is in flight, its write
    stream open, and [/stream/:id] answers 200 for that id. *)
Definition served_while_downloading (v : server) (evs : list Event) : Prop :=
  let cfg := sample_config v in
  let w := exec cfg evs initial_world in
  let r := fst (route_stream cfg sample_id None 1700013944000 w) in
  (∃ t wr, tasks w !! 1%nat = Some t ∧ t_id t = sample_id
           ∧ t_phase t = Piping wr)
  ∧ status r = 200.

(** After [evs] the sample entry is [ready] with its final path, a write
    stream of a download in flight is open on the file at that path, and
    [/stream/:id] answers 200 with [served], which is not the body
    [received] by the download that renamed the file. *)
Definition partial_file_served (v : server) (evs : list Event)
           (served received : list Byte.byte) : Prop :=
  let cfg := sample_config v in
  let w := exec cfg evs initial_world in
  let r := fst (route_stream cfg sample_id None 1700013944000 w) in
  (e_status <$> videos w !! sample_id = Some ready
   ∧ e_path <$> videos w !! sample_id = Some (Some (filePath_of cfg sample_id)))
  ∧ (∃ t wr, tasks w !! 1%nat = Some t ∧ t_phase t = Piping wr
             ∧ names (fs w) !! filePath_of cfg sample_id = Some (w_ino wr))
  ∧ (t_received <$> tasks w !! 0%nat = Some received
     ∧ t_phase <$> tasks w !! 0%nat = Some Received)
  ∧ status r = 200 ∧ body r = Bytes served ∧ served ≠ received.

(** * The rest of the handlers, and further definitions for statements *)

(** ** [encodeURIComponent]

    A string stands for the bytes of its UTF-8 encoding, as in [genId].
    The letters, the digits and [- _ . ! ~ * ' ( )] are left alone; every
    other byte is written [%XX] with upper-case hexadecimal digits. *)
Definition uri_unreserved (c : ascii) : bool :=
  let n := nat_of_ascii c in
  (((65 <=? n) && (n <=? 90)) || ((97 <=? n) && (n <=? 122))
   || ((48 <=? n) && (n <=? 57))
   || (n =? 45) || (n =? 95) || (n =? 46) || (n =? 33) || (n =? 126)
   || (n =? 42) || (n =? 39) || (n =? 40) || (n =? 41))%nat.

Definition upper_hex_digit (n : N) : ascii :=
  if (n <? 10)%N then ascii_of_N (48 + n) else ascii_of_N (55 + n).

Definition percent_escape (c : ascii) : string :=
  let n := N_of_ascii c in
  String "%" (String (upper_hex_digit (n / 16))
                     (String (upper_hex_digit (n mod 16)) "")).

Fixpoint encodeURIComponent (s : string) : string :=
  match s with
  | EmptyString => EmptyString
  | String c s' =>
      (if uri_unreserved c then String c "" else percent_escape c)
      ++ encodeURIComponent s'
  end.

(** ** [GET /watch/:id] *)

(** A double quote and a line feed. *)
Definition DQ : string := String "034" "".
Definition NL : string := String "010" "".

Definition quoted (s : string) : string := DQ ++ s ++ DQ.

(** The page each server sends, [src] being what it puts in the [src]
    attribute of the [source] element. *)
Definition watch_page (v : server) (id src : string) : string :=
  match v with
  | VideoProxyServer =>
      "<!doctype html><html><head><meta charset=" ++ quoted "utf-8"
      ++ "><meta name=" ++ quoted "viewport" ++ " content="
      ++ quoted "width=device-width,initial-scale=1" ++ "><title>Watch "
      ++ id ++ "</title><link rel=" ++ quoted "stylesheet" ++ " href="
      ++ quoted "/player/player.css" ++ "></head><body><div class="
      ++ quoted "player-wrap" ++ "><h2>Playing " ++ id
      ++ "</h2><video id=" ++ quoted "v"
      ++ " controls crossorigin playsinline><source src=" ++ quoted src
      ++ " type=" ++ quoted "video/mp4"
      ++ ">Your browser does not support HTML5 video.</video></div>"
      ++ "<script>if('serviceWorker' in navigator)"
      ++ "{navigator.serviceWorker.register('/player/sw.js')"
      ++ ".catch(e=>console.warn('sw',e));}</script></body></html>"
  | MainframeServer =>
      "<!doctype html>" ++ NL
      ++ "  <html><head><meta charset=" ++ quoted "utf-8"
      ++ "><meta name=" ++ quoted "viewport" ++ " content="
      ++ quoted "width=device-width,initial-scale=1" ++ ">" ++ NL
      ++ "  <title>Watch - " ++ id ++ "</title>" ++ NL
      ++ "  <link rel=" ++ quoted "stylesheet" ++ " href="
      ++ quoted "/player/player.css" ++ ">" ++ NL
      ++ "  </head><body>" ++ NL
      ++ "  <div class=" ++ quoted "player-wrap" ++ ">" ++ NL
      ++ "    <h2>Playing " ++ id ++ "</h2>" ++ NL
      ++ "    <video id=" ++ quoted "v"
      ++ " controls crossorigin playsinline>" ++ NL
      ++ "      <source src=" ++ quoted src ++ " type="
      ++ quoted "video/mp4" ++ ">" ++ NL
      ++ "      Your browser does not support HTML5 video." ++ NL
      ++ "    </video>" ++ NL
      ++ "  </div>" ++ NL
      ++ "  <script>" ++ NL
      ++ "    if ('serviceWorker' in navigator) {" ++ NL
      ++ "      navigator.serviceWorker.register('/player/sw.js')"
      ++ ".catch(e=>console.warn('sw',e));" ++ NL
      ++ "    }" ++ NL
      ++ "  </script>" ++ NL
      ++ "  </body></html>"
  end.

(** [res.type('html').send(page)] *)
Definition send_html (page : string) : Response :=
  mkResponse 200 [("Content-Type", "text/html; charset=utf-8")] (Text page).

(** The property names every object inherits from [Object.prototype]:
    for them [videos[id]] is not [undefined] although [videos] has no
    such entry. *)
Definition inherited (id : string) : bool :=
  existsb (String.eqb id)
    ["constructor"; "__proto__"; "hasOwnProperty"; "isPrototypeOf";
     "propertyIsEnumerable"; "toLocaleString"; "toString"; "valueOf";
     "__defineGetter__"; "__defineSetter__"; "__lookupGetter__";
     "__lookupSetter__"].

(** [videos[id]] as the watch page reads it: [undefined], or the [path]
    and the [source] of what is found (an inherited value has neither). *)
Definition watch_info (id : string) (w : World)
  : option (option string * option string) :=
  match videos w !! id with
  | Some info => Some (e_path info, e_source info)
  | None => if inherited id then Some (None, None) else None
  end.

(** ['/stream-proxy?url=' + encodeURIComponent(url)] *)
Definition proxy_src (url : string) : string :=
  "/stream-proxy?url=" ++ encodeURIComponent url.

(** The handler.  [url] is [req.query.url].  In the mainframe server
    [source] may be [undefined], on which [source.startsWith] throws. *)
Definition watch (v : server) (id : string) (url : option string) (w : World)
  : Response :=
  match v with
  | VideoProxyServer =>
      if String.eqb id "temp" then
        if negb (JS.truthy_opt url)
        then mkResponse 400 [] (Text "Missing url for temp watch")
        else send_html (watch_page v id (proxy_src (default "" url)))
      else
        match watch_info id w with
        | None => mkResponse 404 [] (Text "Unknown id")
        | Some (path, source) =>
            send_html
              (watch_page v id
                 (if JS.truthy_opt path then "/stream/" ++ id
                  else proxy_src (if JS.truthy_opt source
                                  then default "" source else "")))
        end
  | MainframeServer =>
      let page (source : option string) : Response :=
        match source with
        | Some s =>
            send_html (watch_page v id
                         (if String.prefix "/" s then s else proxy_src s))
        | None =>
            mkResponse 500 []
              (Text (exn_to_string
                       (TypeError ("Cannot read properties of undefined "
                                   ++ "(reading 'startsWith')"))))
        end in
      if String.eqb id "temp" then
        if negb (JS.truthy_opt url)
        then mkResponse 400 [] (Text "Missing url for temp watch")
        else page url
      else
        match watch_info id w with
        | None => mkResponse 404 [] (Text "Unknown id")
        | Some (path, source) =>
            page (if JS.truthy_opt path then Some ("/stream/" ++ id)
                  else source)
        end
  end.

(** ** Further definitions for statements *)

(** [id] is cached in [w]: its entry [info] has a [path], and the file
    at that path holds [data]. *)
Definition cached (w : World) (id : string) (info : Entry)
           (data : list Byte.byte) : Prop :=
  videos w !! id = Some info
  ∧ JS.truthy_opt (e_path info) = true
  ∧ Fs.content (default "" (e_path info)) (fs w) = Some data.

(** The header [bytes=s-], without an end. *)
Definition open_range (s : Z) : string := "bytes=" ++ JS.dec s ++ "-".

(** [s] does not begin with a decimal digit. *)
Definition no_leading_digit (s : string) : Prop :=
  match s with
  | EmptyString => True
  | String c _ => JS.digit_value c = None
  end.

(** A lower-case hexadecimal digit. *)
Definition lower_hex (c : ascii) : bool :=
  let n := nat_of_ascii c in
  (((48 <=? n) && (n <=? 57)) || ((97 <=? n) && (n <=? 102)))%nat.

(** [s] is made of lower-case hexadecimal digits. *)
Definition hex_string (s : string) : Prop :=
  Forall (fun c => lower_hex c = true) (list_ascii_of_string s).

(** What the [catch] block of [downloadFull] stores in [error]:
    [(err && err.message) || 'download_failed'] in [video-proxy-server],
    [String(err)] in the mainframe server. *)
Definition recorded_error (v : server) (err : Exn) : string :=
  match v with
  | VideoProxyServer =>
      if JS.truthy (exn_message err) then exn_message err
      else "download_failed"
  | MainframeServer => exn_to_string err
  end.

(** The request of a download has failed: it was rejected, or answered
    with a status outside 200..299. *)
Definition request_failed (r : Res Z) : Prop :=
  match r with
  | Ok st => status_ok st = false
  | Throw _ => True
  end.

(** What [error] holds after a failed request. *)
Definition request_error (v : server) (r : Res Z) : string :=
  match r with
  | Throw err => recorded_error v err
  | Ok st =>
      match v with
      | VideoProxyServer => "Request failed with status code " ++ JS.dec st
      | MainframeServer => "fetch_failed_" ++ JS.dec st
      end
  end.

(** The entry of a finished download. *)
Definition downloaded (p : string) (size now : Z) (e : Entry) : Entry :=
  with_lastAccess now (with_size size (with_path p (with_status ready e))).

(** A sweep at time [now] evicts an entry of [l] whose [path] is [p]. *)
Definition evicts (cfg : Config) (now : Z) (l : list (string * Entry))
           (p : string) : Prop :=
  Exists (fun kv => expired cfg now kv.2 = true
                    ∧ default "" (e_path kv.2) = p) l.

(** [videos.json] can be written and holds what [videos] holds. *)
Definition synced (w : World) : Prop :=
  disk_ok w = true ∧ persisted w = videos w.

(** The statuses of the origin that [/stream-proxy] relays: below 400 in
    [video-proxy-server], 200..299 in the mainframe server. *)
Definition proxy_accepts (v : server) (st : Z) : bool :=
  match v with
  | VideoProxyServer => st <? 400
  | MainframeServer => status_ok st
  end.

(** A header of the origin as the handler reads it: an empty value counts
    as missing. *)
Definition origin_header (name : string) (up : Upstream) : option string :=
  if JS.truthy_opt (header name (up_headers up))
  then header name (up_headers up) else None.

(** The characters of a [src] built by [proxy_src]: those that
    [encodeURIComponent] leaves alone, and [% / ? =]. *)
Definition plain_char (c : ascii) : bool :=
  uri_unreserved c || Ascii.eqb c "%" || Ascii.eqb c "/" || Ascii.eqb c "?"
  || Ascii.eqb c "=".

Definition plain (s : string) : Prop :=
  Forall (fun c => plain_char c = true) (list_ascii_of_string s).

(** The value of a hexadecimal digit, [0] for any other character. *)
Definition hex_value (c : ascii) : N :=
  let n := N_of_ascii c in
  if ((48 <=? n) && (n <=? 57))%N then n - 48
  else if ((65 <=? n) && (n <=? 70))%N then n - 55
  else if ((97 <=? n) && (n <=? 102))%N then n - 87
  else 0.

(** Decoding of the [%XX] escapes, which is what the query-string parser
    applies to the [url] parameter of a request for [/stream-proxy]. *)
Fixpoint unescape (s : string) : string :=
  match s with
  | String c rest =>
      if Ascii.eqb c "%" then
        match rest with
        | String a (String b rest') =>
            String (ascii_of_N (16 * hex_value a + hex_value b))
                   (unescape rest')
        | _ => String c (unescape rest)
        end
      else String c (unescape rest)
  | EmptyString => EmptyString
  end.

(** * Properties *)

(** ** The primitives on examples *)

Example range_parts_ex : range_parts "bytes=0-99" = ["0"; "99"].
Proof. reflexivity. Qed.

Example range_parts_open : range_parts "bytes=100-" = ["100"; ""].
Proof. reflexivity. Qed.

Example parseInt_ex : JS.parseInt " +12abc" = JS.Num 12.
Proof. reflexivity. Qed.

Example parseInt_nan : JS.parseInt "abc" = JS.NaN.
Proof. reflexivity. Qed.

Example dec_ex : JS.dec 1024 = "1024" /\ JS.dec 0 = "0" /\ JS.dec (-1) = "-1".
Proof. repeat split; reflexivity. Qed.

Example sha1_empty :
  Sha1.digest_hex "" = "da39a3ee5e6b4b0d3255bfef95601890afd80709".
Proof. vm_compute. reflexivity. Qed.

Example sha1_abc :
  Sha1.digest_hex "abc" = "a9993e364706816aba3e25717850c26c9cd0d89d".
Proof. vm_compute. reflexivity. Qed.

Example sha1_two_blocks :
  Sha1.digest_hex "abcdbcdecdefdefgefghfghighijhijkijkljklmklmnlmnomnopnopq"
  = "84983e441c3bd26ebaae4aa1f95129e5e54670f1".
Proof. vm_compute. reflexivity. Qed.

Example parseInt_sign : JS.parseInt "-5" = JS.Num (-5).
Proof. reflexivity. Qed.

(** Only the first clause of a multi-range header is looked at. *)
Example range_multi :
  let parts := range_parts "bytes=0-5,10-20" in
  range_start parts = JS.Num 0 ∧ range_end parts 100 = JS.Num 5.
Proof. split; reflexivity. Qed.

Example range_other_unit :
  range_start (range_parts "items=0-5") = JS.NaN.
Proof. reflexivity. Qed.

Example overwrite_gap :
  Fs.overwrite 2 [Byte.x61] [Byte.x62] = [Byte.x62; Byte.x00; Byte.x61].
Proof. reflexivity. Qed.

Example genId_sample : genId sample_url 1700013942250 = sample_id.
Proof. vm_compute. reflexivity. Qed.

(** Before the download completes [/stream/:id] answers 404; afterwards a
    request for the first bytes is answered 206. *)
Example add_then_stream :
  let cfg := sample_config VideoProxyServer in
  status (fst (route_stream cfg sample_id (Some "bytes=0-4") 1700013942400
                            (exec cfg sample_piping initial_world))) = 404
  ∧ fst (route_stream cfg sample_id (Some "bytes=0-4") 1700013944000
                      (exec cfg sample_download initial_world))
    = mkResponse 206
        [("Content-Range", "bytes 0-4/11"); ("Accept-Ranges", "bytes");
         ("Content-Length", "5"); ("Content-Type", "video/mp4");
         ("Cache-Control", "no-store")]
        (Bytes (bytes_of "hello")).
Proof. split; vm_compute; reflexivity. Qed.

Example encodeURIComponent_ex :
  encodeURIComponent "http://x/a b.mp4?q=1&r=~'()*!-_."
  = "http%3A%2F%2Fx%2Fa%20b.mp4%3Fq%3D1%26r%3D~'()*!-_.".
Proof. vm_compute. reflexivity. Qed.

Example unescape_ex : unescape "a%20b%2Fc%" = "a b/c%".
Proof. vm_compute. reflexivity. Qed.

Example watch_temp_ex :
  watch VideoProxyServer "temp" (Some "http://x/a.mp4") initial_world
  = send_html (watch_page VideoProxyServer "temp"
                 "/stream-proxy?url=http%3A%2F%2Fx%2Fa.mp4").
Proof. vm_compute. reflexivity. Qed.



(** ** [persist] *)

Lemma persist_ok cfg w :
  persist_succeeds cfg w →
  ∃ w', persist cfg w = (Ok tt, w') ∧ videos w' = videos w ∧ fs w' = fs w
        ∧ tasks w' = tasks w ∧ disk_ok w' = disk_ok w.
Proof.
  unfold persist_succeeds, persist, try_catch, writeMetadata, console_log, modify.
  intros H. destruct (variant cfg), (disk_ok w) eqn:E; eauto 10.
  specialize (H eq_refl). discriminate.
Qed.

Lemma content_exists p fs0 data :
  Fs.content p fs0 = Some data → Fs.existsSync p fs0 = true.
Proof.
  unfold Fs.content, Fs.existsSync. intros H.
  destruct (names fs0 !! p) eqn:E; [|discriminate].
  apply bool_decide_eq_true. eauto.
Qed.

(** A cached file is served through [send_file] and its entry touched. *)
Lemma stream_cached cfg w id info p data range now :
  videos w !! id = Some info →
  e_path info = Some p → JS.truthy p = true →
  Fs.content p (fs w) = Some data →
  persist_succeeds cfg w →
  ∃ w', route_stream cfg id range now w
        = (send_file range (Z.of_nat (length data)) data, w')
        ∧ videos w' = <[id := with_lastAccess now info]> (videos w)
        ∧ fs w' = fs w.
Proof.
  intros Hv Hp Ht Hc Hs.
  unfold route_stream, stream, bind, get. rewrite Hv, Hp.
  cbn [JS.truthy_opt from_option Datatypes.id].
  rewrite Ht, (content_exists _ _ _ Hc). cbn [negb orb].
  unfold lift_res, Fs.statSync_size. rewrite Hc.
  unfold modify.
  destruct (persist_ok cfg (set_videos <[id:=with_lastAccess now info]> w))
    as (w' & Hw' & Hvid & Hfs & _); [exact Hs|].
  rewrite Hw'. unfold ret. cbn [from_option Datatypes.id]. eauto.
Qed.

(** In the mainframe server, where [persist()] is not guarded, a cached
    file is not served while [videos.json] cannot be written: the handler
    throws after it has set [lastAccess] and before it reads the [Range]
    header, and Express answers 500. *)
Lemma stream_cached_write_fails cfg w id info p data range now :
  videos w !! id = Some info →
  e_path info = Some p → JS.truthy p = true →
  Fs.content p (fs w) = Some data →
  variant cfg = MainframeServer → disk_ok w = false →
  status (fst (route_stream cfg id range now w)) = 500
  ∧ videos (snd (route_stream cfg id range now w))
    = <[id := with_lastAccess now info]> (videos w).
Proof.
  intros Hv Hp Ht Hc Hm Hd.
  unfold route_stream, stream, bind, get. rewrite Hv, Hp.
  cbn [JS.truthy_opt from_option Datatypes.id].
  rewrite Ht, (content_exists _ _ _ Hc). cbn [negb orb].
  unfold lift_res, Fs.statSync_size. rewrite Hc.
  unfold modify, persist, writeMetadata. rewrite Hm.
  cbn [disk_ok set_videos]. rewrite Hd. split; reflexivity.
Qed.

(** ** The Range resolver *)

Lemma send_file_206 range total data s e :
  range_start (range_parts range) = JS.Num s →
  range_end (range_parts range) total = JS.Num e →
  s ≤ e → e ≤ JS.MAX_SAFE_INTEGER →
  send_file (Some range) total data
  = mkResponse 206
      [("Content-Range",
        "bytes " ++ JS.dec s ++ "-" ++ JS.dec e ++ "/" ++ JS.dec total);
       ("Accept-Ranges", "bytes");
       ("Content-Length", JS.dec (e - s + 1));
       ("Content-Type", "video/mp4");
       ("Cache-Control", "no-store")]
      (Bytes (Fs.read_range s e data)).
Proof.
  intros Hs He Hle Hmax. unfold send_file.
  destruct range as [|c r]; [discriminate Hs|].
  cbn [JS.truthy_opt JS.truthy from_option Datatypes.id].
  rewrite Hs, He.
  destruct (e <? s) eqn:E; [apply Z.ltb_lt in E; lia |].
  destruct (JS.MAX_SAFE_INTEGER <? e) eqn:E';
    [apply Z.ltb_lt in E'; lia | reflexivity].
Qed.

(** Beyond [Number.MAX_SAFE_INTEGER] the read stream cannot be opened. *)
Lemma send_file_no_response range total data s e :
  range_start (range_parts range) = JS.Num s →
  range_end (range_parts range) total = JS.Num e →
  s ≤ e → JS.MAX_SAFE_INTEGER < e →
  send_file (Some range) total data = no_response.
Proof.
  intros Hs He Hle Hmax. unfold send_file.
  destruct range as [|c r]; [discriminate Hs|].
  cbn [JS.truthy_opt JS.truthy from_option Datatypes.id].
  rewrite Hs, He.
  destruct (e <? s) eqn:E; [apply Z.ltb_lt in E; lia |].
  destruct (JS.MAX_SAFE_INTEGER <? e) eqn:E';
    [reflexivity | apply Z.ltb_ge in E'; lia].
Qed.

Lemma send_file_416 range total data :
  JS.truthy range = true →
  range_rejected (range_start (range_parts range))
                 (range_end (range_parts range) total) = true →
  send_file (Some range) total data
  = mkResponse 416 [] (Text "Requested Range Not Satisfiable").
Proof.
  intros Ht Hr. unfold send_file. cbn [JS.truthy_opt from_option Datatypes.id].
  rewrite Ht.
  destruct (range_start (range_parts range)) as [|s];
    destruct (range_end (range_parts range) total) as [|e]; try reflexivity.
  cbn [range_rejected] in Hr. rewrite Hr. reflexivity.
Qed.

Lemma read_range_length s e (data : list Byte.byte) :
  0 ≤ s → s ≤ e →
  Z.of_nat (length (Fs.read_range s e data))
  = Z.min (e - s + 1) (Z.max 0 (Z.of_nat (length data) - s)).
Proof.
  intros Hs He. unfold Fs.read_range.
  rewrite length_take, length_drop. lia.
Qed.

(** The start of a range is never negative: [split('-')] leaves no minus
    sign for [parseInt] to read. *)
Lemma split_dash_free s : Forall dash_free (JS.split "-" s).
Proof.
  induction s as [|c s IH]; cbn [JS.split].
  - repeat constructor.
  - destruct (Ascii.eqb_spec c "-") as [->|Hc].
    + constructor; [constructor | exact IH].
    + destruct (JS.split "-" s) as [|q qs]; [repeat constructor; exact Hc|].
      inversion IH; subst. constructor; [|assumption].
      constructor; assumption.
Qed.

Lemma trim_start_dash_free s : dash_free s → dash_free (JS.trim_start s).
Proof.
  induction s as [|c s IH]; intros H; cbn [JS.trim_start]; [exact H|].
  destruct (JS.is_whitespace c); [|exact H].
  apply IH. inversion H; assumption.
Qed.

Lemma parse_digits_nonneg s : ∀ acc z,
  (∀ a, acc = Some a → 0 ≤ a) → JS.parse_digits s acc = Some z → 0 ≤ z.
Proof.
  induction s as [|c s IH]; intros acc z Hacc; cbn [JS.parse_digits].
  - intros ->. eauto.
  - destruct (JS.digit_value c) as [d|] eqn:Ed; [|intros ->; eauto].
    apply IH. intros a [= <-].
    assert (0 ≤ d).
    { unfold JS.digit_value in Ed.
      destruct (_ && _) eqn:E; [|discriminate].
      injection Ed as <-. apply andb_true_iff in E as [E _]. lia. }
    assert (0 ≤ default 0 acc) by (destruct acc; cbn; [eauto | lia]).
    lia.
Qed.

Lemma parseInt_dash_free s z : dash_free s → JS.parseInt s = JS.Num z → 0 ≤ z.
Proof.
  intros H%trim_start_dash_free. unfold JS.parseInt.
  destruct (JS.trim_start s) as [|c r] eqn:E.
  - cbn. discriminate.
  - assert (c ≠ "-"%char) as Hc by (inversion H; assumption).
    assert (∀ t y, JS.parse_digits t None = Some y → 0 ≤ y) as Hd.
    { intros t y. apply parse_digits_nonneg. discriminate. }
    destruct c as [[] [] [] [] [] [] [] []];
      try (contradiction Hc; reflexivity);
      (destruct (JS.parse_digits _ None) eqn:Ep;
       [intros [= <-]; specialize (Hd _ _ Ep); lia | discriminate]).
Qed.

Lemma range_start_nonneg range s :
  range_start (range_parts range) = JS.Num s → 0 ≤ s.
Proof.
  unfold range_start, range_parts.
  pose proof (split_dash_free (JS.replace_first "bytes=" "" range)) as H.
  destruct (JS.split _ _) as [|p ps]; cbn [nth].
  - cbn. discriminate.
  - inversion H; subst. apply parseInt_dash_free. assumption.
Qed.

(** ** Decimal numerals: [parseInt] reads what [String] writes *)

Ltac eval_digit :=
  match goal with
  | |- context [JS.digit_value ?c] =>
      let v := eval vm_compute in (JS.digit_value c) in
      change (JS.digit_value c) with v
  end.

Lemma parse_digits_numeral d rest : ∀ acc,
  JS.parse_digits (NilEmpty.string_of_uint d ++ rest) (Some acc)
  = JS.parse_digits rest (Some (digits_value d acc)).
Proof.
  induction d; intros acc; cbn [NilEmpty.string_of_uint digits_value];
    try reflexivity;
    (change (String ?c ?s ++ rest) with (String c (s ++ rest));
     cbn [JS.parse_digits]; eval_digit; cbv iota beta;
     cbn [from_option Datatypes.id];
     rewrite IHd; repeat f_equal; lia).
Qed.

Lemma parse_digits_numeral_first d rest :
  d ≠ Decimal.Nil →
  JS.parse_digits (NilEmpty.string_of_uint d ++ rest) None
  = JS.parse_digits rest (Some (digits_value d 0)).
Proof.
  intros Hd. destruct d; [contradiction|..];
    cbn [NilEmpty.string_of_uint digits_value];
    (change (String ?c ?s ++ rest) with (String c (s ++ rest));
     cbn [JS.parse_digits]; eval_digit; cbv iota beta;
     cbn [from_option Datatypes.id];
     rewrite parse_digits_numeral; reflexivity).
Qed.

Lemma digits_value_acc d : ∀ acc,
  Z.pos (Pos.of_uint_acc d acc) = digits_value d (Z.pos acc).
Proof.
  induction d; intros acc; cbn [Pos.of_uint_acc digits_value];
    try reflexivity; rewrite IHd; f_equal; lia.
Qed.

Lemma digits_value_of_uint d : digits_value d 0 = Z.of_N (Pos.of_uint d).
Proof.
  induction d; cbn [Pos.of_uint digits_value]; try reflexivity;
    try exact IHd;
    (cbn [Z.of_N]; rewrite digits_value_acc; reflexivity).
Qed.

Lemma numeral_all_digits d : all_digits (NilEmpty.string_of_uint d).
Proof.
  unfold all_digits.
  induction d; cbn [NilEmpty.string_of_uint list_ascii_of_string];
    constructor; try exact IHd; cbv; eauto.
Qed.

(** The decimal rendering of a natural number, digit by digit. *)
Lemma dec_numeral z :
  0 ≤ z →
  ∃ d, JS.dec z = NilEmpty.string_of_uint d ∧ d ≠ Decimal.Nil
       ∧ digits_value d 0 = z.
Proof.
  intros Hz. unfold JS.dec. destruct z as [|p|p]; [| |lia].
  - exists (Decimal.D0 Decimal.Nil). repeat split. discriminate.
  - exists (Pos.to_uint p). cbn [Z.to_int NilZero.string_of_int].
    pose proof (DecimalPos.Unsigned.to_uint_nonnil p) as Hn.
    split; [|split; [exact Hn|]].
    + unfold NilZero.string_of_uint. destruct (Pos.to_uint p); congruence.
    + rewrite digits_value_of_uint, DecimalPos.Unsigned.of_to. reflexivity.
Qed.

Lemma dec_all_digits z : 0 ≤ z → all_digits (JS.dec z).
Proof.
  intros Hz. destruct (dec_numeral z Hz) as (d & -> & _).
  apply numeral_all_digits.
Qed.

Lemma dec_truthy z : 0 ≤ z → JS.truthy (JS.dec z) = true.
Proof.
  intros Hz. destruct (dec_numeral z Hz) as (d & -> & Hd & _).
  destruct d; [contradiction|..]; reflexivity.
Qed.

(** A digit is neither white space nor a sign. *)
Lemma digit_plain c :
  is_Some (JS.digit_value c) →
  JS.is_whitespace c = false ∧ c ≠ "-"%char ∧ c ≠ "+"%char.
Proof.
  intros [d Hd]. destruct c as [[] [] [] [] [] [] [] []];
    try discriminate Hd; repeat split; discriminate.
Qed.

(** [parseInt(String(z) + rest)] is [z] when [rest] does not go on with a
    digit. *)
Lemma parseInt_dec z rest :
  0 ≤ z →
  match rest with
  | EmptyString => True
  | String c _ => JS.digit_value c = None
  end →
  JS.parseInt (JS.dec z ++ rest) = JS.Num z.
Proof.
  intros Hz Hrest. destruct (dec_numeral z Hz) as (d & Hdec & Hd & Hval).
  pose proof (dec_all_digits z Hz) as Hall. rewrite Hdec in *.
  assert (JS.parse_digits (NilEmpty.string_of_uint d ++ rest) None = Some z)
    as Hparse.
  { rewrite parse_digits_numeral_first by exact Hd. rewrite Hval.
    destruct rest as [|c r]; [reflexivity|].
    cbn [JS.parse_digits]. rewrite Hrest. reflexivity. }
  unfold JS.parseInt.
  destruct (NilEmpty.string_of_uint d) as [|c s] eqn:Es.
  { destruct d; first [congruence | discriminate]. }
  unfold all_digits in Hall. cbn [list_ascii_of_string] in Hall.
  apply Forall_cons in Hall as [Hc _].
  destruct (digit_plain c Hc) as (Hw & Hm & Hp).
  change (String c s ++ rest) with (String c (s ++ rest)) in *.
  cbn [JS.trim_start]. rewrite Hw.
  assert (match String c (s ++ rest) with
          | String "-" r => (-1, r)
          | String "+" r => (1, r)
          | _ => (1, String c (s ++ rest))
          end = (1, String c (s ++ rest))) as ->.
  { destruct c as [[] [] [] [] [] [] [] []]; try reflexivity; exfalso;
      first [apply Hp; reflexivity | apply Hm; reflexivity]. }
  rewrite Hparse. f_equal. lia.
Qed.

Lemma append_empty_r (s : string) : s ++ "" = s.
Proof.
  induction s as [|c s IH]; [reflexivity|].
  change (String c s ++ "") with (String c (s ++ "")). rewrite IH. reflexivity.
Qed.

Lemma replace_bytes_prefix (s : string) :
  JS.replace_first "bytes=" "" ("bytes=" ++ s) = s.
Proof. destruct s; reflexivity. Qed.

Lemma split_digits_then_dash a b :
  all_digits a → JS.split "-" (a ++ String "-" b) = a :: JS.split "-" b.
Proof.
  unfold all_digits. induction a as [|c a IH]; intros Ha.
  - reflexivity.
  - cbn [list_ascii_of_string] in Ha. apply Forall_cons in Ha as [Hc Ha].
    destruct (digit_plain c Hc) as (_ & Hm & _).
    change (String c a ++ String "-" b) with (String c (a ++ String "-" b)).
    cbn [JS.split]. rewrite (IH Ha).
    destruct (Ascii.eqb_spec c "-"); [contradiction | reflexivity].
Qed.

Lemma split_digits a : all_digits a → JS.split "-" a = [a].
Proof.
  unfold all_digits. induction a as [|c a IH]; intros Ha.
  - reflexivity.
  - cbn [list_ascii_of_string] in Ha. apply Forall_cons in Ha as [Hc Ha].
    destruct (digit_plain c Hc) as (_ & Hm & _).
    cbn [JS.split]. rewrite (IH Ha).
    destruct (Ascii.eqb_spec c "-"); [contradiction | reflexivity].
Qed.

(** The header [bytes=s-e] is parsed back to [s] and [e]. *)
Lemma bytes_range_parsed s e total :
  0 ≤ s → 0 ≤ e →
  range_start (range_parts (bytes_range s e)) = JS.Num s
  ∧ range_end (range_parts (bytes_range s e)) total = JS.Num e.
Proof.
  intros Hs He.
  assert (range_parts (bytes_range s e) = [JS.dec s; JS.dec e]) as ->.
  { unfold range_parts, bytes_range. rewrite replace_bytes_prefix.
    change ("-" ++ JS.dec e) with (String "-" (JS.dec e)).
    rewrite split_digits_then_dash by (apply dec_all_digits; exact Hs).
    rewrite split_digits by (apply dec_all_digits; exact He). reflexivity. }
  unfold range_start, range_end. cbn [nth nth_error].
  rewrite (dec_truthy e He).
  rewrite <- (append_empty_r (JS.dec s)), <- (append_empty_r (JS.dec e)).
  rewrite !parseInt_dec by (exact I || assumption). auto.
Qed.

(** Every window [0 <= s <= e < T] of safe integers has a header that
    selects it: the
    answer to [Range: bytes=s-e] is 206 with [Content-Range: bytes s-e/T]
    and the [e - s + 1] bytes from offset [s]. *)
Corollary stream_window_206 cfg w id info p data now s e :
  videos w !! id = Some info →
  e_path info = Some p → JS.truthy p = true →
  Fs.content p (fs w) = Some data →
  persist_succeeds cfg w →
  0 ≤ s → s ≤ e → e < Z.of_nat (length data) →
  e ≤ JS.MAX_SAFE_INTEGER →
  let r := fst (route_stream cfg id (Some (bytes_range s e)) now w) in
  status r = 206
  ∧ header "Content-Range" (headers r)
    = Some ("bytes " ++ JS.dec s ++ "-" ++ JS.dec e ++ "/"
            ++ JS.dec (Z.of_nat (length data)))
  ∧ header "Content-Length" (headers r) = Some (JS.dec (e - s + 1))
  ∧ body r = Bytes (take (Z.to_nat (e - s + 1)) (drop (Z.to_nat s) data)).
Proof.
  intros Hv Hp Ht Hc Hok H0 Hse HeT Hmax. cbv zeta.
  destruct (bytes_range_parsed s e (Z.of_nat (length data))) as [Hs He];
    [lia | lia |].
  destruct (stream_cached cfg w id info p data (Some (bytes_range s e)) now)
    as (w' & Hr & _); try assumption.
  rewrite Hr. cbn [fst].
  rewrite (send_file_206 _ _ _ s e) by assumption.
  repeat split.
Qed.

(** C2.  A Range request against a cached file of size [T] whose parsed
    bounds satisfy [0 <= start <= end < T] is answered 206 with
    [Content-Range: bytes start-end/T], [Content-Length] equal to
    [end - start + 1] and [Accept-Ranges: bytes], the body being the
    [end - start + 1] bytes of the file from offset [start], as long as
    [persist()] does not throw, which it cannot in [video-proxy-server].
    In the mainframe server the same request is answered 500 when
    [videos.json] cannot be written: [persist()] is called unguarded
    before the [Range] header is read.  ([end < T] is a safe integer for
    every file whose size [stat.size] reports exactly.) *)
Theorem stream_valid_range_206 cfg w id info p data range now s e :
  videos w !! id = Some info →
  e_path info = Some p → JS.truthy p = true →
  Fs.content p (fs w) = Some data →
  range_start (range_parts range) = JS.Num s →
  range_end (range_parts range) (Z.of_nat (length data)) = JS.Num e →
  0 ≤ s → s ≤ e → e < Z.of_nat (length data) →
  e ≤ JS.MAX_SAFE_INTEGER →
  let r := fst (route_stream cfg id (Some range) now w) in
  (persist_succeeds cfg w →
   status r = 206
   ∧ header "Content-Range" (headers r)
     = Some ("bytes " ++ JS.dec s ++ "-" ++ JS.dec e ++ "/"
             ++ JS.dec (Z.of_nat (length data)))
   ∧ header "Content-Length" (headers r) = Some (JS.dec (e - s + 1))
   ∧ header "Accept-Ranges" (headers r) = Some "bytes"
   ∧ body r = Bytes (take (Z.to_nat (e - s + 1)) (drop (Z.to_nat s) data))
   ∧ Z.of_nat (length (take (Z.to_nat (e - s + 1)) (drop (Z.to_nat s) data)))
     = e - s + 1)
  ∧ (variant cfg = MainframeServer → disk_ok w = false → status r = 500).
Proof.
  intros Hv Hp Ht Hc Hs He H0 Hse HeT Hmax. cbv zeta. split.
  - intros Hok.
    destruct (stream_cached cfg w id info p data (Some range) now)
      as (w' & Hr & _); try assumption.
    rewrite Hr. cbn [fst].
    rewrite (send_file_206 _ _ _ s e) by assumption.
    cbn [status headers body].
    repeat split.
    rewrite length_take, length_drop. lia.
  - intros Hm Hd.
    apply (stream_cached_write_fails cfg w id info p data (Some range) now);
      assumption.
Qed.

Lemma stream_valid_range_206_witness :
  let cfg := sample_config MainframeServer in
  let w := sample_world MainframeServer in
  let r := fst (route_stream cfg sample_id (Some "bytes=2-4")
                             1700013950000 w) in
  let r' := fst (route_stream cfg sample_id (Some "bytes=2-4")
                              1700013950000 (set_disk_ok false w)) in
  (status r = 206
   ∧ header "Content-Range" (headers r) = Some "bytes 2-4/11"
   ∧ header "Content-Length" (headers r) = Some "3"
   ∧ header "Accept-Ranges" (headers r) = Some "bytes"
   ∧ body r = Bytes (bytes_of "llo"))
  ∧ status r' = 500.
Proof.
  intros cfg w r r'. split.
  - destruct (stream_valid_range_206 cfg w sample_id sample_entry
                "/data/e482ef9a1c39" (bytes_of "hello world") "bytes=2-4"
                1700013950000 2 4)
      as [H _];
      [vm_compute; reflexivity | reflexivity | reflexivity
       | vm_compute; reflexivity | reflexivity | reflexivity
       | lia | lia | vm_compute; reflexivity | vm_compute; discriminate |].
    destruct H as (H1 & H2 & H3 & H4 & H5 & _);
      [intros _; vm_compute; reflexivity|].
    exact (conj H1 (conj H2 (conj H3 (conj H4 H5)))).
  - destruct (stream_valid_range_206 cfg (set_disk_ok false w) sample_id
                sample_entry "/data/e482ef9a1c39" (bytes_of "hello world")
                "bytes=2-4" 1700013950000 2 4)
      as [_ H];
      [vm_compute; reflexivity | reflexivity | reflexivity
       | vm_compute; reflexivity | reflexivity | reflexivity
       | lia | lia | vm_compute; reflexivity | vm_compute; discriminate |].
    apply H; reflexivity.
Defined.
(** C9, as the code has it.  When the parsed bounds satisfy
    [start <= end] and [start < T] but [end >= T], and [persist()] does
    not throw: for [end] up to [Number.MAX_SAFE_INTEGER] the answer is 206
    and declares [Content-Range: bytes start-end/T] and [Content-Length]
    equal to [end - start + 1], while the body holds only the [T - start]
    bytes that exist from [start], so [end] is not clamped; beyond that
    bound, for every [end] that is a finite Number,
    [fs.createReadStream] throws after the head is written and the
    client gets no response at all. *)
Theorem stream_end_beyond_size_unclamped cfg w id info p data range now s e :
  videos w !! id = Some info →
  e_path info = Some p → JS.truthy p = true →
  Fs.content p (fs w) = Some data →
  persist_succeeds cfg w →
  range_start (range_parts range) = JS.Num s →
  range_end (range_parts range) (Z.of_nat (length data)) = JS.Num e →
  s ≤ e → s < Z.of_nat (length data) → Z.of_nat (length data) ≤ e →
  let T := Z.of_nat (length data) in
  let r := fst (route_stream cfg id (Some range) now w) in
  (e ≤ JS.MAX_SAFE_INTEGER →
   status r = 206
   ∧ header "Content-Range" (headers r)
     = Some ("bytes " ++ JS.dec s ++ "-" ++ JS.dec e ++ "/" ++ JS.dec T)
   ∧ header "Content-Length" (headers r) = Some (JS.dec (e - s + 1))
   ∧ body r = Bytes (drop (Z.to_nat s) data)
   ∧ Z.of_nat (length (drop (Z.to_nat s) data)) = T - s
   ∧ T - s < e - s + 1)
  ∧ (JS.MAX_SAFE_INTEGER < e → e ≤ JS.MAX_VALUE → r = no_response).
Proof.
  intros Hv Hp Ht Hc Hok Hs He Hse HsT HTe. cbv zeta.
  pose proof (range_start_nonneg _ _ Hs) as H0.
  destruct (stream_cached cfg w id info p data (Some range) now)
    as (w' & Hr & _); try assumption.
  rewrite Hr. cbn [fst]. split.
  - intros Hmax.
    rewrite (send_file_206 _ _ _ s e) by assumption.
    cbn [status headers body].
    split; [reflexivity|]. split; [reflexivity|]. split; [reflexivity|].
    split; [|split].
    + unfold Fs.read_range. rewrite take_ge; [reflexivity|].
      rewrite length_drop. lia.
    + rewrite length_drop. lia.
    + lia.
  - intros Hmax _. apply (send_file_no_response _ _ _ s e); assumption.
Qed.

Lemma stream_end_beyond_size_unclamped_witness :
  let r := fst (route_stream (sample_config VideoProxyServer) sample_id
                             (Some "bytes=2-400") 1700013950000
                             (sample_world VideoProxyServer)) in
  status r = 206
  ∧ header "Content-Range" (headers r) = Some "bytes 2-400/11"
  ∧ header "Content-Length" (headers r) = Some "399"
  ∧ body r = Bytes (bytes_of "llo world").
Proof.
  intro r.
  destruct (stream_end_beyond_size_unclamped (sample_config VideoProxyServer)
              (sample_world VideoProxyServer) sample_id sample_entry
              "/data/e482ef9a1c39" (bytes_of "hello world") "bytes=2-400"
              1700013950000 2 400)
    as [H _];
    [vm_compute; reflexivity | reflexivity | reflexivity
     | vm_compute; reflexivity | intros [=]
     | reflexivity | reflexivity | lia | vm_compute; reflexivity
     | vm_compute; discriminate |].
  destruct H as (H1 & H2 & H3 & H4 & _); [vm_compute; discriminate|].
  exact (conj H1 (conj H2 (conj H3 H4))).
Defined.

(** C9 as stated fails in both servers. *)
Lemma stream_end_unsafe_counterexample :
  end_beyond_safe_integers VideoProxyServer
  ∧ end_beyond_safe_integers MainframeServer.
Proof.
  split; vm_compute; repeat split; try discriminate; try reflexivity.
Qed.

(** C1, as the code has it.  For a Range header sent for a cached file of
    size [T]: if [parseInt] gives [NaN] for a bound, or [start > end]
    (with [end = T - 1] when the header gives none, so in particular when
    no end is given and [start >= T]), the answer is 416 with the body
    ["Requested Range Not Satisfiable"].  Two parsed bounds are compared
    below [Number.MAX_SAFE_INTEGER], where JavaScript numbers are exact. *)
Theorem stream_unsatisfiable_range_416 cfg w id info p data range now :
  videos w !! id = Some info →
  e_path info = Some p → JS.truthy p = true →
  Fs.content p (fs w) = Some data →
  persist_succeeds cfg w →
  JS.truthy range = true →
  let T := Z.of_nat (length data) in
  let start := range_start (range_parts range) in
  let end_ := range_end (range_parts range) T in
  (JS.isNaN start = true ∨ JS.isNaN end_ = true
   ∨ (∃ s e, start = JS.Num s ∧ end_ = JS.Num e ∧ e < s
             ∧ s ≤ JS.MAX_SAFE_INTEGER)
   ∨ (∃ s, start = JS.Num s ∧ T ≤ s
           ∧ JS.truthy_opt (nth_error (range_parts range) 1) = false)) →
  fst (route_stream cfg id (Some range) now w)
  = mkResponse 416 [] (Text "Requested Range Not Satisfiable").
Proof.
  intros Hv Hp Ht Hc Hok Hr. cbv zeta. intros H.
  destruct (stream_cached cfg w id info p data (Some range) now)
    as (w' & -> & _); try assumption.
  cbn [fst]. apply send_file_416; [assumption|].
  destruct H as [H | [H | [(s & e & -> & -> & H & _) | (s & Hs & HT & Hn)]]].
  - destruct (range_start _); [reflexivity | discriminate].
  - destruct (range_start _), (range_end _ _); try reflexivity; discriminate.
  - cbn. apply Z.ltb_lt. assumption.
  - rewrite Hs. unfold range_end.
    destruct (nth_error (range_parts range) 1) as [q|];
      [cbn in Hn; rewrite Hn|]; cbn; apply Z.ltb_lt; lia.
Qed.

Lemma stream_unsatisfiable_range_416_witness :
  fst (route_stream (sample_config MainframeServer) sample_id
                    (Some "bytes=20-") 1700013950000
                    (sample_world MainframeServer))
  = mkResponse 416 [] (Text "Requested Range Not Satisfiable").
Proof.
  apply (stream_unsatisfiable_range_416 (sample_config MainframeServer)
           (sample_world MainframeServer) sample_id
           (mkEntry sample_id (Some sample_url) ready
                    (Some "/data/e482ef9a1c39") (Some 11)
                    (Some 1700013942250) (Some 1700013943000) None)
           "/data/e482ef9a1c39" (bytes_of "hello world") "bytes=20-"
           1700013950000);
    [vm_compute; reflexivity | reflexivity | reflexivity
     | vm_compute; reflexivity | intros _; vm_compute; reflexivity
     | reflexivity |].
  right; right; right. exists 20.
  split; [reflexivity | split; [vm_compute; discriminate | reflexivity]].
Defined.

(** C1 as stated fails in both servers. *)
Lemma stream_range_416_counterexample :
  range_416_rule_broken VideoProxyServer
  ∧ range_416_rule_broken MainframeServer.
Proof.
  split; vm_compute; repeat split; try discriminate; try reflexivity.
Qed.

(** ** [/stream/:id]: what is not cached *)

Lemma send_file_status range total data :
  status (send_file range total data) = 200
  ∨ status (send_file range total data) = 206
  ∨ status (send_file range total data) = 416
  ∨ send_file range total data = no_response.
Proof.
  unfold send_file. destruct (JS.truthy_opt range); [|auto].
  destruct (range_start _); [auto|].
  destruct (range_end _ _); [auto|].
  destruct (_ <? _); [auto|].
  destruct (_ <? _); auto.
Qed.

Lemma exists_content p fs0 :
  Fs.existsSync p fs0 = true → ∃ data, Fs.content p fs0 = Some data.
Proof.
  unfold Fs.existsSync, Fs.content. intros [i Hi]%bool_decide_eq_true.
  rewrite Hi. cbn. eauto.
Qed.

(** The three outcomes of the handler. *)
Lemma route_stream_cases cfg w id range now :
  let r := fst (route_stream cfg id range now w) in
  (r = json_error 404 "not cached"
   ∧ (videos w !! id = None
      ∨ ∃ info, videos w !! id = Some info
                ∧ (JS.truthy_opt (e_path info) = false
                   ∨ Fs.existsSync (default "" (e_path info)) (fs w) = false)))
  ∨ (status r ≠ 404
     ∧ ∃ info, videos w !! id = Some info
               ∧ JS.truthy_opt (e_path info) = true
               ∧ Fs.existsSync (default "" (e_path info)) (fs w) = true).
Proof.
  cbv zeta. unfold route_stream, stream, bind, get.
  destruct (videos w !! id) as [info|] eqn:Hv; [|left; cbn; auto].
  destruct (JS.truthy_opt (e_path info)) eqn:Hp;
    [|left; cbn; split; [reflexivity | right; eauto]].
  destruct (Fs.existsSync _ (fs w)) eqn:He;
    [|left; cbn; split; [reflexivity | right; eauto]].
  right. split; [|eauto]. cbn [negb orb].
  destruct (exists_content _ _ He) as [data Hc].
  unfold lift_res, Fs.statSync_size. rewrite Hc. unfold modify.
  destruct (persist cfg _) as [[[]|e] w'].
  - unfold ret. cbn [fst].
    destruct (send_file_status range (Z.of_nat (length data))
                 (default [] (Some data))) as [H | [H | [H | H]]];
      rewrite H; discriminate.
  - cbn. discriminate.
Qed.

Lemma persist_videos cfg w r w' :
  persist cfg w = (r, w') →
  videos w' = videos w ∧ fs w' = fs w ∧ tasks w' = tasks w
  ∧ disk_ok w' = disk_ok w.
Proof.
  unfold persist, try_catch, writeMetadata, console_log, modify.
  destruct (variant cfg), (disk_ok w) eqn:E; intros [= <- <-]; cbn; auto.
Qed.

(** An accepted [/add] stores a fresh record under the generated id. *)
Lemma add_accepted cfg url t t' w r w' :
  add cfg (Some url) t t' w = (Ok r, w') → status r = 200 →
  r = mkResponse 200 [] (Json [("id", genId url t); ("status", "downloading")])
  ∧ videos w' = <[genId url t := new_entry url (genId url t) t']> (videos w).
Proof.
  unfold add. cbn [JS.truthy_opt from_option Datatypes.id].
  destruct (JS.truthy url); cbn [negb];
    [|unfold ret; intros [= <- <-]; discriminate].
  destruct (parses_as_URL cfg url); cbn [negb];
    [|unfold ret; intros [= <- <-]; discriminate].
  unfold bind, modify.
  destruct (persist cfg _) as [[[]|e] w1] eqn:Epers; [|discriminate].
  apply persist_videos in Epers as (Hv1 & _).
  unfold download_start, bind, createWriteStream, ret, modify.
  destruct (variant cfg).
  - destruct (Fs.open_w _ _). intros [= <- <-] _. split; [reflexivity|].
    cbn. exact Hv1.
  - intros [= <- <-] _. split; [reflexivity|]. cbn. exact Hv1.
Qed.

(** An id that is not in [videos] is answered 404. *)
Lemma stream_absent_404 cfg w id range now :
  videos w !! id = None →
  fst (route_stream cfg id range now w) = json_error 404 "not cached".
Proof.
  intros Hn. unfold route_stream, stream, bind, get. rewrite Hn. reflexivity.
Qed.

(** The 404 answer characterised, with the two cases that need no
    assumption on the history: an absent id, and the id of the entry an
    accepted [/add] has just stored. *)
Lemma stream_not_cached_cases cfg w id range now :
  let r := fst (route_stream cfg id range now w) in
  ((status r = 404 ∧ body r = Json [("error", "not cached")])
   ↔ (videos w !! id = None
      ∨ (∃ info, videos w !! id = Some info
                 ∧ JS.truthy_opt (e_path info) = false)
      ∨ (∃ info, videos w !! id = Some info
                 ∧ Fs.existsSync (default "" (e_path info)) (fs w) = false)))
  ∧ (videos w !! id = None → r = json_error 404 "not cached")
  ∧ (∀ url t t' w0 answer,
        step cfg (GetAdd (Some url) t t') w0 = (Some answer, w) →
        status answer = 200 → id = genId url t →
        r = json_error 404 "not cached").
Proof.
  cbv zeta.
  pose proof (route_stream_cases cfg w id range now) as H. cbv zeta in H.
  assert (∀ info, videos w !! id = Some info → e_path info = None →
                  fst (route_stream cfg id range now w)
                  = json_error 404 "not cached") as Hnone.
  { intros info Hv Hp.
    destruct H as [[-> _] | (_ & info' & Hv' & Ht & _)]; [reflexivity|].
    rewrite Hv in Hv'. injection Hv' as <-. rewrite Hp in Ht. discriminate. }
  split; [split|split].
  - intros [Hs _].
    destruct H as [[_ [Hn | (info & Hv & [Hp | He])]] | [Hne _]]; eauto 6.
    contradiction.
  - intros Hcase.
    destruct H as [[-> _] | (_ & info & Hv & Hp & He)]; [split; reflexivity|].
    destruct Hcase as [Hn | [(i & Hi & Hf) | (i & Hi & Hf)]];
      rewrite Hv in *; try discriminate;
      injection Hi as <-; congruence.
  - intros Hn.
    destruct H as [[-> _] | (_ & info & Hv & _)]; [reflexivity | congruence].
  - intros url t t' w0 answer Hstep Hst ->.
    cbn [step] in Hstep.
    destruct (add cfg (Some url) t t' w0) as [[resp|e] w1] eqn:Eadd;
      [|discriminate].
    injection Hstep as -> ->.
    apply add_accepted in Eadd as [_ Hvid]; [|assumption].
    eapply Hnone; [rewrite Hvid; apply lookup_insert_eq | reflexivity].
Qed.

(** ** The cleanup task *)

Lemma sweep_entry_videos cfg now w k info id :
  videos (sweep_entry cfg now w (k, info)) !! id
  = if decide (k = id ∧ expired cfg now info = true) then None
    else videos w !! id.
Proof.
  unfold sweep_entry, expired.
  destruct (JS.truthy_opt (e_path info)); cbn [negb andb];
    [|case_decide as H; [destruct H; discriminate | reflexivity]].
  destruct (_ <? _); [|case_decide as H; [destruct H; discriminate | reflexivity]].
  assert (∀ w1, videos (add_console ("Deleted " ++ k) (set_videos (delete k) w1))
                = delete k (videos w1)) as Hd by reflexivity.
  rewrite Hd.
  assert (videos match Fs.unlinkSync (default "" (e_path info)) (fs w) with
                 | Ok fs' => set_fs (λ _, fs') w
                 | Throw _ => w
                 end = videos w) as -> by (destruct (Fs.unlinkSync _ _); reflexivity).
  case_decide as H.
  - destruct H as [-> _]. apply lookup_delete_eq.
  - apply lookup_delete_ne. intros ->. apply H. auto.
Qed.

Lemma sweep_loop_gone cfg now l : ∀ w id,
  videos w !! id = None → videos (foldl (sweep_entry cfg now) w l) !! id = None.
Proof.
  induction l as [|[k info] l IH]; intros w id H; cbn [foldl]; [exact H|].
  apply IH. rewrite sweep_entry_videos. case_decide; auto.
Qed.

Lemma sweep_loop_removes cfg now l : ∀ w id info,
  (id, info) ∈ l → expired cfg now info = true →
  videos (foldl (sweep_entry cfg now) w l) !! id = None.
Proof.
  induction l as [|[k i] l IH]; intros w id info Hin Hex; [inversion Hin|].
  cbn [foldl]. apply elem_of_cons in Hin as [[= <- <-] | Hin].
  - apply sweep_loop_gone. rewrite sweep_entry_videos.
    rewrite decide_True; auto.
  - eapply IH; eassumption.
Qed.

Lemma sweep_loop_keeps cfg now l : ∀ w id,
  (∀ info, (id, info) ∈ l → expired cfg now info = false) →
  videos (foldl (sweep_entry cfg now) w l) !! id = videos w !! id.
Proof.
  induction l as [|[k i] l IH]; intros w id H; [reflexivity|].
  cbn [foldl]. rewrite IH.
  - rewrite sweep_entry_videos. case_decide as Hd; [|reflexivity].
    destruct Hd as [-> Hd]. rewrite (H i) in Hd; [discriminate|].
    apply elem_of_cons. auto.
  - intros info Hin. apply H. apply elem_of_cons. auto.
Qed.

Lemma sweep_entry_names cfg now w kv p :
  names (fs w) !! p = None → names (fs (sweep_entry cfg now w kv)) !! p = None.
Proof.
  destruct kv as [k info]. unfold sweep_entry.
  destruct (negb _); [auto|]. destruct (_ <? _); [|auto].
  intros H. cbn. unfold Fs.unlinkSync.
  destruct (names (fs w) !! default "" (e_path info)); [|exact H].
  case_decide; [exact H|]. cbn.
  destruct (decide (default "" (e_path info) = p)) as [->|Hne].
  - apply lookup_delete_eq.
  - rewrite lookup_delete_ne; assumption.
Qed.

Lemma sweep_entry_undeletable cfg now w kv :
  undeletable (fs (sweep_entry cfg now w kv)) = undeletable (fs w).
Proof.
  destruct kv as [k info]. unfold sweep_entry.
  destruct (negb _); [auto|]. destruct (_ <? _); [|auto].
  cbn. unfold Fs.unlinkSync.
  destruct (names (fs w) !! _); [|reflexivity].
  case_decide; reflexivity.
Qed.

Lemma sweep_loop_names cfg now l : ∀ w p,
  names (fs w) !! p = None →
  names (fs (foldl (sweep_entry cfg now) w l)) !! p = None.
Proof.
  induction l as [|kv l IH]; intros w p H; cbn [foldl]; [exact H|].
  apply IH. apply sweep_entry_names. exact H.
Qed.

Lemma sweep_loop_unlinks cfg now l : ∀ w id info p,
  (id, info) ∈ l → expired cfg now info = true → e_path info = Some p →
  p ∉ undeletable (fs w) →
  names (fs (foldl (sweep_entry cfg now) w l)) !! p = None.
Proof.
  induction l as [|[k i] l IH]; intros w id info p Hin Hex Hp Hu;
    [inversion Hin|].
  cbn [foldl]. apply elem_of_cons in Hin as [[= <- <-] | Hin].
  - apply sweep_loop_names. unfold sweep_entry.
    unfold expired in Hex. apply andb_true_iff in Hex as [Ht Hlt].
    rewrite Ht, Hlt, Hp. cbn. unfold Fs.unlinkSync.
    destruct (names (fs w) !! p) eqn:E; [|exact E].
    rewrite decide_False by assumption. cbn. apply lookup_delete_eq.
  - eapply IH; try eassumption. rewrite sweep_entry_undeletable. exact Hu.
Qed.

Lemma sweep_videos cfg now w id :
  videos (snd (sweep cfg now w)) !! id
  = match videos w !! id with
    | Some info => if expired cfg now info then None else Some info
    | None => None
    end.
Proof.
  unfold sweep, bind, get, modify. cbv beta iota.
  destruct (persist cfg _) as [r w'] eqn:E.
  apply persist_videos in E as (Hv & _).
  cbn [snd]. rewrite Hv.
  destruct (videos w !! id) as [info|] eqn:Hl.
  - destruct (expired cfg now info) eqn:Hex.
    + eapply sweep_loop_removes; [|exact Hex].
      apply elem_of_map_to_list. exact Hl.
    + rewrite sweep_loop_keeps; [exact Hl|].
      intros i Hi%elem_of_map_to_list. congruence.
  - apply sweep_loop_gone. exact Hl.
Qed.

Lemma sweep_unlinks cfg now w id info p :
  videos w !! id = Some info → expired cfg now info = true →
  e_path info = Some p → p ∉ undeletable (fs w) →
  Fs.existsSync p (fs (snd (sweep cfg now w))) = false.
Proof.
  intros Hl Hex Hp Hu. unfold sweep, bind, get, modify. cbv beta iota.
  destruct (persist cfg _) as [r w'] eqn:E.
  apply persist_videos in E as (_ & Hfs & _).
  cbn [snd]. rewrite Hfs. unfold Fs.existsSync. apply bool_decide_eq_false.
  erewrite sweep_loop_unlinks; try eassumption.
  - intros [? [=]].
  - apply elem_of_map_to_list. exact Hl.
Qed.

(** C7.  A sweep at time [now] removes every entry with a [path] whose
    [lastAccess || addedAt || 0] lies more than the inactivity threshold
    before [now]; its file is unlinked, and when [unlinkSync] throws the
    exception is swallowed and the entry is removed all the same, so that
    [/stream/:id] answers 404 afterwards. *)
Theorem sweep_evicts_inactive cfg w now id info p :
  videos w !! id = Some info →
  e_path info = Some p → JS.truthy p = true →
  INACTIVITY_MS cfg < now - last_seen info →
  let w' := snd (sweep cfg now w) in
  videos w' !! id = None
  ∧ (p ∉ undeletable (fs w) → Fs.existsSync p (fs w') = false)
  ∧ (∀ range now',
        fst (route_stream cfg id range now' w') = json_error 404 "not cached").
Proof.
  intros Hv Hp Ht Hlt. cbv zeta.
  assert (expired cfg now info = true) as Hex.
  { unfold expired. rewrite Hp. cbn. rewrite Ht. apply Z.ltb_lt. exact Hlt. }
  assert (videos (snd (sweep cfg now w)) !! id = None) as Hgone.
  { rewrite sweep_videos, Hv, Hex. reflexivity. }
  split; [exact Hgone|]. split.
  - intros Hu. eapply sweep_unlinks; eassumption.
  - intros range now'.
    apply (stream_absent_404 cfg _ id range now'). exact Hgone.
Qed.

Lemma sweep_evicts_inactive_witness :
  let w' := snd (sweep (sample_config MainframeServer) 1700017543001
                       (sample_world MainframeServer)) in
  videos w' !! sample_id = None
  ∧ Fs.existsSync "/data/e482ef9a1c39" (fs w') = false
  ∧ fst (route_stream (sample_config MainframeServer) sample_id None
                      1700017543002 w')
    = json_error 404 "not cached".
Proof.
  intro w'.
  destruct (sweep_evicts_inactive (sample_config MainframeServer)
              (sample_world MainframeServer) 1700017543001 sample_id
              sample_entry "/data/e482ef9a1c39")
    as (H1 & H2 & H3);
    [vm_compute; reflexivity | reflexivity | reflexivity
     | vm_compute; reflexivity |].
  split; [exact H1|]. split; [|apply H3].
  apply H2. vm_compute. intros [=].
Defined.

(** A failing [unlinkSync] is swallowed: the file stays, the entry goes. *)
Example sweep_swallows_unlink_failure :
  let w' := snd (sweep (sample_config VideoProxyServer) 1700017543001
                       (sample_world_protected VideoProxyServer)) in
  Fs.existsSync "/data/e482ef9a1c39" (fs w') = true
  ∧ videos w' !! sample_id = None
  ∧ status (fst (route_stream (sample_config VideoProxyServer) sample_id None
                              1700017543002 w')) = 404.
Proof. vm_compute. repeat split. Qed.

(** One minute before the threshold the entry is kept. *)
Example sweep_keeps_recent :
  videos (snd (sweep (sample_config VideoProxyServer) 1700017543000
                     (sample_world VideoProxyServer))) !! sample_id
  = Some sample_entry.
Proof. vm_compute. reflexivity. Qed.

(** C10.  The sweeper never removes an entry whose [path] is missing:
    whatever the times of the sweeps, an entry in status [downloading] or
    [error] without a [path] is still in [videos], unchanged. *)
Theorem sweep_never_removes_pathless cfg w id info (nows : list Z) :
  videos w !! id = Some info →
  JS.truthy_opt (e_path info) = false →
  videos (exec cfg (map Cleanup nows) w) !! id = Some info.
Proof.
  revert w. induction nows as [|now nows IH]; intros w Hv Hp; [exact Hv|].
  change (exec cfg (map Cleanup (now :: nows)) w)
    with (exec cfg (map Cleanup nows) (snd (sweep cfg now w))).
  apply IH; [|exact Hp].
  rewrite sweep_videos, Hv. unfold expired. rewrite Hp. reflexivity.
Qed.

Lemma sweep_never_removes_pathless_witness :
  let w := exec (sample_config VideoProxyServer) sample_failed initial_world in
  ∃ info, videos w !! sample_id = Some info
          ∧ e_status info = error ∧ e_path info = None
          ∧ videos (exec (sample_config VideoProxyServer)
                         (map Cleanup [1800000000000; 1900000000000]) w)
            !! sample_id = Some info.
Proof.
  intro w.
  exists (mkEntry sample_id (Some sample_url) error None None
                  (Some 1700013942250) None (Some "connect ECONNREFUSED")).
  split; [vm_compute; reflexivity|]. split; [reflexivity|].
  split; [reflexivity|].
  apply (sweep_never_removes_pathless (sample_config VideoProxyServer) w);
    [vm_compute; reflexivity | reflexivity].
Defined.

(** ** [/stream-proxy] *)

(** C8, as the code has it.  When the origin answers 206 with a non-empty
    [Content-Range] header, [/stream-proxy] answers 206 with a
    [Content-Range] header of the same value. *)
Theorem proxy_relays_content_range cfg url range origin up cr :
  JS.truthy url = true → parses_as_URL cfg url = true →
  origin url (forwarded_range range) = Ok up →
  up_status up = 206 →
  header "content-range" (up_headers up) = Some cr →
  JS.truthy cr = true →
  let r := stream_proxy cfg (Some url) range origin in
  status r = 206 ∧ header "Content-Range" (headers r) = Some cr.
Proof.
  intros Hu Hp Ho Hs Hh Hc. cbv zeta. unfold stream_proxy.
  cbn [JS.truthy_opt from_option Datatypes.id]. rewrite Hu, Hp. cbn [negb].
  unfold forwarded_range in Ho. rewrite Ho, Hs, Hh.
  cbn [JS.truthy_opt from_option Datatypes.id]. rewrite Hc.
  assert (match variant cfg with
          | VideoProxyServer => 400 <=? 206
          | MainframeServer => negb (status_ok 206)
          end = false) as -> by (destruct (variant cfg); reflexivity).
  cbn [Z.eqb Pos.eqb status headers]. split; reflexivity.
Qed.

Lemma proxy_relays_content_range_witness :
  let r := stream_proxy (sample_config MainframeServer) (Some sample_url)
                        (Some "bytes=0-10") (sample_origin "bytes 0-10/11") in
  status r = 206 ∧ header "Content-Range" (headers r) = Some "bytes 0-10/11".
Proof.
  apply (proxy_relays_content_range (sample_config MainframeServer) sample_url
           (Some "bytes=0-10") (sample_origin "bytes 0-10/11")
           (mkUpstream 206 [("content-range", "bytes 0-10/11");
                            ("content-length", "11")]
                       (bytes_of "hello world"))
           "bytes 0-10/11"); reflexivity.
Defined.

(** C8 as stated fails in both servers. *)
Lemma proxy_content_range_counterexample :
  content_range_relay_broken VideoProxyServer
  ∧ content_range_relay_broken MainframeServer.
Proof. split; vm_compute; repeat split. Qed.

(** ** [/add] and [genId] *)




(** ** [persist] and a failing write *)

(** In [video-proxy-server] a failing write is caught and logged. *)
Lemma persist_failure_logged cfg w :
  variant cfg = VideoProxyServer → disk_ok w = false →
  persist cfg w
  = (Ok tt,
     add_console
       "persist error Error: EACCES: permission denied, open 'videos.json'" w).
Proof.
  intros Hv Hd. unfold persist, try_catch, writeMetadata. rewrite Hv, Hd.
  reflexivity.
Qed.

(** In the mainframe server it propagates to the caller. *)
Lemma persist_failure_thrown cfg w :
  variant cfg = MainframeServer → disk_ok w = false →
  persist cfg w
  = (Throw (Error "EACCES: permission denied, open 'videos.json'"), w).
Proof.
  intros Hv Hd. unfold persist, writeMetadata. rewrite Hv, Hd. reflexivity.
Qed.

(** C5 fails in the mainframe server, whose [persist] has no [try].
    When the write fails as a download finishes, the [catch] block of
    [downloadFull] turns the entry, already set to [ready], into [error];
    and a request for a cached file is answered 500.  In
    [video-proxy-server] the same failure changes neither. *)
Theorem persist_failure_alters_memory_in_mainframe :
  (finish_with_disk MainframeServer true = Some (ready, None)
   ∧ finish_with_disk MainframeServer false
     = Some (error,
             Some "Error: EACCES: permission denied, open 'videos.json'"))
  ∧ (stream_with_disk MainframeServer true = 200
     ∧ stream_with_disk MainframeServer false = 500)
  ∧ (finish_with_disk VideoProxyServer true = Some (ready, None)
     ∧ finish_with_disk VideoProxyServer false = Some (ready, None)
     ∧ stream_with_disk VideoProxyServer true = 200
     ∧ stream_with_disk VideoProxyServer false = 200).
Proof. vm_compute. repeat split. Qed.

(** ** [video-proxy-server] does not depend on the fate of [persist] *)

Lemma oblivious_ret {A} (a : A) : oblivious (ret a).
Proof. intros w w' H. auto. Qed.

Lemma oblivious_throw {A} e : oblivious (@throw A e).
Proof. intros w w' H. auto. Qed.

Lemma oblivious_lift_res {A} (r : Res A) : oblivious (lift_res r).
Proof. intros w w' H. auto. Qed.

Lemma oblivious_bind {A B} (m : M A) (k : A → M B) :
  oblivious m → (∀ a, oblivious (k a)) → oblivious (bind m k).
Proof.
  intros Hm Hk w w' H. unfold bind. destruct (Hm w w' H) as [Hr Hs].
  destruct (m w) as [[a|e] w1], (m w') as [[a'|e'] w1']; cbn [fst snd] in *;
    try discriminate Hr.
  - injection Hr as <-. apply Hk. exact Hs.
  - injection Hr as <-. auto.
Qed.

Lemma oblivious_try_catch {A} (m : M A) h :
  oblivious m → (∀ e, oblivious (h e)) → oblivious (try_catch m h).
Proof.
  intros Hm Hh w w' H. unfold try_catch. destruct (Hm w w' H) as [Hr Hs].
  destruct (m w) as [[a|e] w1], (m w') as [[a'|e'] w1']; cbn [fst snd] in *;
    try discriminate Hr.
  - cbn [fst snd]. auto.
  - injection Hr as <-. apply Hh. exact Hs.
Qed.

Lemma oblivious_modify f :
  (∀ w w', same_memory w w' → same_memory (f w) (f w')) →
  oblivious (modify f).
Proof. intros Hf w w' H. split; [reflexivity | apply Hf; exact H]. Qed.

(** A continuation of [get] may look at the memory only. *)
Lemma oblivious_get {A} (k : World → M A) :
  (∀ w1 w2, same_memory w1 w2 → ∀ w, k w1 w = k w2 w) →
  (∀ w0, oblivious (k w0)) →
  oblivious (bind get k).
Proof.
  intros Hdep Hk w w' H. unfold bind, get.
  rewrite (Hdep w w' H w). apply Hk. exact H.
Qed.

Ltac memory_only :=
  let Hv := fresh in let Hf := fresh in let Ht := fresh in
  intros ? ? (Hv & Hf & Ht) ?; cbv beta; rewrite ?Hv, ?Hf, ?Ht; reflexivity.

Ltac same_memory_modify :=
  let Hv := fresh in let Hf := fresh in let Ht := fresh in
  intros ? ? (Hv & Hf & Ht); unfold same_memory; cbn;
  rewrite ?Hv, ?Hf, ?Ht; auto.

Lemma oblivious_console_log line : oblivious (console_log line).
Proof. apply oblivious_modify. same_memory_modify. Qed.

(** In [video-proxy-server], [persist] returns normally and leaves the
    memory alone, whether the write succeeds or not. *)
Lemma oblivious_persist cfg :
  variant cfg = VideoProxyServer → oblivious (persist cfg).
Proof.
  intros Hv w w' (H1 & H2 & H3).
  unfold persist, try_catch, writeMetadata, console_log, modify. rewrite Hv.
  destruct (disk_ok w), (disk_ok w'); cbn; unfold same_memory; cbn; auto.
Qed.

Lemma oblivious_assign id prop f : oblivious (assign id prop f).
Proof.
  unfold assign. apply oblivious_get; [memory_only|]. intros w0.
  destruct (videos w0 !! id); [|apply oblivious_throw].
  apply oblivious_modify. same_memory_modify.
Qed.

Lemma oblivious_set_task n ph more : oblivious (set_task n ph more).
Proof. apply oblivious_modify. same_memory_modify. Qed.

Lemma oblivious_renameSync src dst : oblivious (renameSync src dst).
Proof.
  unfold renameSync. apply oblivious_get; [memory_only|]. intros w0.
  apply oblivious_bind; [apply oblivious_lift_res|]. intros f.
  apply oblivious_modify. same_memory_modify.
Qed.

Lemma oblivious_statSync_size p : oblivious (statSync_size p).
Proof.
  unfold statSync_size. apply oblivious_get; [memory_only|]. intros w0.
  apply oblivious_lift_res.
Qed.

Lemma oblivious_createWriteStream p : oblivious (createWriteStream p).
Proof.
  intros w w' (H1 & H2 & H3). unfold createWriteStream. rewrite H2.
  destruct (Fs.open_w p (fs w')) as [i f]. cbn. unfold same_memory. cbn. auto.
Qed.

Section Proxy.

Variable cfg : Config.
Hypothesis Hproxy : variant cfg = VideoProxyServer.

Lemma oblivious_download_catch id err : oblivious (download_catch cfg id err).
Proof.
  unfold download_catch. rewrite Hproxy.
  apply oblivious_bind; [apply oblivious_console_log|]. intros _.
  apply oblivious_get; [memory_only|]. intros w0.
  destruct (videos w0 !! id); [|apply oblivious_ret].
  apply oblivious_bind; [apply oblivious_assign|]. intros _.
  apply oblivious_bind; [apply oblivious_assign|]. intros _.
  apply oblivious_persist. exact Hproxy.
Qed.

Lemma oblivious_download_start url id : oblivious (download_start cfg url id).
Proof.
  unfold download_start. rewrite Hproxy.
  apply oblivious_bind.
  - apply oblivious_bind; [apply oblivious_createWriteStream|]. intros wr.
    apply oblivious_ret.
  - intros ow. apply oblivious_modify. same_memory_modify.
Qed.

Lemma oblivious_download_response n id ow r :
  oblivious (download_response cfg n id ow r).
Proof.
  unfold download_response. rewrite Hproxy.
  apply oblivious_try_catch; [|apply oblivious_download_catch].
  destruct r as [st|e]; [|apply oblivious_throw].
  destruct (status_ok st); [|apply oblivious_throw].
  apply oblivious_bind.
  - destruct ow; [apply oblivious_ret | apply oblivious_createWriteStream].
  - intros wr. apply oblivious_set_task.
Qed.

Lemma oblivious_download_chunk n wr bs : oblivious (download_chunk n wr bs).
Proof.
  unfold download_chunk.
  apply oblivious_bind; [apply oblivious_modify; same_memory_modify|].
  intros _. apply oblivious_set_task.
Qed.

Lemma oblivious_download_finish id now : oblivious (download_finish cfg id now).
Proof.
  unfold download_finish. rewrite Hproxy.
  apply oblivious_try_catch; [|apply oblivious_download_catch].
  apply oblivious_bind; [apply oblivious_renameSync|]. intros _.
  apply oblivious_bind; [apply oblivious_assign|]. intros _.
  apply oblivious_bind.
  - apply oblivious_bind; [apply oblivious_assign|]. intros _.
    apply oblivious_bind; [apply oblivious_statSync_size|]. intros sz.
    apply oblivious_assign.
  - intros _. apply oblivious_bind; [apply oblivious_assign|]. intros _.
    apply oblivious_bind; [apply oblivious_persist; exact Hproxy|]. intros _.
    apply oblivious_console_log.
Qed.

Lemma oblivious_add url now now' : oblivious (add cfg url now now').
Proof.
  unfold add. destruct (negb _); [apply oblivious_ret|].
  destruct (negb _); [apply oblivious_ret|].
  apply oblivious_bind; [apply oblivious_modify; same_memory_modify|].
  intros _. apply oblivious_bind; [apply oblivious_persist; exact Hproxy|].
  intros _. apply oblivious_bind; [apply oblivious_download_start|].
  intros _. apply oblivious_ret.
Qed.

Lemma oblivious_stream id range now : oblivious (stream cfg id range now).
Proof.
  unfold stream. apply oblivious_get; [memory_only|]. intros w0.
  destruct (videos w0 !! id) as [info|]; [|apply oblivious_ret].
  destruct (_ || _); [apply oblivious_ret|].
  apply oblivious_bind; [apply oblivious_lift_res|]. intros total.
  apply oblivious_bind; [apply oblivious_modify; same_memory_modify|].
  intros _. apply oblivious_bind; [apply oblivious_persist; exact Hproxy|].
  intros _. apply oblivious_ret.
Qed.

Lemma same_memory_sweep_entry now kv w w' :
  same_memory w w' →
  same_memory (sweep_entry cfg now w kv) (sweep_entry cfg now w' kv).
Proof.
  intros (H1 & H2 & H3). destruct kv as [id info]. unfold sweep_entry.
  destruct (negb _); [repeat split; assumption|].
  destruct (_ <? _); [|repeat split; assumption].
  rewrite H2. destruct (Fs.unlinkSync _ (fs w'));
    unfold same_memory; cbn; rewrite ?H1, ?H2, ?H3; auto.
Qed.

Lemma same_memory_sweep_loop now l : ∀ w w',
  same_memory w w' →
  same_memory (foldl (sweep_entry cfg now) w l)
              (foldl (sweep_entry cfg now) w' l).
Proof.
  induction l as [|kv l IH]; intros w w' H; [exact H|].
  cbn [foldl]. apply IH. apply same_memory_sweep_entry. exact H.
Qed.

Lemma oblivious_sweep now : oblivious (sweep cfg now).
Proof.
  unfold sweep. apply oblivious_get; [memory_only|]. intros w0.
  apply oblivious_bind.
  - apply oblivious_modify. intros w w' H. apply same_memory_sweep_loop. exact H.
  - intros _. apply oblivious_persist. exact Hproxy.
Qed.

Lemma oblivious_admin_delete id : oblivious (admin_delete cfg id).
Proof.
  unfold admin_delete. destruct (negb _); [apply oblivious_ret|].
  apply oblivious_get; [memory_only|]. intros w0.
  destruct (videos w0 !! _) as [info|]; [|apply oblivious_ret].
  apply oblivious_bind.
  - destruct (_ && _); [|apply oblivious_ret].
    destruct (Fs.unlinkSync _ _); [|apply oblivious_ret].
    apply oblivious_modify. same_memory_modify.
  - intros _. apply oblivious_bind; [apply oblivious_modify; same_memory_modify|].
    intros _. apply oblivious_bind; [apply oblivious_persist; exact Hproxy|].
    intros _. apply oblivious_ret.
Qed.

(** Every turn of [video-proxy-server] gives the same answer and the same
    memory whether or not [videos.json] can be written. *)
Lemma step_oblivious ev w w' :
  same_memory w w' →
  fst (step cfg ev w) = fst (step cfg ev w')
  ∧ same_memory (snd (step cfg ev w)) (snd (step cfg ev w')).
Proof.
  intros H. pose proof H as (H1 & H2 & H3).
  destruct ev as [url now now'|id range now|id|now|n r|n bs|n now|n e|b];
    cbn [step].
  - destruct (oblivious_add url now now' w w' H) as [Hr Hs].
    destruct (add cfg url now now' w) as [[r|e] w1],
             (add cfg url now now' w') as [[r'|e'] w1'];
      cbn [fst snd] in *; try discriminate Hr; [injection Hr as <-|]; auto.
  - unfold route_stream.
    destruct (oblivious_stream id range now w w' H) as [Hr Hs].
    destruct (stream cfg id range now w) as [[r|e] w1],
             (stream cfg id range now w') as [[r'|e'] w1'];
      cbn [fst snd] in *; try discriminate Hr;
      [injection Hr as <- | injection Hr as <-]; auto.
  - rewrite Hproxy.
    destruct (oblivious_admin_delete id w w' H) as [Hr Hs].
    destruct (admin_delete cfg id w) as [[r|e] w1],
             (admin_delete cfg id w') as [[r'|e'] w1'];
      cbn [fst snd] in *; try discriminate Hr;
      [injection Hr as <- | injection Hr as <-]; auto.
  - split; [reflexivity|]. apply oblivious_sweep. exact H.
  - rewrite H3. destruct (tasks w' !! n) as [[id url [ow|wr| |] rec]|]; auto.
    split; [reflexivity|].
    apply (oblivious_bind (set_task n Aborted [])
             (fun _ => download_response cfg n id ow r));
      [apply oblivious_set_task | intros _; apply oblivious_download_response
       | exact H].
  - rewrite H3. destruct (tasks w' !! n) as [[id url [ow|wr| |] rec]|]; auto.
    split; [reflexivity|]. apply oblivious_download_chunk. exact H.
  - rewrite H3. destruct (tasks w' !! n) as [[id url [ow|wr| |] rec]|]; auto.
    split; [reflexivity|].
    apply (oblivious_bind (set_task n Received [])
             (fun _ => download_finish cfg id now));
      [apply oblivious_set_task | intros _; apply oblivious_download_finish
       | exact H].
  - rewrite H3. destruct (tasks w' !! n) as [[id url [ow|wr| |] rec]|]; auto.
    split; [reflexivity|].
    apply (oblivious_bind (set_task n Aborted [])
             (fun _ => download_catch cfg id e));
      [apply oblivious_set_task | intros _; apply oblivious_download_catch
       | exact H].
  - split; [reflexivity|]. repeat split; assumption.
Qed.

End Proxy.

(** What C5 asks holds in [video-proxy-server]: a turn has the same effect
    on [videos] (and on the files and the downloads) and gives the same
    answer whether the write of [videos.json] fails or succeeds. *)
Lemma persist_failure_harmless_in_proxy cfg ev w :
  variant cfg = VideoProxyServer →
  let ok := step cfg ev (set_disk_ok true w) in
  let failing := step cfg ev (set_disk_ok false w) in
  fst failing = fst ok ∧ videos (snd failing) = videos (snd ok)
  ∧ fs (snd failing) = fs (snd ok) ∧ tasks (snd failing) = tasks (snd ok).
Proof.
  intros Hv. cbv zeta.
  destruct (step_oblivious cfg Hv ev (set_disk_ok false w) (set_disk_ok true w))
    as (Hr & H1 & H2 & H3); [repeat split|].
  auto.
Qed.

(** ** Paths and ids *)

Lemma length_append (a b : string) :
  String.length (a ++ b) = (String.length a + String.length b)%nat.
Proof.
  induction a as [|c a IH]; simpl; [reflexivity | f_equal; exact IH].
Qed.

Lemma append_inv_tail (a b c : string) :
  String.length a = String.length b → a ++ c = b ++ c → a = b.
Proof.
  revert b. induction a as [|x a IH]; intros [|y b] Hl H; cbn in *;
    try discriminate; [reflexivity|].
  injection H as -> H. f_equal. apply IH; [lia | exact H].
Qed.

Lemma slice0_length n s :
  (n ≤ String.length s)%nat → String.length (slice0 n s) = n.
Proof.
  revert s. induction n as [|n IH]; intros [|c s] H; cbn in *;
    try reflexivity; [lia|].
  rewrite IH; [reflexivity | lia].
Qed.

Lemma hex_length n x : String.length (Sha1.hex n x) = n.
Proof.
  induction n as [|n IH]; simpl; [reflexivity | f_equal; exact IH].
Qed.

Lemma digest_hex_length s : String.length (Sha1.digest_hex s) = 40%nat.
Proof.
  unfold Sha1.digest_hex.
  destruct (Sha1.blocks _ _ _) as [[[[a b] c] d] e].
  rewrite !length_append, !hex_length. reflexivity.
Qed.

(** An id has twelve characters. *)
Lemma genId_length seed now : String.length (genId seed now) = 12%nat.
Proof.
  unfold genId. apply slice0_length. rewrite digest_hex_length. lia.
Qed.

Lemma filePath_inj cfg id id' :
  filePath_of cfg id = filePath_of cfg id' → id = id'.
Proof.
  unfold filePath_of. intros H.
  apply (inj (String.append (DATA_DIR cfg))) in H.
  apply (inj (String.append "/")) in H. exact H.
Qed.

Lemma tmpPath_inj cfg id id' :
  String.length id = String.length id' →
  tmpPath_of cfg id = tmpPath_of cfg id' → id = id'.
Proof.
  unfold tmpPath_of. intros Hl H. apply (filePath_inj cfg).
  apply (append_inv_tail _ _ ".part"); [|exact H].
  unfold filePath_of. rewrite !length_append, Hl. reflexivity.
Qed.

(** The temporary path of a download is the final path of none. *)
Lemma tmpPath_ne_filePath cfg id id' :
  String.length id = String.length id' →
  tmpPath_of cfg id ≠ filePath_of cfg id'.
Proof.
  unfold tmpPath_of. intros Hl H.
  assert (String.length (filePath_of cfg id ++ ".part")
          = String.length (filePath_of cfg id')) as Hlen by (rewrite H; reflexivity).
  unfold filePath_of in Hlen. rewrite !length_append, Hl in Hlen.
  cbn in Hlen. lia.
Qed.

(** ** Reasoning about handlers *)

Lemma bind_ok {A B} (m : M A) (k : A → M B) w a w1 :
  m w = (Ok a, w1) → bind m k w = k a w1.
Proof. unfold bind. intros ->. reflexivity. Qed.

Lemma bind_throw {A B} (m : M A) (k : A → M B) w e w1 :
  m w = (Throw e, w1) → bind m k w = (Throw e, w1).
Proof. unfold bind. intros ->. reflexivity. Qed.

Lemma bind_assoc {A B C} (m : M A) (k1 : A → M B) (k2 : B → M C) w :
  bind (bind m k1) k2 w = bind m (fun a => bind (k1 a) k2) w.
Proof. unfold bind. destruct (m w) as [[a|e] w1]; reflexivity. Qed.

Lemma keeps_files_refl w : keeps_files w w.
Proof. repeat split. Qed.

Lemma keeps_files_trans w1 w2 w3 :
  keeps_files w1 w2 → keeps_files w2 w3 → keeps_files w1 w3.
Proof.
  intros (H1 & H2 & H3) (H4 & H5 & H6). repeat split; congruence.
Qed.

Lemma stable_ret {A} (a : A) : stable keeps_files (ret a).
Proof. intros w. apply keeps_files_refl. Qed.

Lemma stable_throw {A} e : stable keeps_files (@throw A e).
Proof. intros w. apply keeps_files_refl. Qed.

Lemma stable_lift_res {A} (r : Res A) : stable keeps_files (lift_res r).
Proof. intros w. apply keeps_files_refl. Qed.

Lemma stable_get : stable keeps_files get.
Proof. intros w. apply keeps_files_refl. Qed.

Lemma stable_bind {A B} (m : M A) (k : A → M B) :
  stable keeps_files m → (∀ a, stable keeps_files (k a)) →
  stable keeps_files (bind m k).
Proof.
  intros Hm Hk w. unfold bind. specialize (Hm w).
  destruct (m w) as [[a|e] w1]; cbn [snd] in *; [|exact Hm].
  eapply keeps_files_trans; [exact Hm | apply Hk].
Qed.

Lemma stable_try_catch {A} (m : M A) h :
  stable keeps_files m → (∀ e, stable keeps_files (h e)) →
  stable keeps_files (try_catch m h).
Proof.
  intros Hm Hh w. unfold try_catch. specialize (Hm w).
  destruct (m w) as [[a|e] w1]; cbn [snd] in *; [exact Hm|].
  eapply keeps_files_trans; [exact Hm | apply Hh].
Qed.

Lemma stable_console_log line : stable keeps_files (console_log line).
Proof. intros w. repeat split. Qed.

Lemma stable_persist cfg : stable keeps_files (persist cfg).
Proof.
  intros w. destruct (persist cfg w) as [r w'] eqn:E.
  apply persist_videos in E as (Hv & Hf & Ht & _).
  unfold keeps_files, paths. cbn [snd]. rewrite Hv. auto.
Qed.

Lemma paths_update w id e (f : Entry → Entry) :
  videos w !! id = Some e → e_path (f e) = e_path e →
  paths (set_videos (<[id := f e]>) w) = paths w.
Proof.
  intros Hv Hp. unfold paths. cbn. rewrite fmap_insert, Hp.
  apply insert_id. rewrite lookup_fmap, Hv. reflexivity.
Qed.

Lemma assign_some id prop f w e :
  videos w !! id = Some e →
  assign id prop f w = (Ok tt, set_videos (<[id := f e]>) w).
Proof. intros H. unfold assign, bind, get. rewrite H. reflexivity. Qed.

Lemma assign_none id prop f w :
  videos w !! id = None →
  ∃ e, assign id prop f w = (Throw e, w).
Proof. intros H. unfold assign, bind, get. rewrite H. eexists. reflexivity. Qed.

Lemma stable_assign id prop f :
  (∀ e, e_path (f e) = e_path e) →
  stable keeps_files (assign id prop f).
Proof.
  intros Hf w. destruct (videos w !! id) as [e|] eqn:Hv.
  - rewrite (assign_some _ _ _ _ _ Hv). cbn [snd].
    split; [reflexivity|]. split; [reflexivity|].
    apply paths_update; auto.
  - destruct (assign_none id prop f w Hv) as [e ->].
    apply keeps_files_refl.
Qed.

(** The [catch] block of [downloadFull] leaves files and paths alone. *)
Lemma stable_download_catch cfg id err :
  stable keeps_files (download_catch cfg id err).
Proof.
  unfold download_catch. destruct (variant cfg).
  - apply stable_bind; [apply stable_console_log|]. intros _.
    apply stable_bind; [apply stable_get|]. intros w0.
    destruct (videos w0 !! id).
    + apply stable_bind; [apply stable_assign; reflexivity|]. intros _.
      apply stable_bind; [apply stable_assign; reflexivity|]. intros _.
      apply stable_persist.
    + apply stable_ret.
  - apply stable_bind; [apply stable_console_log|]. intros _.
    apply stable_bind; [apply stable_assign; reflexivity|]. intros _.
    apply stable_bind; [apply stable_assign; reflexivity|]. intros _.
    apply stable_persist.
Qed.

(** ** The invariant, operation by operation *)

Section Invariant.

Variable cfg : Config.

Lemma replaced_back T n t t' T' j tj :
  replaced T n t' T' → T !! n = Some t → t_id t' = t_id t →
  T' !! j = Some tj →
  ∃ tj0, T !! j = Some tj0 ∧ t_id tj0 = t_id tj ∧ (j ≠ n → tj0 = tj).
Proof.
  intros HR Hn Hid Hj. rewrite (HR j) in Hj. case_decide as E.
  - subst j. injection Hj as <-. exists t. split; [assumption|].
    split; [congruence | intros []; reflexivity].
  - exists tj. auto.
Qed.

Lemma replaced_fwd T n t t' T' j tj :
  replaced T n t' T' → T !! n = Some t → t_id t' = t_id t →
  T !! j = Some tj →
  ∃ tj', T' !! j = Some tj' ∧ t_id tj' = t_id tj ∧ (j ≠ n → tj' = tj).
Proof.
  intros HR Hn Hid Hj. rewrite (HR j). case_decide as E.
  - subst j. exists t'. split; [reflexivity|].
    split; [congruence | intros []; reflexivity].
  - exists tj. auto.
Qed.

Lemma replaced_alter T n t (f : Task → Task) :
  T !! n = Some t → replaced T n (f t) (alter f n T).
Proof.
  intros Hn j. rewrite list_lookup_alter. case_decide; [|reflexivity].
  rewrite Hn. reflexivity.
Qed.

(** Replacing a download by one with the same id keeps ids distinct. *)
Lemma replaced_unique N I X T P n t t' T' :
  Inv cfg N I X T P → T !! n = Some t →
  replaced T n t' T' → t_id t' = t_id t →
  ∀ a b ta tb, T' !! a = Some ta → T' !! b = Some tb →
               t_id ta = t_id tb → a = b.
Proof.
  intros HI Hn HR Hid a b ta tb Ha Hb Hab.
  destruct (replaced_back _ _ _ _ _ _ _ HR Hn Hid Ha) as (ta0 & Ha0 & Hia & _).
  destruct (replaced_back _ _ _ _ _ _ _ HR Hn Hid Hb) as (tb0 & Hb0 & Hib & _).
  eapply (inv_unique _ _ _ _ _ _ HI); [exact Ha0 | exact Hb0 | congruence].
Qed.

Lemma replaced_len N I X T P n t t' T' :
  Inv cfg N I X T P → T !! n = Some t →
  replaced T n t' T' → t_id t' = t_id t →
  ∀ a ta, T' !! a = Some ta → String.length (t_id ta) = 12%nat.
Proof.
  intros HI Hn HR Hid a ta Ha.
  destruct (replaced_back _ _ _ _ _ _ _ HR Hn Hid Ha) as (ta0 & Ha0 & Hia & _).
  rewrite <- Hia. eapply (inv_len _ _ _ _ _ _ HI); exact Ha0.
Qed.

(** ... and keeps every file the file of a download. *)
Lemma replaced_names N I X T P n t t' T' p i :
  Inv cfg N I X T P → T !! n = Some t →
  replaced T n t' T' → t_id t' = t_id t →
  N !! p = Some i →
  (i < X)%nat
  ∧ ∃ m tm, T' !! m = Some tm
            ∧ (p = tmpPath_of cfg (t_id tm) ∨ p = filePath_of cfg (t_id tm)).
Proof.
  intros HI Hn HR Hid Hp.
  destruct (inv_names _ _ _ _ _ _ HI p i Hp) as (Hlt & m & tm & Hm & Hor).
  split; [exact Hlt|].
  destruct (replaced_fwd _ _ _ _ _ _ _ HR Hn Hid Hm) as (tm' & Hm' & Him & _).
  exists m, tm'. rewrite Him. auto.
Qed.

(** The write streams of two downloads are on different files. *)
Lemma writers_apart N I X T P n m t t' wr wr' :
  Inv cfg N I X T P →
  T !! n = Some t → writer_of (t_phase t) = Some wr →
  T !! m = Some t' → writer_of (t_phase t') = Some wr' →
  w_ino wr = w_ino wr' → n = m.
Proof.
  intros HI Hn Hw Hm Hw' Heq.
  destruct (inv_writer _ _ _ _ _ _ HI n t wr Hn Hw) as (Hb & Hu & _).
  destruct (inv_writer _ _ _ _ _ _ HI m t' wr' Hm Hw') as (Hb' & Hu' & _).
  rewrite Heq in Hu. specialize (Hu _ Hb').
  eapply (inv_unique _ _ _ _ _ _ HI); [exact Hn | exact Hm |].
  apply (tmpPath_inj cfg); [|symmetry; exact Hu].
  rewrite (inv_len _ _ _ _ _ _ HI n t Hn), (inv_len _ _ _ _ _ _ HI m t' Hm).
  reflexivity.
Qed.

(** A cached file is not the file of a write stream. *)
Lemma cached_not_written N I X T P id p i n t wr :
  Inv cfg N I X T P →
  P !! id = Some (Some p) → JS.truthy p = true → N !! p = Some i →
  T !! n = Some t → writer_of (t_phase t) = Some wr →
  i ≠ w_ino wr.
Proof.
  intros HI HP Ht HN Hn Hw ->.
  destruct (inv_cached _ _ _ _ _ _ HI id p HP Ht)
    as (-> & m & tm & i & Hm & Hid & _).
  destruct (inv_writer _ _ _ _ _ _ HI n t wr Hn Hw) as (_ & Hu & _).
  specialize (Hu _ HN). symmetry in Hu. revert Hu.
  apply tmpPath_ne_filePath.
  rewrite (inv_len _ _ _ _ _ _ HI n t Hn), <- Hid,
    (inv_len _ _ _ _ _ _ HI m tm Hm).
  reflexivity.
Qed.

(** (A) A download settles: its promise resolves or rejects. *)
Lemma Inv_settle N I X T P n t t' T' :
  Inv cfg N I X T P →
  T !! n = Some t → t_phase t ≠ Received →
  replaced T n t' T' → t_id t' = t_id t →
  t_phase t' = Received ∨ t_phase t' = Aborted →
  Inv cfg N I X T' P.
Proof.
  intros HI Hn Hph HR Hid Hph'.
  assert (writer_of (t_phase t') = None) as Hnw
      by (destruct Hph' as [-> | ->]; reflexivity).
  constructor.
  - eapply replaced_unique; eassumption.
  - eapply replaced_len; eassumption.
  - intros p i Hp. eapply replaced_names; eassumption.
  - intros a ta wr Ha Hw. rewrite (HR a) in Ha. case_decide as E.
    + injection Ha as <-. congruence.
    + eapply (inv_writer _ _ _ _ _ _ HI); eassumption.
  - intros a ta Ha Hreq. rewrite (HR a) in Ha. case_decide as E.
    + injection Ha as <-. destruct Hph' as [H | H]; congruence.
    + eapply (inv_pending _ _ _ _ _ _ HI); eassumption.
  - intros id p HP Ht.
    destruct (inv_cached _ _ _ _ _ _ HI id p HP Ht)
      as (-> & m & tm & i & Hm & Him & Hrec & HN & Hc).
    split; [reflexivity|]. exists m, tm, i.
    rewrite (HR m). rewrite decide_False by congruence. auto.
  - apply (inv_uncached _ _ _ _ _ _ HI).
  - apply (inv_key _ _ _ _ _ _ HI).
Qed.

(** (B) The request of [video-proxy-server] is answered: the write stream
    created at the start is piped to. *)
Lemma Inv_pipe N I X T P n t wr t' T' :
  Inv cfg N I X T P →
  T !! n = Some t → t_phase t = Requesting (Some wr) →
  replaced T n t' T' → t_id t' = t_id t →
  t_phase t' = Piping wr → t_received t' = t_received t →
  Inv cfg N I X T' P.
Proof.
  intros HI Hn Hph HR Hid Hph' Hrec.
  constructor.
  - eapply replaced_unique; eassumption.
  - eapply replaced_len; eassumption.
  - intros p i Hp. eapply replaced_names; eassumption.
  - intros a ta wr' Ha Hw. rewrite (HR a) in Ha. case_decide as E.
    + injection Ha as <-. rewrite Hph' in Hw. injection Hw as <-.
      rewrite Hid, Hrec. subst a.
      apply (inv_writer _ _ _ _ _ _ HI n t wr Hn). rewrite Hph. reflexivity.
    + eapply (inv_writer _ _ _ _ _ _ HI); eassumption.
  - intros a ta Ha Hreq. rewrite (HR a) in Ha. case_decide as E.
    + injection Ha as <-. congruence.
    + eapply (inv_pending _ _ _ _ _ _ HI); eassumption.
  - intros id p HP Ht.
    destruct (inv_cached _ _ _ _ _ _ HI id p HP Ht)
      as (-> & m & tm & i & Hm & Him & Hr & HN & Hc).
    split; [reflexivity|]. exists m, tm, i.
    rewrite (HR m). rewrite decide_False by congruence. auto.
  - apply (inv_uncached _ _ _ _ _ _ HI).
  - apply (inv_key _ _ _ _ _ _ HI).
Qed.

(** (C) A write stream is created for a download that has none: the
    temporary file is new. *)
Lemma Inv_open N I X T P n t t' T' :
  Inv cfg N I X T P →
  T !! n = Some t → t_phase t = Requesting None →
  replaced T n t' T' → t_id t' = t_id t →
  writer_of (t_phase t') = Some (mkWriter X 0) →
  t_received t' = t_received t →
  Inv cfg (<[tmpPath_of cfg (t_id t) := X]> N) (<[X := []]> I) (S X) T' P.
Proof.
  intros HI Hn Hph HR Hid Hph' Hrec.
  destruct (inv_pending _ _ _ _ _ _ HI n t Hn Hph) as [Hfree Hnil].
  assert (∀ p i, N !! p = Some i → (i < X)%nat) as Hlt
      by (intros p i Hp; apply (inv_names _ _ _ _ _ _ HI p i Hp)).
  constructor.
  - eapply replaced_unique; eassumption.
  - eapply replaced_len; eassumption.
  - intros p i Hp. rewrite lookup_insert in Hp. case_decide as E.
    + injection Hp as <-. split; [lia|]. exists n, t'.
      split; [rewrite (HR n), decide_True by reflexivity; reflexivity|].
      left. rewrite Hid. symmetry. exact E.
    + destruct (inv_names _ _ _ _ _ _ HI p i Hp) as (Hl & m & tm & Hm & Hor).
      split; [lia|].
      destruct (replaced_fwd _ _ _ _ _ _ _ HR Hn Hid Hm) as (tm' & Hm' & Him & _).
      exists m, tm'. rewrite Him. auto.
  - intros a ta wr' Ha Hw. rewrite (HR a) in Ha. case_decide as E.
    + injection Ha as <-. rewrite Hph' in Hw. injection Hw as <-.
      cbn [w_ino w_pos]. rewrite Hid, Hrec, Hnil.
      split; [apply lookup_insert_eq|]. split; [|split].
      * intros p Hp. rewrite lookup_insert in Hp. case_decide as E2; [auto|].
        apply Hlt in Hp. lia.
      * apply lookup_insert_eq.
      * reflexivity.
    + destruct (inv_writer _ _ _ _ _ _ HI a ta wr' Ha Hw) as (Hb & Hu & Hc & Hpos).
      assert (w_ino wr' ≠ X) as Hne by (apply Hlt in Hb; lia).
      split; [|split; [|split]].
      * rewrite lookup_insert_ne; [exact Hb|]. intros Heq. congruence.
      * intros p Hp. rewrite lookup_insert in Hp. case_decide; [congruence|].
        auto.
      * rewrite lookup_insert_ne by congruence. exact Hc.
      * exact Hpos.
  - intros a ta Ha Hreq. rewrite (HR a) in Ha. case_decide as E.
    + injection Ha as <-. rewrite Hreq in Hph'. discriminate.
    + destruct (inv_pending _ _ _ _ _ _ HI a ta Ha Hreq) as [Hf Hr].
      split; [|exact Hr]. rewrite lookup_insert_ne; [exact Hf|].
      intros Heq. apply tmpPath_inj in Heq.
      * apply E. eapply (inv_unique _ _ _ _ _ _ HI); eassumption.
      * rewrite (inv_len _ _ _ _ _ _ HI n t Hn), (inv_len _ _ _ _ _ _ HI a ta Ha).
        reflexivity.
  - intros id p HP Ht.
    destruct (inv_cached _ _ _ _ _ _ HI id p HP Ht)
      as (-> & m & tm & i & Hm & Him & Hr & HN & Hc).
    split; [reflexivity|]. exists m, tm, i.
    rewrite (HR m). rewrite decide_False by congruence.
    split; [exact Hm|]. split; [exact Him|]. split; [exact Hr|]. split.
    + rewrite lookup_insert_ne; [exact HN|]. congruence.
    + rewrite lookup_insert_ne; [exact Hc|]. apply Hlt in HN. lia.
  - intros id op HP Hf. rewrite lookup_insert_ne.
    + eapply (inv_uncached _ _ _ _ _ _ HI); eassumption.
    + apply tmpPath_ne_filePath.
      rewrite (inv_len _ _ _ _ _ _ HI n t Hn), (inv_key _ _ _ _ _ _ HI id op HP).
      reflexivity.
  - apply (inv_key _ _ _ _ _ _ HI).
Qed.

Lemma overwrite_append (old bs : list Byte.byte) :
  Fs.overwrite (length old) bs old = (old ++ bs)%list.
Proof.
  unfold Fs.overwrite. rewrite Nat.sub_diag. cbn [repeat].
  rewrite app_nil_r, firstn_all, drop_ge by lia.
  rewrite app_nil_r. reflexivity.
Qed.

(** (D) [pipeline] writes a chunk: the temporary file grows by it. *)
Lemma Inv_chunk N I X T P n t wr bs t' T' :
  Inv cfg N I X T P →
  T !! n = Some t → t_phase t = Piping wr →
  replaced T n t' T' → t_id t' = t_id t →
  t_phase t' = Piping (mkWriter (w_ino wr) (w_pos wr + length bs)) →
  t_received t' = (t_received t ++ bs)%list →
  Inv cfg N
      (<[w_ino wr := Fs.overwrite (w_pos wr) bs (default [] (I !! w_ino wr))]> I)
      X T' P.
Proof.
  intros HI Hn Hph HR Hid Hph' Hrec.
  assert (writer_of (t_phase t) = Some wr) as Hw by (rewrite Hph; reflexivity).
  destruct (inv_writer _ _ _ _ _ _ HI n t wr Hn Hw) as (Hb & Hu & Hc & Hpos).
  constructor.
  - eapply replaced_unique; eassumption.
  - eapply replaced_len; eassumption.
  - intros p i Hp. eapply replaced_names; eassumption.
  - intros a ta wr' Ha Hw'. rewrite (HR a) in Ha. case_decide as E.
    + injection Ha as <-. rewrite Hph' in Hw'. injection Hw' as <-.
      cbn [w_ino w_pos]. rewrite Hid, Hrec.
      split; [exact Hb|]. split; [exact Hu|]. split.
      * rewrite lookup_insert_eq, Hc. cbn [from_option Datatypes.id].
        rewrite Hpos, overwrite_append. reflexivity.
      * rewrite length_app, Hpos. reflexivity.
    + destruct (inv_writer _ _ _ _ _ _ HI a ta wr' Ha Hw') as (Hb' & Hu' & Hc' & Hpos').
      split; [exact Hb'|]. split; [exact Hu'|]. split; [|exact Hpos'].
      rewrite lookup_insert_ne; [exact Hc'|]. intros Heq. apply E.
      eapply (writers_apart _ _ _ _ _ n a); eassumption.
  - intros a ta Ha Hreq. rewrite (HR a) in Ha. case_decide as E.
    + injection Ha as <-. congruence.
    + eapply (inv_pending _ _ _ _ _ _ HI); eassumption.
  - intros id p HP Ht.
    destruct (inv_cached _ _ _ _ _ _ HI id p HP Ht)
      as (-> & m & tm & i & Hm & Him & Hr & HN & Hc').
    split; [reflexivity|]. exists m, tm, i.
    rewrite (HR m). rewrite decide_False by congruence.
    split; [exact Hm|]. split; [exact Him|]. split; [exact Hr|].
    split; [exact HN|]. rewrite lookup_insert_ne; [exact Hc'|].
    intros Heq.
    apply (cached_not_written _ _ _ _ _ _ _ _ _ _ _ HI HP Ht HN Hn Hw).
    symmetry. exact Heq.
  - apply (inv_uncached _ _ _ _ _ _ HI).
  - apply (inv_key _ _ _ _ _ _ HI).
Qed.

Lemma filePath_truthy id : JS.truthy (filePath_of cfg id) = true.
Proof.
  unfold filePath_of. destruct (DATA_DIR cfg); reflexivity.
Qed.

(** (E) [pipeline] has resolved and the temporary file is renamed; the
    entry, when there is one, gets the final path. *)
Lemma Inv_finish N I X T P n t wr t' T' P' :
  Inv cfg N I X T P →
  T !! n = Some t → t_phase t = Piping wr →
  replaced T n t' T' → t_id t' = t_id t →
  t_phase t' = Received → t_received t' = t_received t →
  (P !! t_id t = None ∧ P' = P)
  ∨ (is_Some (P !! t_id t)
     ∧ P' = <[t_id t := Some (filePath_of cfg (t_id t))]> P) →
  Inv cfg (<[filePath_of cfg (t_id t) := w_ino wr]>
             (delete (tmpPath_of cfg (t_id t)) N))
      I X T' P'.
Proof.
  intros HI Hn Hph HR Hid Hph' Hrec HP'.
  assert (writer_of (t_phase t) = Some wr) as Hw by (rewrite Hph; reflexivity).
  destruct (inv_writer _ _ _ _ _ _ HI n t wr Hn Hw) as (Hb & Hu & Hc & Hpos).
  pose proof (inv_len _ _ _ _ _ _ HI n t Hn) as Hlen.
  assert (∀ a ta, T !! a = Some ta → a ≠ n →
                  tmpPath_of cfg (t_id ta) ≠ tmpPath_of cfg (t_id t)) as Htmp.
  { intros a ta Ha Hne Heq. apply Hne. apply tmpPath_inj in Heq.
    - eapply (inv_unique _ _ _ _ _ _ HI); eassumption.
    - rewrite Hlen. eapply (inv_len _ _ _ _ _ _ HI); exact Ha. }
  assert (∀ a ta, T !! a = Some ta →
                  tmpPath_of cfg (t_id ta) ≠ filePath_of cfg (t_id t)) as Htf.
  { intros a ta Ha. apply tmpPath_ne_filePath.
    rewrite Hlen. eapply (inv_len _ _ _ _ _ _ HI); exact Ha. }
  assert (∀ id op, P' !! id = Some op → id ≠ t_id t → P !! id = Some op) as HPne.
  { intros id op Hl Hne. destruct HP' as [[_ ->] | [_ ->]]; [exact Hl|].
    rewrite lookup_insert_ne in Hl by congruence. exact Hl. }
  assert (∀ op, P' !! t_id t = Some op →
                op = Some (filePath_of cfg (t_id t))) as HPeq.
  { intros op Hl. destruct HP' as [[Hno ->] | [_ ->]]; [congruence|].
    rewrite lookup_insert_eq in Hl. congruence. }
  constructor.
  - eapply replaced_unique; eassumption.
  - eapply replaced_len; eassumption.
  - intros p i Hp. rewrite lookup_insert in Hp. case_decide as E.
    + injection Hp as <-. split; [apply (inv_names _ _ _ _ _ _ HI _ _ Hb)|].
      exists n, t'. rewrite (HR n), decide_True by reflexivity.
      split; [reflexivity|]. right. rewrite Hid. auto.
    + rewrite lookup_delete in Hp. case_decide as E2; [discriminate|].
      destruct (inv_names _ _ _ _ _ _ HI p i Hp) as (Hlt & m & tm & Hm & Hor).
      split; [exact Hlt|].
      destruct (replaced_fwd _ _ _ _ _ _ _ HR Hn Hid Hm) as (tm' & Hm' & Him & _).
      exists m, tm'. rewrite Him. auto.
  - intros a ta wr' Ha Hw'. rewrite (HR a) in Ha. case_decide as E.
    + injection Ha as <-. rewrite Hph' in Hw'. discriminate.
    + destruct (inv_writer _ _ _ _ _ _ HI a ta wr' Ha Hw') as (Hb' & Hu' & Hc' & Hpos').
      assert (w_ino wr' ≠ w_ino wr) as Hino.
      { intros Heq. apply E. symmetry.
        eapply (writers_apart _ _ _ _ _ a n); eassumption. }
      split; [|split; [|split]]; [| |exact Hc'|exact Hpos'].
      * rewrite lookup_insert_ne by (intros Heq; eapply Htf; eauto).
        rewrite lookup_delete_ne by (intros Heq; eapply Htmp; eauto).
        exact Hb'.
      * intros p Hp. rewrite lookup_insert in Hp. case_decide; [congruence|].
        rewrite lookup_delete in Hp. case_decide; [discriminate|]. auto.
  - intros a ta Ha Hreq. rewrite (HR a) in Ha. case_decide as E.
    + injection Ha as <-. congruence.
    + destruct (inv_pending _ _ _ _ _ _ HI a ta Ha Hreq) as [Hf Hr].
      split; [|exact Hr].
      rewrite lookup_insert_ne by (intros Heq; eapply Htf; eauto).
      rewrite lookup_delete_ne by (intros Heq; eapply Htmp; eauto).
      exact Hf.
  - intros id p HP Ht. destruct (decide (id = t_id t)) as [->|Hne].
    + apply HPeq in HP. injection HP as <-. split; [reflexivity|].
      exists n, t', (w_ino wr).
      rewrite (HR n), decide_True by reflexivity.
      split; [reflexivity|]. split; [exact Hid|]. split; [exact Hph'|].
      split; [apply lookup_insert_eq|]. rewrite Hrec. exact Hc.
    + apply HPne in HP; [|exact Hne].
      destruct (inv_cached _ _ _ _ _ _ HI id p HP Ht)
        as (-> & m & tm & i & Hm & Him & Hr & HN & Hc').
      split; [reflexivity|]. exists m, tm, i.
      rewrite (HR m). rewrite decide_False by congruence.
      split; [exact Hm|]. split; [exact Him|]. split; [exact Hr|].
      split; [|exact Hc'].
      rewrite lookup_insert_ne by (intros Heq; apply filePath_inj in Heq; congruence).
      rewrite lookup_delete_ne; [exact HN|].
      apply tmpPath_ne_filePath.
      rewrite Hlen, <- Him. symmetry. eapply (inv_len _ _ _ _ _ _ HI); exact Hm.
  - intros id op HP Hf. destruct (decide (id = t_id t)) as [->|Hne].
    + apply HPeq in HP. subst op. cbn in Hf. rewrite filePath_truthy in Hf.
      discriminate.
    + apply HPne in HP; [|exact Hne].
      rewrite lookup_insert_ne by (intros Heq; apply filePath_inj in Heq; congruence).
      rewrite lookup_delete_ne.
      * eapply (inv_uncached _ _ _ _ _ _ HI); eassumption.
      * apply tmpPath_ne_filePath.
        rewrite Hlen. symmetry. eapply (inv_key _ _ _ _ _ _ HI); exact HP.
  - intros id op HP. destruct (decide (id = t_id t)) as [->|Hne]; [exact Hlen|].
    apply HPne in HP; [|exact Hne]. eapply (inv_key _ _ _ _ _ _ HI); exact HP.
Qed.

(** Nothing is stored under the paths of an id no download has used. *)
Lemma fresh_id_no_file N I X T P id :
  Inv cfg N I X T P →
  String.length id = 12%nat →
  (∀ n t, T !! n = Some t → t_id t ≠ id) →
  N !! filePath_of cfg id = None ∧ N !! tmpPath_of cfg id = None.
Proof.
  intros HI Hlen Hfresh. split.
  - destruct (N !! filePath_of cfg id) as [i|] eqn:E; [|reflexivity].
    destruct (inv_names _ _ _ _ _ _ HI _ _ E) as (_ & n & t & Hn & [H | H]).
    + symmetry in H. apply tmpPath_ne_filePath in H; [contradiction|].
      rewrite Hlen. eapply (inv_len _ _ _ _ _ _ HI); exact Hn.
    + apply filePath_inj in H. subst id. destruct (Hfresh n t Hn eq_refl).
  - destruct (N !! tmpPath_of cfg id) as [i|] eqn:E; [|reflexivity].
    destruct (inv_names _ _ _ _ _ _ HI _ _ E) as (_ & n & t & Hn & [H | H]).
    + apply tmpPath_inj in H.
      * subst id. destruct (Hfresh n t Hn eq_refl).
      * rewrite Hlen. symmetry. eapply (inv_len _ _ _ _ _ _ HI); exact Hn.
    + apply tmpPath_ne_filePath in H; [contradiction|].
      rewrite Hlen. symmetry. eapply (inv_len _ _ _ _ _ _ HI); exact Hn.
Qed.

(** (F) [/add] stores a record without a [path] under a new id. *)
Lemma Inv_add_entry N I X T P id :
  Inv cfg N I X T P →
  String.length id = 12%nat →
  (∀ n t, T !! n = Some t → t_id t ≠ id) →
  Inv cfg N I X T (<[id := None]> P).
Proof.
  intros HI Hlen Hfresh.
  destruct (fresh_id_no_file _ _ _ _ _ _ HI Hlen Hfresh) as [Hfile _].
  constructor; try apply HI.
  - intros id' p HP Ht. rewrite lookup_insert in HP.
    case_decide; [discriminate|].
    eapply (inv_cached _ _ _ _ _ _ HI); eassumption.
  - intros id' op HP Hf. rewrite lookup_insert in HP. case_decide as E.
    + subst id'. exact Hfile.
    + eapply (inv_uncached _ _ _ _ _ _ HI); eassumption.
  - intros id' op HP. rewrite lookup_insert in HP. case_decide as E.
    + subst id'. exact Hlen.
    + eapply (inv_key _ _ _ _ _ _ HI); eassumption.
Qed.

(** (G) [/add] starts a download under a new id. *)
Lemma Inv_add_task N I X T P id url :
  Inv cfg N I X T P →
  String.length id = 12%nat →
  (∀ n t, T !! n = Some t → t_id t ≠ id) →
  Inv cfg N I X (T ++ [mkTask id url (Requesting None) []])%list P.
Proof.
  intros HI Hlen Hfresh.
  destruct (fresh_id_no_file _ _ _ _ _ _ HI Hlen Hfresh) as [_ Htmp].
  assert (∀ j tj, (T ++ [mkTask id url (Requesting None) []])%list !! j = Some tj →
                  T !! j = Some tj
                  ∨ (j = length T ∧ tj = mkTask id url (Requesting None) []))
    as Hsnoc.
  { intros j tj Hj. apply lookup_snoc_Some in Hj as [[_ H] | [-> <-]]; auto. }
  assert (∀ j tj, T !! j = Some tj →
                  (T ++ [mkTask id url (Requesting None) []])%list !! j = Some tj)
    as Hkeep.
  { intros j tj Hj. rewrite lookup_app_l; [exact Hj|].
    eapply lookup_lt_Some; exact Hj. }
  constructor.
  - intros a b ta tb Ha Hb Hab.
    destruct (Hsnoc _ _ Ha) as [Ha' | [-> ->]];
      destruct (Hsnoc _ _ Hb) as [Hb' | [-> ->]].
    + eapply (inv_unique _ _ _ _ _ _ HI); eassumption.
    + destruct (Hfresh a ta Ha' Hab).
    + destruct (Hfresh b tb Hb'). symmetry. exact Hab.
    + reflexivity.
  - intros a ta Ha. destruct (Hsnoc _ _ Ha) as [Ha' | [-> ->]]; [|exact Hlen].
    eapply (inv_len _ _ _ _ _ _ HI); exact Ha'.
  - intros p i Hp.
    destruct (inv_names _ _ _ _ _ _ HI p i Hp) as (Hlt & m & tm & Hm & Hor).
    split; [exact Hlt|]. exists m, tm. auto.
  - intros a ta wr Ha Hw.
    destruct (Hsnoc _ _ Ha) as [Ha' | [-> ->]]; [|discriminate].
    eapply (inv_writer _ _ _ _ _ _ HI); eassumption.
  - intros a ta Ha Hreq. destruct (Hsnoc _ _ Ha) as [Ha' | [-> ->]].
    + eapply (inv_pending _ _ _ _ _ _ HI); eassumption.
    + split; [exact Htmp | reflexivity].
  - intros id' p HP Ht.
    destruct (inv_cached _ _ _ _ _ _ HI id' p HP Ht)
      as (-> & m & tm & i & Hm & Hrest).
    split; [reflexivity|]. exists m, tm, i. auto.
  - apply (inv_uncached _ _ _ _ _ _ HI).
  - apply (inv_key _ _ _ _ _ _ HI).
Qed.

(** (I) An entry is removed, with or without its file. *)
Lemma Inv_evict N I X T P id N' :
  Inv cfg N I X T P →
  N' = N ∨ (∃ p, P !! id = Some (Some p) ∧ JS.truthy p = true
                 ∧ N' = delete p N) →
  Inv cfg N' I X T (delete id P).
Proof.
  intros HI HN'.
  assert (∀ q i, N' !! q = Some i → N !! q = Some i) as Hsub.
  { intros q i Hq. destruct HN' as [-> | (p & _ & _ & ->)]; [exact Hq|].
    rewrite lookup_delete in Hq. case_decide; [discriminate | exact Hq]. }
  assert (∀ q, N !! q = None → N' !! q = None) as Hnone.
  { intros q Hq. destruct (N' !! q) eqn:E; [|reflexivity].
    apply Hsub in E. congruence. }
  assert (∀ q, q ≠ filePath_of cfg id → N' !! q = N !! q) as Hother.
  { intros q Hq. destruct HN' as [-> | (p & HP & Ht & ->)]; [reflexivity|].
    destruct (inv_cached _ _ _ _ _ _ HI id p HP Ht) as [-> _].
    apply lookup_delete_ne. congruence. }
  constructor; try apply HI.
  - intros q i Hq. apply Hsub in Hq. apply (inv_names _ _ _ _ _ _ HI _ _ Hq).
  - intros a ta wr Ha Hw.
    destruct (inv_writer _ _ _ _ _ _ HI a ta wr Ha Hw) as (Hb & Hu & Hc & Hpos).
    split; [|split; [|split]]; [| |exact Hc|exact Hpos].
    + destruct HN' as [-> | (p & HP & Ht & ->)]; [exact Hb|].
      rewrite lookup_delete_ne; [exact Hb|].
      destruct (inv_cached _ _ _ _ _ _ HI id p HP Ht) as [-> _].
      intros Heq. symmetry in Heq. revert Heq. apply tmpPath_ne_filePath.
      rewrite (inv_len _ _ _ _ _ _ HI a ta Ha),
        (inv_key _ _ _ _ _ _ HI id _ HP). reflexivity.
    + intros q Hq. apply Hu. apply Hsub. exact Hq.
  - intros a ta Ha Hreq.
    destruct (inv_pending _ _ _ _ _ _ HI a ta Ha Hreq) as [Hf Hr]. auto.
  - intros id' p HP Ht. rewrite lookup_delete in HP.
    case_decide as E; [discriminate|].
    destruct (inv_cached _ _ _ _ _ _ HI id' p HP Ht)
      as (-> & m & tm & i & Hm & Him & Hr & HN & Hc).
    split; [reflexivity|]. exists m, tm, i.
    rewrite Hother by (intros Heq; apply filePath_inj in Heq; congruence).
    auto.
  - intros id' op HP Hf. rewrite lookup_delete in HP.
    case_decide as E; [discriminate|].
    apply Hnone. eapply (inv_uncached _ _ _ _ _ _ HI); eassumption.
  - intros id' op HP. rewrite lookup_delete in HP.
    case_decide as E; [discriminate|].
    eapply (inv_key _ _ _ _ _ _ HI); eassumption.
Qed.

Lemma Inv_initial : Inv cfg ∅ ∅ 0 [] ∅.
Proof.
  constructor; intros; try discriminate;
    match goal with H : ∅ !! _ = Some _ |- _ => rewrite lookup_empty in H; discriminate end.
Qed.

End Invariant.

(** ** The invariant, event by event *)

Lemma invariant_ext cfg w w' :
  fs w' = fs w → tasks w' = tasks w → paths w' = paths w →
  invariant cfg w → invariant cfg w'.
Proof. unfold invariant. intros -> -> ->. auto. Qed.

Lemma invariant_keeps cfg w w' :
  keeps_files w w' → invariant cfg w → invariant cfg w'.
Proof. intros (H1 & H2 & H3). apply invariant_ext; assumption. Qed.

Lemma invariant_initial cfg : invariant cfg initial_world.
Proof. apply Inv_initial. Qed.

(** [/stream/:id] only touches [lastAccess]. *)
Lemma route_stream_keeps cfg id range now w :
  keeps_files w (snd (route_stream cfg id range now w)).
Proof.
  unfold route_stream, stream, bind, get.
  destruct (videos w !! id) as [info|] eqn:Hv; [|apply keeps_files_refl].
  destruct (negb _ || negb _); [apply keeps_files_refl|].
  unfold lift_res. destruct (Fs.statSync_size _ _) as [total|e];
    [|apply keeps_files_refl].
  unfold modify.
  pose proof (stable_persist cfg (set_videos <[id:=with_lastAccess now info]> w))
    as Hp.
  assert (keeps_files w (set_videos <[id:=with_lastAccess now info]> w)) as H1.
  { split; [reflexivity|]. split; [reflexivity|].
    apply (paths_update w id info (with_lastAccess now)); [exact Hv | reflexivity]. }
  destruct (persist cfg _) as [[[]|e] w1]; cbn [snd] in *;
    eapply keeps_files_trans; eassumption.
Qed.

Lemma set_task_run n ph more w :
  set_task n ph more w
  = (Ok tt, set_tasks (alter (fun t => mkTask (t_id t) (t_url t) ph
                                              (t_received t ++ more)%list) n) w).
Proof. reflexivity. Qed.

(** A download leaves the scene: [/videos] may record the error. *)
Lemma settle_invariant cfg w n t ph (m : M unit) :
  invariant cfg w →
  tasks w !! n = Some t → t_phase t ≠ Received →
  ph = Received ∨ ph = Aborted →
  stable keeps_files m →
  invariant cfg (snd (bind (set_task n ph []) (fun _ => m) w)).
Proof.
  intros HI Hn Hph Hph' Hm.
  rewrite (bind_ok _ _ _ _ _ (set_task_run n ph [] w)).
  eapply invariant_keeps; [apply Hm|].
  unfold invariant. cbn [fs tasks set_tasks].
  change (paths (set_tasks _ w)) with (paths w).
  eapply Inv_settle; [exact HI | exact Hn | exact Hph | | |].
  - apply replaced_alter. exact Hn.
  - reflexivity.
  - exact Hph'.
Qed.

Lemma try_catch_tail {A} (m k : M A) h w w1 :
  m w = k w1 →
  stable keeps_files k → (∀ e, stable keeps_files (h e)) →
  keeps_files w1 (snd (try_catch m h w)).
Proof.
  intros Hrun Hk Hh. unfold try_catch. rewrite Hrun.
  specialize (Hk w1). destruct (k w1) as [[a|e] w2]; cbn [snd] in *;
    [exact Hk|].
  eapply keeps_files_trans; [exact Hk | apply Hh].
Qed.

Lemma stable_download_response_failed cfg n id ow r :
  match r with Ok st => status_ok st = false | Throw _ => True end →
  stable keeps_files (download_response cfg n id ow r).
Proof.
  intros Hr. unfold download_response.
  apply stable_try_catch; [|apply stable_download_catch].
  destruct r as [st|e]; [|apply stable_throw].
  rewrite Hr. destruct (variant cfg); [apply stable_throw|].
  apply stable_bind; [apply stable_assign; reflexivity|]. intros _.
  apply stable_bind; [apply stable_assign; reflexivity|]. intros _.
  apply stable_persist.
Qed.

Lemma open_w_new p (f : FS) :
  names f !! p = None →
  Fs.open_w p f
  = (next_ino f,
     mkFS (<[p := next_ino f]> (names f)) (<[next_ino f := []]> (inodes f))
          (S (next_ino f)) (undeletable f)).
Proof. intros H. unfold Fs.open_w. rewrite H. reflexivity. Qed.

(** The request of a download settles. *)
Lemma responded_invariant cfg w n id url ow rec r :
  invariant cfg w →
  tasks w !! n = Some (mkTask id url (Requesting ow) rec) →
  invariant cfg (snd (bind (set_task n Aborted [])
                           (fun _ => download_response cfg n id ow r) w)).
Proof.
  intros HI Hn.
  destruct (match r with Ok st => status_ok st | Throw _ => false end) eqn:Hok.
  2:{ eapply settle_invariant; [exact HI | exact Hn | discriminate | auto |].
      apply stable_download_response_failed.
      destruct r; [exact Hok | exact I]. }
  destruct r as [st|e]; [|discriminate].
  rewrite (bind_ok _ _ _ _ _ (set_task_run n Aborted [] w)).
  unfold download_response, try_catch, bind. rewrite Hok.
  set (fA := fun t => mkTask (t_id t) (t_url t) Aborted (t_received t ++ [])%list).
  destruct ow as [wr|].
  - unfold ret. rewrite set_task_run. cbn [snd].
    unfold invariant. cbn [fs tasks set_tasks].
    change (paths (set_tasks _ (set_tasks _ w))) with (paths w).
    rewrite list_alter_alter_eq.
    eapply Inv_pipe;
      [exact HI | exact Hn | reflexivity
       | apply replaced_alter; exact Hn | reflexivity | reflexivity |].
    cbn. rewrite !app_nil_r. reflexivity.
  - unfold createWriteStream. cbn [fs set_tasks].
    destruct (inv_pending _ _ _ _ _ _ HI n _ Hn eq_refl) as [Hfree Hnil].
    cbn [t_id t_received] in Hfree, Hnil.
    rewrite (open_w_new _ _ Hfree). rewrite set_task_run. cbn [snd].
    unfold invariant. cbn [fs tasks set_tasks set_fs names inodes next_ino].
    change (paths (set_tasks _ (set_fs _ (set_tasks _ w)))) with (paths w).
    rewrite list_alter_alter_eq.
    eapply (Inv_open cfg _ _ _ _ _ n (mkTask id url (Requesting None) rec));
      [exact HI | exact Hn | reflexivity
       | apply replaced_alter; exact Hn | reflexivity | reflexivity |].
    cbn. rewrite !app_nil_r. reflexivity.
Qed.

(** [pipeline] writes a chunk. *)
Lemma chunk_invariant cfg w n id url wr rec bs :
  invariant cfg w →
  tasks w !! n = Some (mkTask id url (Piping wr) rec) →
  invariant cfg (snd (download_chunk n wr bs w)).
Proof.
  intros HI Hn. unfold download_chunk, bind, modify. rewrite set_task_run.
  cbn [snd]. unfold invariant.
  cbn [fs tasks set_tasks set_fs Fs.write_at names inodes next_ino].
  change (paths (set_tasks _ (set_fs _ w))) with (paths w).
  eapply Inv_chunk;
    [exact HI | exact Hn | reflexivity
     | apply replaced_alter; exact Hn | reflexivity | reflexivity
     | reflexivity].
Qed.

Lemma renameSync_run src dst w i :
  names (fs w) !! src = Some i →
  renameSync src dst w
  = (Ok tt, set_fs (fun _ => mkFS (<[dst := i]> (delete src (names (fs w))))
                                  (inodes (fs w)) (next_ino (fs w))
                                  (undeletable (fs w))) w).
Proof.
  intros H. unfold renameSync, bind, get, lift_res, modify, Fs.renameSync.
  rewrite H. reflexivity.
Qed.

Lemma statSync_size_run p w i :
  names (fs w) !! p = Some i →
  ∃ sz, statSync_size p w = (Ok sz, w).
Proof.
  intros H. unfold statSync_size, bind, get, lift_res, Fs.statSync_size,
    Fs.content. rewrite H. cbn. eauto.
Qed.

Lemma paths_insert w id e :
  paths (set_videos (<[id := e]>) w) = <[id := e_path e]> (paths w).
Proof. unfold paths. cbn. apply fmap_insert. Qed.

Lemma paths_lookup w id :
  paths w !! id = e_path <$> videos w !! id.
Proof. unfold paths. apply lookup_fmap. Qed.

(** What [downloadFull] does once [pipeline] has resolved, the temporary
    file being there: the file is renamed and the entry, if [videos] still
    has it, gets the final path; an exception after that changes neither. *)
Lemma download_finish_effect cfg id now w i :
  names (fs w) !! tmpPath_of cfg id = Some i →
  let w' := snd (download_finish cfg id now w) in
  fs w' = mkFS (<[filePath_of cfg id := i]>
                  (delete (tmpPath_of cfg id) (names (fs w))))
               (inodes (fs w)) (next_ino (fs w)) (undeletable (fs w))
  ∧ tasks w' = tasks w
  ∧ ((paths w !! id = None ∧ paths w' = paths w)
     ∨ (is_Some (paths w !! id)
        ∧ paths w' = <[id := Some (filePath_of cfg id)]> (paths w))).
Proof.
  intros Hi. cbv zeta. unfold download_finish.
  set (w2 := set_fs (fun _ => mkFS (<[filePath_of cfg id := i]>
                                      (delete (tmpPath_of cfg id) (names (fs w))))
                                   (inodes (fs w)) (next_ino (fs w))
                                   (undeletable (fs w))) w).
  pose proof (renameSync_run (tmpPath_of cfg id) (filePath_of cfg id) w i Hi)
    as Hren. fold w2 in Hren.
  assert (names (fs w2) !! filePath_of cfg id = Some i) as Hfinal
      by apply lookup_insert_eq.
  destruct (videos w !! id) as [e0|] eqn:Hv.
  - (* the entry is there *)
    set (e1 := with_status ready e0).
    set (w3 := set_videos (<[id := e1]>) w2).
    assert (assign id "status" (with_status ready) w2 = (Ok tt, w3)) as H3
        by (apply assign_some; exact Hv).
    destruct (variant cfg) eqn:Hvar; cbv iota.
    + set (w4 := set_videos (<[id := with_path (filePath_of cfg id) e1]>) w3).
      assert (assign id "path" (with_path (filePath_of cfg id)) w3 = (Ok tt, w4))
        as H4 by (apply assign_some; apply lookup_insert_eq).
      match goal with
      | |- context [try_catch (bind ?r (fun _ => bind ?a (fun _ => bind (bind ?b ?k1) ?k2)))] =>
          assert (keeps_files w4
                    (snd (try_catch
                            (bind r (fun _ => bind a (fun _ => bind (bind b k1) k2)))
                            (download_catch cfg id) w))) as Hk
      end.
      { eapply (try_catch_tail _ _ _ _ w4).
        - rewrite (bind_ok _ _ _ _ _ Hren), (bind_ok _ _ _ _ _ H3).
          rewrite bind_assoc, (bind_ok _ _ _ _ _ H4). reflexivity.
        - apply stable_bind.
          + apply stable_bind; [intros w0; apply keeps_files_refl|].
            intros sz. apply stable_assign. reflexivity.
          + intros _. apply stable_bind; [apply stable_assign; reflexivity|].
            intros _. apply stable_bind; [apply stable_persist|].
            intros _. apply stable_console_log.
        - apply stable_download_catch. }
      destruct Hk as (Hf & Ht & Hp).
      split; [rewrite Hf; reflexivity|]. split; [rewrite Ht; reflexivity|].
      right. split; [rewrite paths_lookup, Hv; eauto|].
      rewrite Hp. unfold w4, w3. rewrite !paths_insert, insert_insert_eq.
      reflexivity.
    + destruct (statSync_size_run (filePath_of cfg id) w3 i Hfinal) as [sz Hsz].
      set (w4 := set_videos (<[id := with_size sz e1]>) w3).
      assert (assign id "size" (with_size sz) w3 = (Ok tt, w4))
        as H4 by (apply assign_some; apply lookup_insert_eq).
      set (w5 := set_videos (<[id := with_path (filePath_of cfg id)
                                               (with_size sz e1)]>) w4).
      assert (assign id "path" (with_path (filePath_of cfg id)) w4 = (Ok tt, w5))
        as H5 by (apply assign_some; apply lookup_insert_eq).
      match goal with
      | |- context [try_catch (bind ?r (fun _ => bind ?a (fun _ => bind ?b ?k2)))] =>
          assert (keeps_files w5
                    (snd (try_catch
                            (bind r (fun _ => bind a (fun _ => bind b k2)))
                            (download_catch cfg id) w))) as Hk
      end.
      { eapply (try_catch_tail _ _ _ _ w5).
        - rewrite (bind_ok _ _ _ _ _ Hren), (bind_ok _ _ _ _ _ H3).
          rewrite bind_assoc, (bind_ok _ _ _ _ _ Hsz).
          rewrite bind_assoc, (bind_ok _ _ _ _ _ H4), (bind_ok _ _ _ _ _ H5).
          reflexivity.
        - apply stable_bind; [apply stable_assign; reflexivity|].
          intros _. apply stable_bind; [apply stable_persist|].
          intros _. apply stable_console_log.
        - apply stable_download_catch. }
      destruct Hk as (Hf & Ht & Hp).
      split; [rewrite Hf; reflexivity|]. split; [rewrite Ht; reflexivity|].
      right. split; [rewrite paths_lookup, Hv; eauto|].
      rewrite Hp. unfold w5, w4, w3. rewrite !paths_insert, !insert_insert_eq.
      reflexivity.
  - (* the entry is gone: the first assignment throws *)
    destruct (assign_none id "status" (with_status ready) w2 Hv) as [e He].
    match goal with
    | |- context [try_catch ?m ?h w] =>
        assert (keeps_files w2 (snd (try_catch m h w))) as Hk
    end.
    { eapply (try_catch_tail _ (throw e) _ _ w2).
      - rewrite (bind_ok _ _ _ _ _ Hren), (bind_throw _ _ _ _ _ He).
        reflexivity.
      - apply stable_throw.
      - apply stable_download_catch. }
    destruct Hk as (Hf & Ht & Hp).
    split; [rewrite Hf; reflexivity|]. split; [rewrite Ht; reflexivity|].
    left. split; [rewrite paths_lookup, Hv; reflexivity|].
    rewrite Hp. reflexivity.
Qed.

(** [pipeline] of a download resolves. *)
Lemma finished_invariant cfg w n id url wr rec now :
  invariant cfg w →
  tasks w !! n = Some (mkTask id url (Piping wr) rec) →
  invariant cfg (snd (bind (set_task n Received [])
                           (fun _ => download_finish cfg id now) w)).
Proof.
  intros HI Hn.
  rewrite (bind_ok _ _ _ _ _ (set_task_run n Received [] w)).
  set (w1 := set_tasks _ w).
  destruct (inv_writer _ _ _ _ _ _ HI n _ wr Hn eq_refl) as (Hb & _).
  cbn [t_id] in Hb.
  destruct (download_finish_effect cfg id now w1 (w_ino wr) Hb)
    as (Hfs & Ht & Hp).
  unfold invariant. rewrite Hfs, Ht. cbn [names inodes next_ino].
  eapply (Inv_finish cfg _ _ _ _ _ n (mkTask id url (Piping wr) rec) wr);
    [exact HI | exact Hn | reflexivity
     | apply replaced_alter; exact Hn | reflexivity | reflexivity | |].
  - cbn. apply app_nil_r.
  - exact Hp.
Qed.

Lemma replaced_snoc (T : list Task) t t' :
  replaced (T ++ [t]) (length T) t' (T ++ [t']).
Proof.
  intros j. case_decide as E.
  - subst j. rewrite lookup_app_r by lia. rewrite Nat.sub_diag. reflexivity.
  - destruct (decide (j < length T)%nat).
    + rewrite !lookup_app_l by assumption. reflexivity.
    + rewrite !lookup_app_r by lia.
      destruct (j - length T)%nat eqn:Ej; [lia | reflexivity].
Qed.

Lemma not_elem_ids (T : list Task) id :
  id ∉ t_id <$> T → ∀ n t, T !! n = Some t → t_id t ≠ id.
Proof.
  intros Hni n t Hn Heq. apply Hni. apply list_elem_of_fmap.
  exists t. split; [congruence|]. eapply list_elem_of_lookup_2. exact Hn.
Qed.

Lemma createWriteStream_new p w :
  names (fs w) !! p = None →
  createWriteStream p w
  = (Ok (mkWriter (next_ino (fs w)) 0),
     set_fs (fun _ => mkFS (<[p := next_ino (fs w)]> (names (fs w)))
                           (<[next_ino (fs w) := []]> (inodes (fs w)))
                           (S (next_ino (fs w))) (undeletable (fs w))) w).
Proof.
  intros H. unfold createWriteStream. rewrite (open_w_new _ _ H). reflexivity.
Qed.

Lemma download_start_run cfg url id w :
  names (fs w) !! tmpPath_of cfg id = None →
  download_start cfg url id w
  = (Ok tt,
     match variant cfg with
     | VideoProxyServer =>
         set_tasks
           (fun ts => ts ++ [mkTask id url
                                    (Requesting (Some (mkWriter (next_ino (fs w)) 0)))
                                    []])%list
           (set_fs (fun _ => mkFS (<[tmpPath_of cfg id := next_ino (fs w)]>
                                     (names (fs w)))
                                  (<[next_ino (fs w) := []]> (inodes (fs w)))
                                  (S (next_ino (fs w))) (undeletable (fs w))) w)
     | MainframeServer =>
         set_tasks (fun ts => ts ++ [mkTask id url (Requesting None) []])%list w
     end).
Proof.
  intros H. unfold download_start. destruct (variant cfg).
  - rewrite bind_assoc, (bind_ok _ _ _ _ _ (createWriteStream_new _ _ H)).
    reflexivity.
  - reflexivity.
Qed.

(** [/add] with an id no download has used. *)
Lemma add_invariant cfg w url now now' :
  invariant cfg w →
  (∀ id, minted cfg (GetAdd url now now') = Some id → id ∉ t_id <$> tasks w) →
  invariant cfg (snd (add cfg url now now' w)).
Proof.
  intros HI Hfresh. unfold add.
  destruct url as [url|]; cbn [JS.truthy_opt negb]; [|exact HI].
  cbn [minted] in Hfresh. cbn [from_option Datatypes.id].
  destruct (JS.truthy url); cbn [negb andb] in *; [|exact HI].
  destruct (parses_as_URL cfg url); cbn [negb] in *; [|exact HI].
  specialize (Hfresh _ eq_refl).
  pose proof (not_elem_ids _ _ Hfresh) as Hnew.
  pose proof (genId_length url now) as Hlen.
  set (id := genId url now) in *.
  set (w1 := set_videos (<[id := mkEntry id (Some url) downloading None None
                                         (Some now') None None]>) w).
  assert (invariant cfg w1) as H1.
  { unfold invariant, w1. rewrite paths_insert. cbn [fs tasks set_videos e_path].
    apply Inv_add_entry; assumption. }
  assert (∀ f, modify f w = (Ok tt, f w)) as Hmod by reflexivity.
  rewrite (bind_ok _ _ _ _ _ (Hmod _)). fold w1.
  pose proof (stable_persist cfg w1) as Hp.
  destruct (persist cfg w1) as [[[]|e] w2] eqn:Epers; cbn [snd] in Hp.
  2:{ rewrite (bind_throw _ _ _ _ _ Epers). cbn [snd].
      eapply invariant_keeps; eassumption. }
  rewrite (bind_ok _ _ _ _ _ Epers).
  assert (invariant cfg w2) as H2 by (eapply invariant_keeps; eassumption).
  assert (∀ n t, tasks w2 !! n = Some t → t_id t ≠ id) as Hnew2.
  { destruct Hp as (_ & -> & _). exact Hnew. }
  destruct (fresh_id_no_file cfg _ _ _ _ _ id H2 Hlen Hnew2) as [_ Htmp].
  rewrite (bind_ok _ _ _ _ _ (download_start_run cfg url id w2 Htmp)).
  unfold ret. cbn [snd].
  destruct (variant cfg).
  - unfold invariant.
    cbn [fs tasks set_tasks set_fs names inodes next_ino].
    change (paths (set_tasks _ (set_fs _ w2))) with (paths w2).
    eapply (Inv_open cfg _ _ _ _ _ (length (tasks w2))
                     (mkTask id url (Requesting None) []));
      [apply Inv_add_task; [exact H2 | exact Hlen | exact Hnew2]
       | apply list_lookup_middle; reflexivity | reflexivity
       | apply replaced_snoc | reflexivity | reflexivity | reflexivity].
  - unfold invariant. cbn [fs tasks set_tasks].
    change (paths (set_tasks _ w2)) with (paths w2).
    apply Inv_add_task; assumption.
Qed.

Lemma paths_delete w id :
  paths (set_videos (delete id) w) = delete id (paths w).
Proof. unfold paths. cbn. apply fmap_delete. Qed.

(** The file system after a call of [unlinkSync] whose exception, if any,
    is swallowed. *)
Lemma unlink_swallowed p (f : FS) :
  let f' := match Fs.unlinkSync p f with Ok f' => f' | Throw _ => f end in
  inodes f' = inodes f ∧ next_ino f' = next_ino f
  ∧ (names f' = names f ∨ names f' = delete p (names f)).
Proof.
  cbv zeta. unfold Fs.unlinkSync.
  destruct (names f !! p); [|auto]. case_decide; cbn; auto.
Qed.

(** One turn of the cleanup loop. *)
Lemma sweep_entry_invariant cfg now w id info :
  invariant cfg w → videos w !! id = Some info →
  invariant cfg (sweep_entry cfg now w (id, info)).
Proof.
  intros HI Hv. unfold sweep_entry.
  destruct (JS.truthy_opt (e_path info)) eqn:Ht; cbn [negb]; [|exact HI].
  destruct (_ <? _); [|exact HI].
  destruct (e_path info) as [p|] eqn:Hp; [|discriminate]. cbn in Ht.
  cbn [from_option Datatypes.id].
  destruct (unlink_swallowed p (fs w)) as (Hi & Hx & Hn).
  assert (fs match Fs.unlinkSync p (fs w) with
             | Ok fs' => set_fs (λ _ : FS, fs') w
             | Throw _ => w
             end
          = match Fs.unlinkSync p (fs w) with Ok f' => f' | Throw _ => fs w end)
    as Hfs by (destruct (Fs.unlinkSync p (fs w)); reflexivity).
  assert (paths match Fs.unlinkSync p (fs w) with
                | Ok fs' => set_fs (λ _ : FS, fs') w
                | Throw _ => w
                end = paths w)
    as Hpaths by (destruct (Fs.unlinkSync p (fs w)); reflexivity).
  assert (tasks match Fs.unlinkSync p (fs w) with
                | Ok fs' => set_fs (λ _ : FS, fs') w
                | Throw _ => w
                end = tasks w)
    as Htasks by (destruct (Fs.unlinkSync p (fs w)); reflexivity).
  unfold invariant. cbn [fs tasks add_console set_videos].
  change (paths (add_console ?l (set_videos (delete id) ?x)))
    with (paths (set_videos (delete id) x)).
  rewrite paths_delete, Hpaths, Htasks, Hfs, Hi, Hx.
  eapply Inv_evict; [exact HI|].
  destruct Hn as [-> | ->]; [left; reflexivity|].
  right. exists p. rewrite paths_lookup, Hv. cbn. rewrite Hp. auto.
Qed.

Lemma sweep_entry_other cfg now w id info k :
  k ≠ id → videos (sweep_entry cfg now w (id, info)) !! k = videos w !! k.
Proof.
  intros Hne. rewrite sweep_entry_videos.
  case_decide as E; [destruct E; congruence | reflexivity].
Qed.

Lemma sweep_loop_invariant cfg now l : ∀ w,
  NoDup l.*1 →
  (∀ id info, (id, info) ∈ l → videos w !! id = Some info) →
  invariant cfg w →
  invariant cfg (foldl (sweep_entry cfg now) w l).
Proof.
  induction l as [|[id info] l IH]; intros w Hnd Hl HI; [exact HI|].
  cbn [foldl]. cbn in Hnd. apply NoDup_cons in Hnd as [Hni Hnd].
  apply IH; [exact Hnd | |].
  - intros k i Hk. rewrite sweep_entry_other.
    + apply Hl. apply elem_of_cons. auto.
    + intros ->. apply Hni. apply list_elem_of_fmap. exists (id, i). auto.
  - apply sweep_entry_invariant; [exact HI|]. apply Hl. apply elem_of_cons. auto.
Qed.

(** The cleanup task. *)
Lemma sweep_invariant cfg now w :
  invariant cfg w → invariant cfg (snd (sweep cfg now w)).
Proof.
  intros HI. unfold sweep, bind, get, modify. cbv beta iota.
  eapply invariant_keeps; [apply stable_persist|].
  apply sweep_loop_invariant; [apply NoDup_fst_map_to_list | | exact HI].
  intros id info H. apply elem_of_map_to_list. exact H.
Qed.

(** [/admin/delete]. *)
Lemma admin_delete_invariant cfg id w :
  invariant cfg w → invariant cfg (snd (admin_delete cfg id w)).
Proof.
  intros HI. unfold admin_delete.
  destruct (JS.truthy_opt id); cbn [negb]; [|exact HI].
  unfold bind at 1. unfold get at 1.
  destruct (videos w !! default "" id) as [info|] eqn:Hv; [|exact HI].
  set (k := default "" id) in *.
  assert (∃ w1, (if JS.truthy_opt (e_path info)
                    && Fs.existsSync (default "" (e_path info)) (fs w)
                 then match Fs.unlinkSync (default "" (e_path info)) (fs w) with
                      | Ok fs' => modify (set_fs (fun _ => fs'))
                      | Throw _ => ret tt
                      end
                 else ret tt) w = (Ok tt, w1)
                ∧ invariant cfg (set_videos (delete k) w1)) as (w1 & Hrun & H1).
  { destruct (JS.truthy_opt (e_path info)) eqn:Ht; cbn [andb].
    2:{ exists w. split; [reflexivity|].
        unfold invariant. rewrite paths_delete. cbn [fs tasks set_videos].
        eapply Inv_evict; [exact HI | auto]. }
    destruct (Fs.existsSync _ _).
    2:{ exists w. split; [reflexivity|].
        unfold invariant. rewrite paths_delete. cbn [fs tasks set_videos].
        eapply Inv_evict; [exact HI | auto]. }
    destruct (e_path info) as [p|] eqn:Hp; [|discriminate]. cbn in Ht.
    cbn [from_option Datatypes.id].
    destruct (unlink_swallowed p (fs w)) as (Hi & Hx & Hn).
    destruct (Fs.unlinkSync p (fs w)) as [f'|e].
    - exists (set_fs (fun _ => f') w). split; [reflexivity|].
      unfold invariant. rewrite paths_delete.
      cbn [fs tasks set_videos set_fs].
      change (paths (set_fs _ w)) with (paths w). rewrite Hi, Hx.
      eapply Inv_evict; [exact HI|].
      destruct Hn as [-> | ->]; [left; reflexivity|].
      right. exists p. rewrite paths_lookup, Hv. cbn. rewrite Hp. auto.
    - exists w. split; [reflexivity|].
      unfold invariant. rewrite paths_delete. cbn [fs tasks set_videos].
      eapply Inv_evict; [exact HI | auto]. }
  rewrite (bind_ok _ _ _ _ _ Hrun).
  assert (∀ f w0, modify f w0 = (Ok tt, f w0)) as Hmod by reflexivity.
  rewrite (bind_ok _ _ _ _ _ (Hmod _ _)).
  pose proof (stable_persist cfg (set_videos (delete k) w1)) as Hp.
  destruct (persist cfg _) as [[[]|e] w2] eqn:Epers; cbn [snd] in Hp.
  - rewrite (bind_ok _ _ _ _ _ Epers). unfold ret. cbn [snd].
    eapply invariant_keeps; eassumption.
  - rewrite (bind_throw _ _ _ _ _ Epers). cbn [snd].
    eapply invariant_keeps; eassumption.
Qed.

(** Every turn of the event loop keeps the invariant, provided that an
    [/add] does not generate an id already used. *)
Lemma step_invariant cfg ev w :
  invariant cfg w →
  (∀ id, minted cfg ev = Some id → id ∉ t_id <$> tasks w) →
  invariant cfg (snd (step cfg ev w)).
Proof.
  intros HI Hfresh. destruct ev as [url now now'|id range now|id|now|n r|n bs|n now|n e|b];
    cbn [step].
  - pose proof (add_invariant cfg w url now now' HI Hfresh) as H.
    destruct (add cfg url now now' w) as [[r|e] w']; exact H.
  - pose proof (route_stream_keeps cfg id range now w) as H.
    destruct (route_stream cfg id range now w) as [r w']. cbn [snd] in *.
    eapply invariant_keeps; eassumption.
  - destruct (variant cfg); [|exact HI].
    pose proof (admin_delete_invariant cfg id w HI) as H.
    destruct (admin_delete cfg id w) as [[r|e] w']; exact H.
  - apply sweep_invariant. exact HI.
  - destruct (tasks w !! n) as [[id url [ow|wr| |] rec]|] eqn:Hn; try exact HI.
    eapply responded_invariant; eassumption.
  - destruct (tasks w !! n) as [[id url [ow|wr| |] rec]|] eqn:Hn; try exact HI.
    eapply chunk_invariant; eassumption.
  - destruct (tasks w !! n) as [[id url [ow|wr| |] rec]|] eqn:Hn; try exact HI.
    eapply finished_invariant; eassumption.
  - destruct (tasks w !! n) as [[id url [ow|wr| |] rec]|] eqn:Hn; try exact HI.
    eapply settle_invariant;
      [exact HI | exact Hn | discriminate | auto | apply stable_download_catch].
  - exact HI.
Qed.

Lemma exec_invariant cfg evs : ∀ w,
  invariant cfg w → fresh_ids cfg evs w → invariant cfg (exec cfg evs w).
Proof.
  induction evs as [|ev evs IH]; intros w HI Hf; [exact HI|].
  destruct Hf as [Hev Hrest].
  change (exec cfg (ev :: evs) w) with (exec cfg evs (snd (step cfg ev w))).
  apply IH; [|exact Hrest]. apply step_invariant; assumption.
Qed.

(** ** The fetcher and the files the stream server sees *)

Lemma route_stream_served cfg w id info p data range now :
  videos w !! id = Some info →
  e_path info = Some p → JS.truthy p = true →
  Fs.content p (fs w) = Some data →
  fst (route_stream cfg id range now w)
  = send_file range (Z.of_nat (length data)) data
  ∨ status (fst (route_stream cfg id range now w)) = 500.
Proof.
  intros Hv Hp Ht Hc.
  unfold route_stream, stream, bind, get. rewrite Hv, Hp.
  cbn [JS.truthy_opt from_option Datatypes.id].
  rewrite Ht, (content_exists _ _ _ Hc). cbn [negb orb].
  unfold lift_res, Fs.statSync_size. rewrite Hc. unfold modify.
  destruct (persist cfg _) as [[[]|e] w']; [left | right]; reflexivity.
Qed.

(** While a download is in flight, and no id is generated twice, its id
    is answered 404. *)
Lemma stream_in_flight_404 cfg evs n t range now :
  fresh_ids cfg evs initial_world →
  let w := exec cfg evs initial_world in
  tasks w !! n = Some t →
  t_phase t ≠ Received →
  fst (route_stream cfg (t_id t) range now w) = json_error 404 "not cached".
Proof.
  intros Hfresh. cbv zeta. intros Hn Hph.
  pose proof (exec_invariant cfg evs initial_world (invariant_initial cfg) Hfresh)
    as HI. unfold invariant in HI.
  destruct (route_stream_cases cfg (exec cfg evs initial_world) (t_id t) range now)
    as [[Heq _] | (_ & info & Hv & Ht & _)]; [exact Heq|].
  exfalso. destruct (e_path info) as [p|] eqn:Hp; [|discriminate]. cbn in Ht.
  destruct (inv_cached _ _ _ _ _ _ HI (t_id t) p) as (_ & m & tm & i & Hm & Hid & Hrec & _).
  - rewrite paths_lookup, Hv. cbn. rewrite Hp. reflexivity.
  - exact Ht.
  - assert (m = n) as -> by (eapply (inv_unique _ _ _ _ _ _ HI); eassumption).
    congruence.
Qed.

(** C6, as the code has it.  [/stream/:id] answers 404 with the body
    [{"error": "not cached"}] exactly when the entry is absent, or its
    [path] is missing (or empty), or no file exists at its [path].  An id
    that is not in the store is answered so, and so is the id an accepted
    [/add] has just returned.  An id whose download is in flight is
    answered so as long as no [/add] has generated an id that an earlier
    one had generated. *)
Theorem stream_404_iff_not_cached cfg w id range now :
  let r := fst (route_stream cfg id range now w) in
  ((status r = 404 ∧ body r = Json [("error", "not cached")])
   ↔ (videos w !! id = None
      ∨ (∃ info, videos w !! id = Some info
                 ∧ JS.truthy_opt (e_path info) = false)
      ∨ (∃ info, videos w !! id = Some info
                 ∧ Fs.existsSync (default "" (e_path info)) (fs w) = false)))
  ∧ (videos w !! id = None → r = json_error 404 "not cached")
  ∧ (∀ url t t' w0 answer,
        step cfg (GetAdd (Some url) t t') w0 = (Some answer, w) →
        status answer = 200 → id = genId url t →
        r = json_error 404 "not cached")
  ∧ (∀ evs n t,
        fresh_ids cfg evs initial_world →
        w = exec cfg evs initial_world →
        tasks w !! n = Some t → t_id t = id → t_phase t ≠ Received →
        r = json_error 404 "not cached").
Proof.
  cbv zeta.
  destruct (stream_not_cached_cases cfg w id range now) as (Hiff & Habs & Hadd).
  split; [exact Hiff|]. split; [exact Habs|]. split; [exact Hadd|].
  intros evs n t Hfresh -> Hn <- Hph.
  apply (stream_in_flight_404 cfg evs n t range now Hfresh Hn Hph).
Qed.

Lemma stream_404_iff_not_cached_witness :
  let cfg := sample_config VideoProxyServer in
  let w := exec cfg sample_piping initial_world in
  (∃ t wr, tasks w !! 0%nat = Some t ∧ t_id t = sample_id
           ∧ t_phase t = Piping wr)
  ∧ fst (route_stream cfg sample_id None 1700013944000 w)
    = json_error 404 "not cached".
Proof.
  intros cfg w. split.
  - eexists _, _. vm_compute. repeat split.
  - destruct (stream_404_iff_not_cached cfg w sample_id None 1700013944000)
      as (_ & _ & _ & H).
    apply (H sample_piping 0%nat
             (mkTask sample_id sample_url
                     (Piping (mkWriter 0 11)) (bytes_of "hello world"))).
    + cbn [fresh_ids sample_piping].
      split; [intros id _; apply not_elem_of_nil|].
      repeat (split; [intros id [=]|]). exact I.
    + reflexivity.
    + vm_compute. reflexivity.
    + reflexivity.
    + discriminate.
Defined.

(** C6 as stated fails in both servers: once two downloads share an id
    and the first has finished, the id is served while the second is
    still in flight. *)
Lemma stream_in_flight_served_counterexample :
  served_while_downloading MainframeServer colliding_downloads_mainframe
  ∧ served_while_downloading VideoProxyServer colliding_downloads_proxy.
Proof.
  split.
  - split; [eexists _, _; vm_compute; repeat split|].
    vm_compute. reflexivity.
  - split; [eexists _, _; vm_compute; repeat split|].
    vm_compute. reflexivity.
Qed.

(** C3, as the code has it.  Provided that no [/add] generates an id
    already used by an earlier one: every write stream of a download in
    flight is open on the temporary file of that download, which has no
    other name and whose path is the final path of no entry; an entry has
    a [path] exactly when a file is at its final path, and then [path] is
    that final path, the file holds the whole body the finished download
    received, and no write stream is open on it; and whenever
    [/stream/:id] answers 200 or 206, what it serves is taken from that
    whole body. *)
Theorem fetcher_promotes_whole_files cfg evs :
  fresh_ids cfg evs initial_world →
  let w := exec cfg evs initial_world in
  (∀ n t wr, tasks w !! n = Some t → writer_of (t_phase t) = Some wr →
     names (fs w) !! tmpPath_of cfg (t_id t) = Some (w_ino wr)
     ∧ (∀ p, names (fs w) !! p = Some (w_ino wr) → p = tmpPath_of cfg (t_id t))
     ∧ (∀ id, is_Some (videos w !! id) →
              tmpPath_of cfg (t_id t) ≠ filePath_of cfg id))
  ∧ (∀ id e, videos w !! id = Some e →
       (JS.truthy_opt (e_path e) = true
        ↔ Fs.existsSync (filePath_of cfg id) (fs w) = true)
       ∧ (JS.truthy_opt (e_path e) = true →
          e_path e = Some (filePath_of cfg id)
          ∧ (∃ n t, tasks w !! n = Some t ∧ t_id t = id
                    ∧ t_phase t = Received
                    ∧ Fs.content (filePath_of cfg id) (fs w)
                      = Some (t_received t))
          ∧ (∀ m t' wr, tasks w !! m = Some t' →
                        writer_of (t_phase t') = Some wr →
                        names (fs w) !! filePath_of cfg id
                        ≠ Some (w_ino wr))))
  ∧ (∀ id range now,
       let r := fst (route_stream cfg id range now w) in
       status r = 200 ∨ status r = 206 →
       ∃ n t, tasks w !! n = Some t ∧ t_id t = id ∧ t_phase t = Received
              ∧ r = send_file range (Z.of_nat (length (t_received t)))
                              (t_received t)).
Proof.
  intros Hfresh. cbv zeta.
  pose proof (exec_invariant cfg evs initial_world (invariant_initial cfg) Hfresh)
    as HI.
  set (w := exec cfg evs initial_world) in *. unfold invariant in HI.
  assert (∀ id e, videos w !! id = Some e → JS.truthy_opt (e_path e) = true →
            e_path e = Some (filePath_of cfg id)
            ∧ ∃ n t i, tasks w !! n = Some t ∧ t_id t = id
                       ∧ t_phase t = Received
                       ∧ names (fs w) !! filePath_of cfg id = Some i
                       ∧ inodes (fs w) !! i = Some (t_received t)) as Hcached.
  { intros id e Hv Ht. destruct (e_path e) as [p|] eqn:Hp; [|discriminate].
    cbn in Ht.
    assert (paths w !! id = Some (Some p)) as HP
        by (rewrite paths_lookup, Hv; cbn; rewrite Hp; reflexivity).
    destruct (inv_cached _ _ _ _ _ _ HI id p HP Ht) as (-> & Hrest).
    split; [reflexivity | exact Hrest]. }
  split; [|split].
  - intros n t wr Hn Hw.
    destruct (inv_writer _ _ _ _ _ _ HI n t wr Hn Hw) as (Hb & Hu & _).
    split; [exact Hb|]. split; [exact Hu|].
    intros id [e He]. apply tmpPath_ne_filePath.
    rewrite (inv_len _ _ _ _ _ _ HI n t Hn).
    symmetry. apply (inv_key _ _ _ _ _ _ HI id (e_path e)).
    rewrite paths_lookup, He. reflexivity.
  - intros id e Hv. split; [split|].
    + intros Ht. destruct (Hcached id e Hv Ht) as (_ & n & t & i & _ & _ & _ & HN & _).
      apply bool_decide_eq_true. eauto.
    + intros Hex. destruct (JS.truthy_opt (e_path e)) eqn:Ht; [reflexivity|].
      apply bool_decide_eq_true in Hex as [i Hi].
      rewrite (inv_uncached _ _ _ _ _ _ HI id (e_path e)) in Hi;
        [discriminate | | exact Ht].
      rewrite paths_lookup, Hv. reflexivity.
    + intros Ht.
      destruct (Hcached id e Hv Ht) as (Hp & n & t & i & Hn & Hid & Hph & HN & Hc).
      split; [exact Hp|]. split.
      * exists n, t. split; [exact Hn|]. split; [exact Hid|].
        split; [exact Hph|]. unfold Fs.content. rewrite HN. cbn. rewrite Hc.
        reflexivity.
      * intros m t' wr Hm Hw Heq.
        destruct (inv_writer _ _ _ _ _ _ HI m t' wr Hm Hw) as (_ & Hu & _).
        specialize (Hu _ Heq). symmetry in Hu. revert Hu.
        apply tmpPath_ne_filePath.
        rewrite (inv_len _ _ _ _ _ _ HI m t' Hm), <- Hid.
        symmetry. apply (inv_len _ _ _ _ _ _ HI n t Hn).
  - intros id range now Hst.
    destruct (route_stream_cases cfg w id range now)
      as [[Heq _] | (_ & info & Hv & Ht & _)].
    { rewrite Heq in Hst. destruct Hst; discriminate. }
    destruct (Hcached id info Hv Ht) as (Hp & n & t & i & Hn & Hid & Hph & HN & Hc).
    exists n, t. split; [exact Hn|]. split; [exact Hid|]. split; [exact Hph|].
    destruct (route_stream_served cfg w id info (filePath_of cfg id)
                                  (t_received t) range now Hv Hp
                                  (filePath_truthy cfg id)) as [H | H].
    + unfold Fs.content. rewrite HN. cbn. rewrite Hc. reflexivity.
    + exact H.
    + rewrite H in Hst. destruct Hst; discriminate.
Qed.

Lemma fetcher_promotes_whole_files_witness :
  let cfg := sample_config MainframeServer in
  let w := exec cfg sample_download initial_world in
  let r := fst (route_stream cfg sample_id None 1700013944000 w) in
  ∃ n t, tasks w !! n = Some t ∧ t_id t = sample_id ∧ t_phase t = Received
         ∧ r = send_file None (Z.of_nat (length (t_received t))) (t_received t).
Proof.
  intros cfg w r.
  assert (fresh_ids cfg sample_download initial_world) as Hfresh.
  { cbn [fresh_ids sample_download].
    split; [intros id _; apply not_elem_of_nil|].
    repeat (split; [intros id [=]|]). exact I. }
  destruct (fetcher_promotes_whole_files cfg sample_download Hfresh)
    as (_ & _ & H).
  apply (H sample_id None 1700013944000). left. vm_compute. reflexivity.
Defined.

(** C3 as stated fails in both servers. *)
Lemma fetcher_partial_file_counterexample :
  partial_file_served MainframeServer colliding_downloads_mainframe
    (repeat Byte.x00 6 ++ bytes_of "world") (bytes_of "hello world")
  ∧ partial_file_served VideoProxyServer colliding_downloads_proxy
      (bytes_of "HEllo world") (bytes_of "hello world").
Proof.
  split.
  - split; [vm_compute; split; reflexivity|].
    split; [eexists _, _; vm_compute; repeat split|].
    split; [vm_compute; split; reflexivity|].
    vm_compute. repeat split. discriminate.
  - split; [vm_compute; split; reflexivity|].
    split; [eexists _, _; vm_compute; repeat split|].
    split; [vm_compute; split; reflexivity|].
    vm_compute. repeat split. discriminate.
Qed.
(** * Further properties of the handlers *)

(** ** [/stream/:id]: the whole file, open and suffix ranges *)

Lemma cached_stream cfg w id info data range now :
  cached w id info data → persist_succeeds cfg w →
  ∃ w', route_stream cfg id range now w
        = (send_file range (Z.of_nat (length data)) data, w')
        ∧ videos w' = <[id := with_lastAccess now info]> (videos w)
        ∧ fs w' = fs w.
Proof.
  intros (Hv & Ht & Hc) Hok.
  destruct (e_path info) as [p|] eqn:Hp; [|discriminate].
  eapply stream_cached; eauto.
Qed.

(** X1.  A request without a Range header (or with an empty one) for a
    cached file is answered 200 with the whole file, its length in
    [Content-Length], and [Accept-Ranges: bytes]; the entry's [lastAccess]
    becomes the time of the request and no file is touched.  This holds
    whenever [persist()] does not throw: always in [video-proxy-server],
    and in the mainframe server while [videos.json] can be written. *)
Theorem stream_whole_file_200 cfg w id info data range now :
  cached w id info data → persist_succeeds cfg w →
  JS.truthy_opt range = false →
  let r := fst (route_stream cfg id range now w) in
  let w' := snd (route_stream cfg id range now w) in
  status r = 200
  ∧ body r = Bytes data
  ∧ header "Content-Length" (headers r)
    = Some (JS.dec (Z.of_nat (length data)))
  ∧ header "Content-Type" (headers r) = Some "video/mp4"
  ∧ header "Accept-Ranges" (headers r) = Some "bytes"
  ∧ header "Cache-Control" (headers r) = Some "no-store"
  ∧ videos w' = <[id := with_lastAccess now info]> (videos w)
  ∧ fs w' = fs w.
Proof.
  intros Hc Hok Hr. cbv zeta.
  destruct (cached_stream cfg w id info data range now Hc Hok)
    as (w' & Hrun & Hv & Hfs).
  rewrite Hrun. cbn [fst snd]. unfold send_file. rewrite Hr.
  cbn [status body headers]. repeat split; assumption.
Qed.

Lemma stream_whole_file_200_witness :
  let r := fst (route_stream (sample_config VideoProxyServer) sample_id None
                             1700013950000 (sample_world VideoProxyServer)) in
  status r = 200 ∧ body r = Bytes (bytes_of "hello world")
  ∧ header "Content-Length" (headers r) = Some "11".
Proof.
  intro r.
  destruct (stream_whole_file_200 (sample_config VideoProxyServer)
              (sample_world VideoProxyServer) sample_id sample_entry
              (bytes_of "hello world") None 1700013950000)
    as (H1 & H2 & H3 & _);
    [repeat split; vm_compute; reflexivity | intros [=] | reflexivity |].
  exact (conj H1 (conj H2 H3)).
Defined.

Lemma open_range_parts s :
  0 ≤ s → range_parts (open_range s) = [JS.dec s; ""].
Proof.
  intros Hs. unfold range_parts, open_range. rewrite replace_bytes_prefix.
  change (JS.dec s ++ "-") with (JS.dec s ++ String "-" "").
  rewrite split_digits_then_dash by (apply dec_all_digits; exact Hs).
  reflexivity.
Qed.

Lemma open_range_parsed s total :
  0 ≤ s →
  range_start (range_parts (open_range s)) = JS.Num s
  ∧ range_end (range_parts (open_range s)) total = JS.Num (total - 1).
Proof.
  intros Hs. rewrite open_range_parts by exact Hs.
  unfold range_start, range_end. cbn [nth nth_error JS.truthy].
  rewrite <- (append_empty_r (JS.dec s)).
  rewrite parseInt_dec by (exact I || assumption). auto.
Qed.

Lemma open_range_truthy s : JS.truthy (open_range s) = true.
Proof. reflexivity. Qed.

(** X2.  A range without an end, [bytes=s-], runs to the last byte: when
    [s] is below the size [T] of the file (and [T] is at most 2^53, so
    that [T - 1] is a safe integer) the answer is 206 with
    [Content-Range: bytes s-(T-1)/T], [Content-Length: T-s] and the file
    from offset [s] on; when [s >= T] (an empty file included) it is
    416.  This holds whenever [persist()] does not throw: always in
    [video-proxy-server], and in the mainframe server while [videos.json]
    can be written. *)
Theorem stream_open_ended_range cfg w id info data now s :
  cached w id info data → persist_succeeds cfg w → 0 ≤ s →
  let T := Z.of_nat (length data) in
  let r := fst (route_stream cfg id (Some (open_range s)) now w) in
  (s < T → T - 1 ≤ JS.MAX_SAFE_INTEGER →
   status r = 206
   ∧ header "Content-Range" (headers r)
     = Some ("bytes " ++ JS.dec s ++ "-" ++ JS.dec (T - 1) ++ "/" ++ JS.dec T)
   ∧ header "Content-Length" (headers r) = Some (JS.dec (T - s))
   ∧ body r = Bytes (drop (Z.to_nat s) data))
  ∧ (T ≤ s →
     status r = 416 ∧ body r = Text "Requested Range Not Satisfiable").
Proof.
  intros Hc Hok Hs. cbv zeta.
  destruct (cached_stream cfg w id info data (Some (open_range s)) now Hc Hok)
    as (w' & Hrun & _).
  rewrite Hrun. cbn [fst].
  destruct (open_range_parsed s (Z.of_nat (length data)) Hs) as [Hst Hen].
  split.
  - intros Hlt Hmax.
    rewrite (send_file_206 _ _ _ s (Z.of_nat (length data) - 1))
      by (assumption || lia).
    cbn [status headers body header String.eqb Ascii.eqb Bool.eqb].
    replace (Z.of_nat (length data) - 1 - s + 1)
      with (Z.of_nat (length data) - s) by lia.
    repeat split. f_equal. unfold Fs.read_range.
    apply take_ge. rewrite length_drop. lia.
  - intros Hge. rewrite send_file_416; [split; reflexivity | reflexivity |].
    rewrite Hst, Hen. cbn [range_rejected]. apply Z.ltb_lt. lia.
Qed.

Lemma stream_open_ended_range_witness :
  let r := fst (route_stream (sample_config MainframeServer) sample_id
                             (Some "bytes=6-") 1700013950000
                             (sample_world MainframeServer)) in
  status r = 206
  ∧ header "Content-Range" (headers r) = Some "bytes 6-10/11"
  ∧ header "Content-Length" (headers r) = Some "5"
  ∧ body r = Bytes (bytes_of "world").
Proof.
  intro r.
  destruct (stream_open_ended_range (sample_config MainframeServer)
              (sample_world MainframeServer) sample_id sample_entry
              (bytes_of "hello world") 1700013950000 6)
    as [H _];
    [repeat split; vm_compute; reflexivity
     | intros _; vm_compute; reflexivity | lia |].
  apply H; [reflexivity | vm_compute; discriminate].
Defined.

(** X3.  A suffix range, [bytes=-n], which asks for the last [n] bytes, is
    never served: whatever follows the minus sign, the first part is
    empty, [parseInt] gives [NaN] and the answer is 416.  This holds
    whenever [persist()] does not throw: always in [video-proxy-server],
    and in the mainframe server while [videos.json] can be written. *)
Theorem stream_suffix_range_416 cfg w id info data now rest :
  cached w id info data → persist_succeeds cfg w →
  let r := fst (route_stream cfg id (Some ("bytes=-" ++ rest)) now w) in
  status r = 416 ∧ body r = Text "Requested Range Not Satisfiable".
Proof.
  intros Hc Hok. cbv zeta.
  destruct (cached_stream cfg w id info data (Some ("bytes=-" ++ rest)) now
              Hc Hok) as (w' & Hrun & _).
  rewrite Hrun. cbn [fst].
  rewrite send_file_416; [split; reflexivity | reflexivity |].
  unfold range_parts.
  change ("bytes=-" ++ rest) with ("bytes=" ++ String "-" rest).
  rewrite replace_bytes_prefix. cbn [JS.split Ascii.eqb Bool.eqb].
  reflexivity.
Qed.

Lemma stream_suffix_range_416_witness :
  status (fst (route_stream (sample_config VideoProxyServer) sample_id
                            (Some "bytes=-5") 1700013950000
                            (sample_world VideoProxyServer))) = 416.
Proof.
  apply (stream_suffix_range_416 (sample_config VideoProxyServer)
           (sample_world VideoProxyServer) sample_id sample_entry
           (bytes_of "hello world") 1700013950000 "5");
    [repeat split; vm_compute; reflexivity | intros [=]].
Defined.

(** ** What follows the second number of a range *)

Lemma append_assoc (a b c : string) : (a ++ b) ++ c = a ++ b ++ c.
Proof.
  induction a as [|x a IH]; [reflexivity|].
  change (String x ((a ++ b) ++ c) = String x (a ++ b ++ c)).
  rewrite IH. reflexivity.
Qed.

Lemma split_digits_prefix a b :
  all_digits a →
  JS.split "-" (a ++ b)
  = match JS.split "-" b with
    | p :: ps => (a ++ p) :: ps
    | [] => [a]
    end.
Proof.
  unfold all_digits. induction a as [|c a IH]; intros Ha.
  - change ("" ++ b) with b. destruct b as [|x b]; [reflexivity|].
    destruct (JS.split "-" (String x b)) eqn:E; [|reflexivity].
    cbn [JS.split] in E. destruct (Ascii.eqb x "-"); [discriminate|].
    destruct (JS.split "-" b); discriminate.
  - cbn [list_ascii_of_string] in Ha. apply Forall_cons in Ha as [Hc Ha].
    destruct (digit_plain c Hc) as (_ & Hm & _).
    change (String c a ++ b) with (String c (a ++ b)).
    cbn [JS.split]. rewrite (IH Ha).
    destruct (Ascii.eqb_spec c "-"); [contradiction|].
    destruct (JS.split "-" b); reflexivity.
Qed.

Lemma split_head_no_digit b :
  no_leading_digit b →
  match JS.split "-" b with
  | p :: _ => no_leading_digit p
  | [] => True
  end.
Proof.
  destruct b as [|c b]; [intros _; exact I|]. cbn [no_leading_digit JS.split].
  intros Hc. destruct (Ascii.eqb c "-"); [exact I|].
  destruct (JS.split "-" b); exact Hc.
Qed.

Lemma range_with_tail_parsed s e junk total :
  0 ≤ s → 0 ≤ e → no_leading_digit junk →
  range_start (range_parts (bytes_range s e ++ junk)) = JS.Num s
  ∧ range_end (range_parts (bytes_range s e ++ junk)) total = JS.Num e.
Proof.
  intros Hs He Hj.
  unfold range_parts, bytes_range.
  rewrite !append_assoc, replace_bytes_prefix.
  change ("-" ++ JS.dec e ++ junk) with (String "-" (JS.dec e ++ junk)).
  rewrite split_digits_then_dash by (apply dec_all_digits; exact Hs).
  rewrite split_digits_prefix by (apply dec_all_digits; exact He).
  pose proof (split_head_no_digit junk Hj) as Hp.
  unfold range_start, range_end.
  destruct (JS.split "-" junk) as [|p ps]; cbn [nth nth_error].
  - rewrite (dec_truthy e He).
    rewrite <- (append_empty_r (JS.dec s)), <- (append_empty_r (JS.dec e)).
    rewrite !parseInt_dec by (exact I || assumption). auto.
  - assert (JS.truthy (JS.dec e ++ p) = true) as ->.
    { pose proof (dec_truthy e He) as Ht.
      destruct (JS.dec e); [discriminate | reflexivity]. }
    rewrite <- (append_empty_r (JS.dec s)).
    rewrite !parseInt_dec by (exact I || assumption). auto.
Qed.

Lemma send_file_same_bounds r1 r2 total data :
  JS.truthy r1 = true → JS.truthy r2 = true →
  range_start (range_parts r1) = range_start (range_parts r2) →
  range_end (range_parts r1) total = range_end (range_parts r2) total →
  send_file (Some r1) total data = send_file (Some r2) total data.
Proof.
  intros H1 H2 Hs He. unfold send_file.
  cbn [JS.truthy_opt from_option Datatypes.id]. rewrite H1, H2, Hs, He.
  reflexivity.
Qed.

(** X4.  Whatever follows the second number of [bytes=s-e] is ignored,
    provided it does not go on with a digit: the request is answered, and
    the state changed, exactly as for [bytes=s-e].  So a request for
    several ranges, [bytes=s-e,s'-e'], gets the first one alone. *)
Theorem stream_range_tail_ignored cfg w id now s e junk :
  0 ≤ s → 0 ≤ e → no_leading_digit junk →
  route_stream cfg id (Some (bytes_range s e ++ junk)) now w
  = route_stream cfg id (Some (bytes_range s e)) now w.
Proof.
  intros Hs He Hj.
  assert (∀ total data,
            send_file (Some (bytes_range s e ++ junk)) total data
            = send_file (Some (bytes_range s e)) total data) as Hsend.
  { intros total data.
    destruct (range_with_tail_parsed s e junk total Hs He Hj) as [H1 H2].
    destruct (bytes_range_parsed s e total Hs He) as [H3 H4].
    apply send_file_same_bounds; [reflexivity | reflexivity | |]; congruence. }
  unfold route_stream, stream, bind, get.
  destruct (videos w !! id) as [info|]; [|reflexivity].
  destruct (negb _ || negb _); [reflexivity|].
  unfold lift_res. destruct (Fs.statSync_size _ _); [|reflexivity].
  unfold modify. destruct (persist cfg _) as [[[]|x] w']; [|reflexivity].
  unfold ret. rewrite Hsend. reflexivity.
Qed.

Lemma stream_range_tail_ignored_witness :
  route_stream (sample_config VideoProxyServer) sample_id
               (Some (bytes_range 0 1 ++ ",5-6")) 1700013950000
               (sample_world VideoProxyServer)
  = route_stream (sample_config VideoProxyServer) sample_id
                 (Some (bytes_range 0 1)) 1700013950000
                 (sample_world VideoProxyServer).
Proof.
  apply (stream_range_tail_ignored (sample_config VideoProxyServer)
           (sample_world VideoProxyServer) sample_id 1700013950000 0 1 ",5-6");
    [lia | lia | reflexivity].
Defined.

(** ** What a request for a file changes *)

(** X5.  [/stream/:id] writes to no file and changes no download; in
    [videos] it changes at most [lastAccess] of the entry it serves, and
    nothing at all when it answers 404. *)
Theorem stream_only_touches_last_access cfg w id range now :
  let r := fst (route_stream cfg id range now w) in
  let w' := snd (route_stream cfg id range now w) in
  fs w' = fs w ∧ tasks w' = tasks w
  ∧ (videos w' = videos w
     ∨ ∃ info, videos w !! id = Some info
               ∧ videos w' = <[id := with_lastAccess now info]> (videos w))
  ∧ (status r = 404 → w' = w).
Proof.
  cbv zeta. unfold route_stream, stream, bind, get.
  destruct (videos w !! id) as [info|] eqn:Hv; [|cbn; auto].
  destruct (negb _ || negb _); [cbn; auto|].
  unfold lift_res. destruct (Fs.statSync_size _ _) as [total|x];
    [|cbn; split; [|split; [|split]]; auto; discriminate].
  unfold modify.
  destruct (persist cfg _) as [[[]|x] w'] eqn:Hp;
    apply persist_videos in Hp as (Hvid & Hfs & Ht & _);
    cbn [fst snd]; (split; [exact Hfs|]); (split; [exact Ht|]);
    (split; [right; exists info; split; [reflexivity | exact Hvid]|]).
  - unfold ret. cbn [fst].
    destruct (send_file_status range total
                (default [] (Fs.content (default "" (e_path info)) (fs w))))
      as [H | [H | [H | H]]]; rewrite H; discriminate.
  - cbn. discriminate.
Qed.

(** Whatever becomes of the request, the handler has set [lastAccess] of
    a cached entry: the assignment precedes [persist()]. *)
Lemma stream_touches_cached cfg w id info data range now :
  cached w id info data →
  videos (snd (route_stream cfg id range now w))
  = <[id := with_lastAccess now info]> (videos w).
Proof.
  intros (Hv & Ht & Hc).
  unfold route_stream, stream, bind, get. rewrite Hv, Ht.
  rewrite (content_exists _ _ _ Hc). cbn [negb orb].
  unfold lift_res, Fs.statSync_size. rewrite Hc. unfold modify.
  destruct (persist cfg _) as [[[]|x] w'] eqn:Hp;
    apply persist_videos in Hp as (Hvid & _); cbn [snd]; exact Hvid.
Qed.

Lemma last_seen_touched now info :
  now ≠ 0 → last_seen (with_lastAccess now info) = now.
Proof.
  intros Hn. unfold last_seen. cbn [e_lastAccess with_lastAccess JS.truthy_num].
  destruct (Z.eqb_spec now 0); [contradiction | reflexivity].
Qed.

(** X6.  A request for a cached file postpones its eviction: the handler
    sets [lastAccess] to the time [now] of the request whatever becomes
    of the request afterwards (200, 206, 416, no response when the read
    stream cannot be opened, or the 500 of a failed write of
    [videos.json]), so that a sweep at a time no more than the inactivity
    threshold later keeps the entry, with [lastAccess = now]. *)
Theorem stream_postpones_eviction cfg w id info data range now now' :
  cached w id info data →
  now ≠ 0 → now' - now ≤ INACTIVITY_MS cfg →
  let w1 := snd (route_stream cfg id range now w) in
  videos (snd (sweep cfg now' w1)) !! id = Some (with_lastAccess now info).
Proof.
  intros Hc Hn Hle. cbv zeta.
  rewrite sweep_videos, (stream_touches_cached _ _ _ _ _ _ _ Hc).
  rewrite lookup_insert_eq.
  unfold expired. rewrite last_seen_touched by exact Hn.
  destruct (Z.ltb_spec (INACTIVITY_MS cfg) (now' - now)); [lia|].
  rewrite andb_false_r. reflexivity.
Qed.

Lemma stream_postpones_eviction_witness :
  let cfg := sample_config VideoProxyServer in
  let w1 := snd (route_stream cfg sample_id (Some "bytes=5-3") 1700013950000
                              (sample_world VideoProxyServer)) in
  videos (snd (sweep cfg 1700017550000 w1)) !! sample_id
  = Some (with_lastAccess 1700013950000 sample_entry).
Proof.
  apply (stream_postpones_eviction (sample_config VideoProxyServer)
           (sample_world VideoProxyServer) sample_id sample_entry
           (bytes_of "hello world") (Some "bytes=5-3") 1700013950000
           1700017550000);
    [repeat split; vm_compute; reflexivity | lia
     | vm_compute; discriminate].
Defined.

(** ** [genId] and [/add]: the id, refusals, the start of a download *)

Lemma chars_append (a b : string) :
  list_ascii_of_string (a ++ b)
  = (list_ascii_of_string a ++ list_ascii_of_string b)%list.
Proof.
  induction a as [|c a IH]; [reflexivity|].
  change (String c a ++ b) with (String c (a ++ b)).
  cbn [list_ascii_of_string]. rewrite IH. reflexivity.
Qed.

Lemma hex_string_append a b : hex_string a → hex_string b → hex_string (a ++ b).
Proof.
  unfold hex_string. intros Ha Hb. rewrite chars_append.
  apply Forall_app. auto.
Qed.

Lemma hex_digit_lower n : (n < 16)%N → lower_hex (Sha1.hex_digit n) = true.
Proof.
  intros Hn.
  assert (N.to_nat n < 16)%nat as Hk by lia.
  rewrite <- (N2Nat.id n). revert Hk. generalize (N.to_nat n) as k.
  intros k Hk.
  do 16 (destruct k as [|k]; [vm_compute; reflexivity|]). lia.
Qed.

Lemma hex_hex_string n x : hex_string (Sha1.hex n x).
Proof.
  unfold hex_string. induction n as [|n IH]; cbn [Sha1.hex list_ascii_of_string].
  - constructor.
  - constructor; [|exact IH]. apply hex_digit_lower.
    change 15%N with (N.ones 4). rewrite N.land_ones.
    apply N.mod_lt. discriminate.
Qed.

Lemma slice0_hex_string n s : hex_string s → hex_string (slice0 n s).
Proof.
  unfold hex_string. revert s.
  induction n as [|n IH]; intros [|c s] H; cbn [slice0 list_ascii_of_string];
    try constructor.
  - inversion H; assumption.
  - apply IH. inversion H; assumption.
Qed.

(** X7.  An id is twelve lower-case hexadecimal digits, whatever the URL
    and the time: it holds no [/] and no [.], so that [path.join(DATA_DIR,
    id)] is [DATA_DIR + '/' + id], a file directly under [DATA_DIR]. *)
Theorem genId_twelve_hex_digits seed now :
  String.length (genId seed now) = 12%nat
  ∧ hex_string (genId seed now)
  ∧ Forall (fun c => c ≠ "/"%char ∧ c ≠ "."%char)
           (list_ascii_of_string (genId seed now)).
Proof.
  assert (hex_string (genId seed now)) as Hhex.
  { unfold genId. apply slice0_hex_string. unfold Sha1.digest_hex.
    destruct (Sha1.blocks _ _ _) as [[[[a b] c] d] e].
    repeat apply hex_string_append; apply hex_hex_string. }
  split; [apply genId_length|]. split; [exact Hhex|].
  eapply Forall_impl; [exact Hhex|]. cbv beta.
  intros c Hc. split; intros ->; discriminate Hc.
Qed.

(** X8.  [/add] answers 400 without changing anything when the [url]
    parameter is missing or empty ([missing url]) and when [new URL(url)]
    throws ([invalid url]); and it answers 400 in no other case. *)
Theorem add_refuses_bad_url cfg url now now' w :
  (JS.truthy_opt url = false →
   add cfg url now now' w = (Ok (json_error 400 "missing url"), w))
  ∧ (JS.truthy_opt url = true → parses_as_URL cfg (default "" url) = false →
     add cfg url now now' w = (Ok (json_error 400 "invalid url"), w))
  ∧ (∀ r w', add cfg url now now' w = (Ok r, w') → status r = 400 →
             w' = w
             ∧ (JS.truthy_opt url = false
                ∨ parses_as_URL cfg (default "" url) = false)).
Proof.
  unfold add. split; [|split].
  - intros ->. reflexivity.
  - intros -> ->. reflexivity.
  - intros r w'. destruct (JS.truthy_opt url); cbn [negb];
      [|unfold ret; intros [= <- <-]; auto].
    destruct (parses_as_URL cfg _); cbn [negb];
      [|unfold ret; intros [= <- <-]; auto].
    unfold bind, modify.
    destruct (persist cfg _) as [[[]|e] w1]; [|discriminate].
    destruct (download_start cfg _ _ w1) as [[[]|e] w2]; [|discriminate].
    unfold ret. intros [= <- <-]. discriminate.
Qed.

Lemma open_w_content p (f : FS) :
  names (Fs.open_w p f).2 !! p = Some (Fs.open_w p f).1
  ∧ Fs.content p (Fs.open_w p f).2 = Some [].
Proof.
  unfold Fs.open_w, Fs.content.
  destruct (names f !! p) as [i|] eqn:E; cbn [fst snd names inodes].
  - rewrite E. cbn. rewrite lookup_insert_eq. auto.
  - rewrite !lookup_insert_eq. cbn. rewrite lookup_insert_eq. auto.
Qed.

Lemma modify_run f w : modify f w = (Ok tt, f w).
Proof. reflexivity. Qed.

(** [/add] of a good URL, up to the outcome of [persist()]. *)
Lemma add_run cfg url now now' w :
  JS.truthy url = true → parses_as_URL cfg url = true →
  let id := genId url now in
  let w1 := set_videos <[id := new_entry url id now']> w in
  (∀ w2, persist cfg w1 = (Ok tt, w2) →
         add cfg (Some url) now now' w
         = bind (download_start cfg url id)
                (fun _ => ret (add_answer id)) w2)
  ∧ (∀ e w2, persist cfg w1 = (Throw e, w2) →
             add cfg (Some url) now now' w = (Throw e, w2)).
Proof.
  intros Hu Hp. cbv zeta. unfold add.
  cbn [JS.truthy_opt from_option Datatypes.id]. rewrite Hu, Hp. cbn [negb].
  rewrite (bind_ok _ _ _ _ _ (modify_run _ w)).
  split.
  - intros w2 Hrun. unfold new_entry in Hrun.
    rewrite (bind_ok _ _ _ _ _ Hrun). reflexivity.
  - intros e w2 Hrun. unfold new_entry in Hrun.
    rewrite (bind_throw _ _ _ _ _ Hrun). reflexivity.
Qed.

(** X9.  An accepted [/add] answers [{id, status: 'downloading'}], stores
    the record under the id and starts one download.  [video-proxy-server]
    opens the write stream on the temporary file as the download starts,
    so that the file is there, empty, whatever the origin answers; the
    mainframe server touches no file until the origin has answered. *)
Theorem add_starts_download cfg url now now' w :
  JS.truthy url = true → parses_as_URL cfg url = true →
  persist_succeeds cfg w →
  let id := genId url now in
  let w' := snd (add cfg (Some url) now now' w) in
  fst (add cfg (Some url) now now' w) = Ok (add_answer id)
  ∧ videos w' = <[id := new_entry url id now']> (videos w)
  ∧ ∃ ow, tasks w' = (tasks w ++ [mkTask id url (Requesting ow) []])%list
          ∧ match variant cfg with
            | VideoProxyServer =>
                ∃ wr, ow = Some wr ∧ w_pos wr = 0%nat
                      ∧ names (fs w') !! tmpPath_of cfg id = Some (w_ino wr)
                      ∧ Fs.content (tmpPath_of cfg id) (fs w') = Some []
            | MainframeServer => ow = None ∧ fs w' = fs w
            end.
Proof.
  intros Hu Hp Hok. cbv zeta.
  destruct (add_run cfg url now now' w Hu Hp) as [Hadd _].
  destruct (persist_ok cfg
              (set_videos <[genId url now := new_entry url (genId url now) now']> w))
    as (w2 & Hrun & Hv2 & Hfs2 & Ht2 & _); [exact Hok|].
  rewrite (Hadd w2 Hrun).
  unfold download_start, bind, createWriteStream, ret, modify.
  destruct (variant cfg).
  - pose proof (open_w_content (tmpPath_of cfg (genId url now)) (fs w2))
      as [Hn Hc].
    destruct (Fs.open_w _ (fs w2)) as [i f'].
    cbn [fst snd videos tasks set_tasks set_fs fs] in *.
    split; [reflexivity|]. split; [exact Hv2|].
    exists (Some (mkWriter i 0%nat)). rewrite Ht2. split; [reflexivity|].
    exists (mkWriter i 0%nat). auto.
  - cbn [fst snd videos tasks set_tasks fs].
    split; [reflexivity|]. split; [exact Hv2|].
    exists None. rewrite Ht2. auto.
Qed.

Lemma add_starts_download_witness :
  let cfg := sample_config VideoProxyServer in
  let w' := snd (add cfg (Some sample_url) 1700013942250 1700013942250
                     initial_world) in
  videos w' !! sample_id
  = Some (new_entry sample_url sample_id 1700013942250)
  ∧ Fs.content "/data/e482ef9a1c39.part" (fs w') = Some [].
Proof.
  intros cfg w'.
  destruct (add_starts_download cfg sample_url 1700013942250 1700013942250
              initial_world) as (_ & Hv & ow & _ & wr & _ & _ & _ & Hc);
    [reflexivity | reflexivity | intros [=] |].
  split; [|exact Hc].
  unfold w'. rewrite Hv. apply lookup_insert_eq.
Defined.

(** X10.  When [videos.json] cannot be written, the handler of [/add] in
    the mainframe server throws out of [persist()]: the record is in
    [videos] by then, but the handler has neither started the download
    nor answered, and no file is touched.  [video-proxy-server] answers
    and starts the download all the same. *)
Theorem add_with_failing_write cfg url now now' w :
  JS.truthy url = true → parses_as_URL cfg url = true →
  disk_ok w = false →
  let id := genId url now in
  let r := fst (add cfg (Some url) now now' w) in
  let w' := snd (add cfg (Some url) now now' w) in
  videos w' = <[id := new_entry url id now']> (videos w)
  ∧ match variant cfg with
    | MainframeServer =>
        (∃ e, r = Throw e) ∧ tasks w' = tasks w ∧ fs w' = fs w
    | VideoProxyServer =>
        r = Ok (add_answer id)
        ∧ ∃ ow, tasks w' = (tasks w ++ [mkTask id url (Requesting ow) []])%list
    end.
Proof.
  intros Hu Hp Hd. cbv zeta.
  destruct (add_run cfg url now now' w Hu Hp) as [Hok Hthrow].
  set (w1 := set_videos <[genId url now := new_entry url (genId url now) now']> w)
    in *.
  destruct (variant cfg) eqn:Hvar.
  - rewrite (Hok _ (persist_failure_logged cfg w1 Hvar Hd)).
    unfold download_start, bind, createWriteStream, ret, modify.
    rewrite Hvar. destruct (Fs.open_w _ _) as [i f'].
    cbn [fst snd videos tasks]. split; [reflexivity|].
    split; [reflexivity|]. eauto.
  - rewrite (Hthrow _ _ (persist_failure_thrown cfg w1 Hvar Hd)).
    cbn [fst snd]. eauto.
Qed.

Lemma add_with_failing_write_witness :
  let cfg := sample_config MainframeServer in
  let w := set_disk_ok false initial_world in
  (∃ e, fst (add cfg (Some sample_url) 1700013942250 1700013942250 w)
        = Throw e)
  ∧ videos (snd (add cfg (Some sample_url) 1700013942250 1700013942250 w))
    !! sample_id
    = Some (new_entry sample_url sample_id 1700013942250).
Proof.
  intros cfg w.
  destruct (add_with_failing_write cfg sample_url 1700013942250 1700013942250 w)
    as (Hv & Hs & _); [reflexivity | reflexivity | reflexivity |].
  split; [exact Hs|]. rewrite Hv. apply lookup_insert_eq.
Defined.

(** ** [downloadFull]: the end of a download, and its failures *)

Lemma try_catch_ok {A} (m : M A) h w a w' :
  m w = (Ok a, w') → try_catch m h w = (Ok a, w').
Proof. unfold try_catch. intros ->. reflexivity. Qed.

Lemma try_catch_throw {A} (m : M A) h w e w' :
  m w = (Throw e, w') → try_catch m h w = h e w'.
Proof. unfold try_catch. intros ->. reflexivity. Qed.

Lemma statSync_size_content p w data :
  Fs.content p (fs w) = Some data →
  statSync_size p w = (Ok (Z.of_nat (length data)), w).
Proof.
  intros H. unfold statSync_size, bind, get, lift_res, Fs.statSync_size.
  rewrite H. reflexivity.
Qed.

Lemma console_log_run line w : console_log line w = (Ok tt, add_console line w).
Proof. reflexivity. Qed.

(** [videos[id].status = 'error'; videos[id].error = msg; persist()] *)
Lemma mark_error_run cfg id msg w e0 :
  videos w !! id = Some e0 → persist_succeeds cfg w →
  ∃ w', bind (assign id "status" (with_status error))
             (fun _ => bind (assign id "error" (with_error msg))
                            (fun _ => persist cfg)) w
        = (Ok tt, w')
        ∧ videos w' = <[id := with_error msg (with_status error e0)]> (videos w)
        ∧ fs w' = fs w ∧ tasks w' = tasks w ∧ disk_ok w' = disk_ok w.
Proof.
  intros Hv Hok.
  rewrite (bind_ok _ _ _ _ _ (assign_some id "status" _ w e0 Hv)).
  rewrite (bind_ok _ _ _ _ _
             (assign_some id "error" (with_error msg) _ _
                          (lookup_insert_eq _ _ _))).
  match goal with
  | |- context [persist cfg ?w2] =>
      destruct (persist_ok cfg w2) as (w' & Hrun & Hv' & Hf' & Ht' & Hd');
      [exact Hok|]
  end.
  exists w'. split; [exact Hrun|]. rewrite Hv', Hf', Ht', Hd'.
  cbn [videos set_videos fs tasks disk_ok].
  rewrite insert_insert_eq. auto.
Qed.

(** The [catch] block when the entry is there. *)
Lemma download_catch_run cfg id err w e0 :
  videos w !! id = Some e0 → persist_succeeds cfg w →
  ∃ w', download_catch cfg id err w = (Ok tt, w')
        ∧ videos w'
          = <[id := with_error (recorded_error (variant cfg) err)
                               (with_status error e0)]> (videos w)
        ∧ fs w' = fs w ∧ tasks w' = tasks w ∧ disk_ok w' = disk_ok w.
Proof.
  intros Hv Hok. unfold download_catch, recorded_error.
  destruct (variant cfg).
  - rewrite (bind_ok _ _ _ _ _ (console_log_run _ w)).
    unfold bind at 1, get. cbn [videos add_console]. rewrite Hv.
    apply (mark_error_run cfg id _ (add_console _ w) e0 Hv Hok).
  - rewrite (bind_ok _ _ _ _ _ (console_log_run _ w)).
    apply (mark_error_run cfg id _ (add_console _ w) e0 Hv Hok).
Qed.

(** The [try] block from [renameSync] on, when nothing throws. *)
Lemma download_finish_run cfg id now w e0 data :
  videos w !! id = Some e0 →
  Fs.content (tmpPath_of cfg id) (fs w) = Some data →
  persist_succeeds cfg w →
  ∃ w' i, names (fs w) !! tmpPath_of cfg id = Some i
    ∧ download_finish cfg id now w = (Ok tt, w')
    ∧ videos w'
      = <[id := downloaded (filePath_of cfg id) (Z.of_nat (length data)) now e0]>
          (videos w)
    ∧ fs w' = mkFS (<[filePath_of cfg id := i]>
                      (delete (tmpPath_of cfg id) (names (fs w))))
                   (inodes (fs w)) (next_ino (fs w)) (undeletable (fs w))
    ∧ tasks w' = tasks w ∧ disk_ok w' = disk_ok w.
Proof.
  intros Hv Hc Hok.
  assert (∃ i, names (fs w) !! tmpPath_of cfg id = Some i
               ∧ default [] (inodes (fs w) !! i) = data) as (i & Hi & Hdata).
  { unfold Fs.content in Hc. destruct (names (fs w) !! _) as [i|]; [|discriminate].
    injection Hc as Hc. eauto. }
  set (f2 := mkFS (<[filePath_of cfg id := i]>
                     (delete (tmpPath_of cfg id) (names (fs w))))
                  (inodes (fs w)) (next_ino (fs w)) (undeletable (fs w))).
  set (w2 := set_fs (fun _ => f2) w).
  pose proof (renameSync_run (tmpPath_of cfg id) (filePath_of cfg id) w i Hi)
    as Hren. fold f2 w2 in Hren.
  assert (∀ w3, fs w3 = f2 →
                statSync_size (filePath_of cfg id) w3
                = (Ok (Z.of_nat (length data)), w3)) as Hstat.
  { intros w3 Hf. apply statSync_size_content. rewrite Hf.
    unfold Fs.content, f2. cbn [names inodes]. rewrite lookup_insert_eq.
    cbn. rewrite Hdata. reflexivity. }
  set (e1 := with_status ready e0).
  set (w3 := set_videos (<[id := e1]>) w2).
  assert (assign id "status" (with_status ready) w2 = (Ok tt, w3)) as H3
      by (apply assign_some; exact Hv).
  set (sz := Z.of_nat (length data)) in *.
  set (e3 := with_size sz (with_path (filePath_of cfg id) e1)).
  assert (∃ w5, fs w5 = f2 ∧ videos w5 = <[id := e3]> (videos w)
                ∧ tasks w5 = tasks w ∧ disk_ok w5 = disk_ok w
                ∧ match variant cfg with
                  | VideoProxyServer =>
                      bind (assign id "path" (with_path (filePath_of cfg id)))
                           (fun _ => bind (statSync_size (filePath_of cfg id))
                                          (fun sz => assign id "size" (with_size sz)))
                  | MainframeServer =>
                      bind (statSync_size (filePath_of cfg id))
                           (fun sz => bind (assign id "size" (with_size sz))
                                           (fun _ => assign id "path"
                                                       (with_path (filePath_of cfg id))))
                  end w3 = (Ok tt, w5)) as (w5 & Hf5 & Hv5 & Ht5 & Hd5 & Hmid).
  { destruct (variant cfg).
    - exists (set_videos (<[id := e3]>)
                (set_videos (<[id := with_path (filePath_of cfg id) e1]>) w3)).
      split; [reflexivity|]. split.
      { cbn [videos set_videos set_fs w3 w2]. rewrite !insert_insert_eq.
        reflexivity. }
      split; [reflexivity|]. split; [reflexivity|].
      rewrite (bind_ok _ _ _ _ _
                 (assign_some id "path" _ w3 e1 (lookup_insert_eq _ _ _))).
      rewrite (bind_ok _ _ _ _ _
                 (Hstat (set_videos (<[id := with_path (filePath_of cfg id) e1]>)
                                    w3) eq_refl)).
      apply assign_some. apply lookup_insert_eq.
    - exists (set_videos (<[id := e3]>)
                (set_videos (<[id := with_size sz e1]>) w3)).
      split; [reflexivity|]. split.
      { cbn [videos set_videos set_fs w3 w2]. rewrite !insert_insert_eq.
        reflexivity. }
      split; [reflexivity|]. split; [reflexivity|].
      rewrite (bind_ok _ _ _ _ _ (Hstat w3 eq_refl)).
      rewrite (bind_ok _ _ _ _ _
                 (assign_some id "size" _ w3 e1 (lookup_insert_eq _ _ _))).
      apply (assign_some id "path" (with_path (filePath_of cfg id)) _
                         (with_size sz e1)).
      apply lookup_insert_eq. }
  set (w6 := set_videos (<[id := with_lastAccess now e3]>) w5).
  assert (assign id "lastAccess" (with_lastAccess now) w5 = (Ok tt, w6)) as H6.
  { apply assign_some. rewrite Hv5. apply lookup_insert_eq. }
  destruct (persist_ok cfg w6) as (w7 & H7 & Hv7 & Hf7 & Ht7 & Hd7).
  { unfold persist_succeeds. cbn [disk_ok w6 set_videos]. rewrite Hd5.
    exact Hok. }
  exists (add_console ("Downloaded " ++ id) w7), i.
  split; [exact Hi|]. split.
  - unfold download_finish. apply try_catch_ok. cbv zeta.
    rewrite (bind_ok _ _ _ _ _ Hren), (bind_ok _ _ _ _ _ H3).
    rewrite (bind_ok _ _ _ _ _ Hmid), (bind_ok _ _ _ _ _ H6).
    rewrite (bind_ok _ _ _ _ _ H7). reflexivity.
  - cbn [videos fs tasks disk_ok add_console].
    rewrite Hv7, Hf7, Ht7, Hd7. cbn [videos fs tasks disk_ok set_videos w6].
    rewrite Hv5, Hf5, Ht5, Hd5, insert_insert_eq. auto.
Qed.

Lemma step_finished cfg n now w id url wr rec :
  tasks w !! n = Some (mkTask id url (Piping wr) rec) →
  snd (step cfg (Finished n now) w)
  = snd (download_finish cfg id now
           (set_tasks (alter (fun t => mkTask (t_id t) (t_url t) Received
                                              (t_received t ++ [])%list) n) w)).
Proof.
  intros Hn. cbn [step]. rewrite Hn.
  rewrite (bind_ok _ _ _ _ _ (set_task_run n Received [] w)). reflexivity.
Qed.

Lemma phase_altered (T : list Task) n t ph :
  T !! n = Some t →
  t_phase <$> alter (fun t => mkTask (t_id t) (t_url t) ph
                                     (t_received t ++ [])%list) n T !! n
  = Some ph.
Proof.
  intros H. rewrite list_lookup_alter, H.
  rewrite decide_True by reflexivity. reflexivity.
Qed.

(** X11.  When [pipeline] resolves, the temporary file holding [data] and
    the entry being in [videos], the file is renamed to its final path and
    the entry becomes [ready] with that path, [size] equal to the length
    of [data] and [lastAccess] the time read; the temporary path is gone,
    and from then on [/stream/:id] answers from [data].  This holds
    whenever [persist()] does not throw: always in [video-proxy-server],
    and in the mainframe server while [videos.json] can be written. *)
Theorem download_finish_records_file cfg w n id url wr rec now e0 data :
  tasks w !! n = Some (mkTask id url (Piping wr) rec) →
  videos w !! id = Some e0 →
  Fs.content (tmpPath_of cfg id) (fs w) = Some data →
  persist_succeeds cfg w →
  let w' := snd (step cfg (Finished n now) w) in
  videos w'
  = <[id := downloaded (filePath_of cfg id) (Z.of_nat (length data)) now e0]>
      (videos w)
  ∧ Fs.content (filePath_of cfg id) (fs w') = Some data
  ∧ Fs.existsSync (tmpPath_of cfg id) (fs w') = false
  ∧ t_phase <$> tasks w' !! n = Some Received
  ∧ ∀ range now',
      fst (route_stream cfg id range now' w')
      = send_file range (Z.of_nat (length data)) data.
Proof.
  intros Hn Hv Hc Hok. cbv zeta. rewrite (step_finished _ _ _ _ _ _ _ _ Hn).
  set (w1 := set_tasks _ w).
  destruct (download_finish_run cfg id now w1 e0 data Hv Hc Hok)
    as (w' & i & Hi & Hrun & Hv' & Hf' & Ht' & Hd').
  rewrite Hrun. cbn [snd].
  assert (Fs.content (filePath_of cfg id) (fs w') = Some data) as Hfinal.
  { rewrite Hf'. unfold Fs.content in *. cbn [names inodes fs w1 set_tasks] in *.
    rewrite lookup_insert_eq. rewrite Hi in Hc. exact Hc. }
  split; [exact Hv'|]. split; [exact Hfinal|]. split; [|split].
  - rewrite Hf'. unfold Fs.existsSync. cbn [names].
    apply bool_decide_eq_false. intros [j Hj].
    rewrite lookup_insert_ne in Hj
      by (intros Heq; symmetry in Heq; revert Heq;
          apply tmpPath_ne_filePath; reflexivity).
    rewrite lookup_delete_eq in Hj. discriminate.
  - rewrite Ht'. apply (phase_altered _ _ _ _ Hn).
  - intros range now'.
    destruct (stream_cached cfg w' id
                (downloaded (filePath_of cfg id) (Z.of_nat (length data)) now e0)
                (filePath_of cfg id) data range now')
      as (w'' & Hs & _).
    + rewrite Hv'. apply lookup_insert_eq.
    + reflexivity.
    + apply filePath_truthy.
    + exact Hfinal.
    + unfold persist_succeeds. rewrite Hd'. exact Hok.
    + rewrite Hs. reflexivity.
Qed.

Lemma download_finish_records_file_witness :
  let cfg := sample_config MainframeServer in
  let w' := snd (step cfg (Finished 0 1700013943000)
                      (exec cfg sample_piping initial_world)) in
  videos w' !! sample_id = Some sample_entry
  ∧ Fs.content "/data/e482ef9a1c39" (fs w') = Some (bytes_of "hello world").
Proof.
  intros cfg w'.
  destruct (download_finish_records_file cfg (exec cfg sample_piping initial_world)
              0 sample_id sample_url (mkWriter 0 11)
              (bytes_of "hello world") 1700013943000
              (new_entry sample_url sample_id 1700013942250)
              (bytes_of "hello world"))
    as (Hv & Hc & _);
    [vm_compute; reflexivity | vm_compute; reflexivity
     | vm_compute; reflexivity | intros _; vm_compute; reflexivity |].
  split; [|exact Hc].
  unfold w'. rewrite Hv. apply lookup_insert_eq.
Defined.

Lemma step_responded cfg n r w id url ow rec :
  tasks w !! n = Some (mkTask id url (Requesting ow) rec) →
  snd (step cfg (Responded n r) w)
  = snd (download_response cfg n id ow r
           (set_tasks (alter (fun t => mkTask (t_id t) (t_url t) Aborted
                                              (t_received t ++ [])%list) n) w)).
Proof.
  intros Hn. cbn [step]. rewrite Hn.
  rewrite (bind_ok _ _ _ _ _ (set_task_run n Aborted [] w)). reflexivity.
Qed.

Lemma step_failed cfg n err w id url wr rec :
  tasks w !! n = Some (mkTask id url (Piping wr) rec) →
  snd (step cfg (Failed n err) w)
  = snd (download_catch cfg id err
           (set_tasks (alter (fun t => mkTask (t_id t) (t_url t) Aborted
                                              (t_received t ++ [])%list) n) w)).
Proof.
  intros Hn. cbn [step]. rewrite Hn.
  rewrite (bind_ok _ _ _ _ _ (set_task_run n Aborted [] w)). reflexivity.
Qed.

(** X12.  When the request of a download is rejected, or answered with a
    status outside 200..299, the entry gets [status: 'error'] and the
    message in [error], nothing else in it changes, and no file is
    touched: the download is over, and the temporary file that
    [video-proxy-server] created when the download started stays where it
    is.  This holds whenever [persist()] does not throw: always in
    [video-proxy-server], and in the mainframe server while [videos.json]
    can be written. *)
Theorem download_request_failure cfg w n id url ow rec r e0 :
  tasks w !! n = Some (mkTask id url (Requesting ow) rec) →
  videos w !! id = Some e0 →
  persist_succeeds cfg w →
  request_failed r →
  let w' := snd (step cfg (Responded n r) w) in
  videos w'
  = <[id := with_error (request_error (variant cfg) r) (with_status error e0)]>
      (videos w)
  ∧ fs w' = fs w
  ∧ t_phase <$> tasks w' !! n = Some Aborted.
Proof.
  intros Hn Hv Hok Hr. cbv zeta. rewrite (step_responded _ _ _ _ _ _ _ _ Hn).
  set (w1 := set_tasks _ w).
  assert (∃ w', download_response cfg n id ow r w1 = (Ok tt, w')
                ∧ videos w'
                  = <[id := with_error (request_error (variant cfg) r)
                                       (with_status error e0)]> (videos w)
                ∧ fs w' = fs w ∧ tasks w' = tasks w1) as (w' & Hrun & Hv' & Hf' & Ht').
  { unfold download_response, request_error.
    destruct r as [st|err]; cbn [request_failed] in Hr.
    - rewrite Hr. destruct (variant cfg) eqn:Hvar.
      + cbv beta iota delta [try_catch throw].
        destruct (download_catch_run cfg id
                    (mkExn "AxiosError"
                           ("Request failed with status code " ++ JS.dec st))
                    w1 e0 Hv Hok) as (w' & Hrun & Hv' & Hf' & Ht' & _).
        rewrite Hvar in Hv'. exists w'. auto.
      + cbv iota.
        destruct (mark_error_run cfg id ("fetch_failed_" ++ JS.dec st) w1 e0
                    Hv Hok) as (w' & Hrun & Hv' & Hf' & Ht' & _).
        exists w'. split; [apply try_catch_ok; exact Hrun | auto].
    - cbv beta iota delta [try_catch throw].
      destruct (download_catch_run cfg id err w1 e0 Hv Hok)
        as (w' & Hrun & Hv' & Hf' & Ht' & _).
      exists w'. auto. }
  rewrite Hrun. cbn [snd]. split; [exact Hv'|]. split; [exact Hf'|].
  rewrite Ht'. apply (phase_altered _ _ _ _ Hn).
Qed.

Lemma download_request_failure_witness :
  let cfg := sample_config VideoProxyServer in
  let w := snd (step cfg (GetAdd (Some sample_url) 1700013942250 1700013942250)
                     initial_world) in
  let w' := snd (step cfg (Responded 0 (Ok 404)) w) in
  (e_status <$> videos w' !! sample_id = Some error
   ∧ e_error <$> videos w' !! sample_id
     = Some (Some "Request failed with status code 404"))
  ∧ Fs.content "/data/e482ef9a1c39.part" (fs w') = Some [].
Proof.
  intros cfg w w'.
  destruct (download_request_failure cfg w 0 sample_id sample_url
              (Some (mkWriter 0 0)) [] (Ok 404)
              (new_entry sample_url sample_id 1700013942250))
    as (Hv & Hf & _);
    [vm_compute; reflexivity | vm_compute; reflexivity | intros [=]
     | reflexivity |].
  unfold w'. rewrite Hv, Hf, lookup_insert_eq.
  split; [split; reflexivity | vm_compute; reflexivity].
Defined.

(** X13.  When [pipeline] rejects in the middle of a download, the entry
    gets [status: 'error'] and the message, and no file is touched: the
    temporary file keeps the part of the body already written, and later
    chunks are ignored.  This holds whenever [persist()] does not throw:
    always in [video-proxy-server], and in the mainframe server while
    [videos.json] can be written. *)
Theorem download_interrupted_keeps_partial_file cfg w n id url wr rec err e0 :
  tasks w !! n = Some (mkTask id url (Piping wr) rec) →
  videos w !! id = Some e0 →
  persist_succeeds cfg w →
  let w' := snd (step cfg (Failed n err) w) in
  videos w'
  = <[id := with_error (recorded_error (variant cfg) err)
                       (with_status error e0)]> (videos w)
  ∧ fs w' = fs w
  ∧ t_phase <$> tasks w' !! n = Some Aborted
  ∧ ∀ bs, snd (step cfg (Chunk n bs) w') = w'.
Proof.
  intros Hn Hv Hok. cbv zeta. rewrite (step_failed _ _ _ _ _ _ _ _ Hn).
  set (w1 := set_tasks _ w).
  destruct (download_catch_run cfg id err w1 e0 Hv Hok)
    as (w' & Hrun & Hv' & Hf' & Ht' & _).
  rewrite Hrun. cbn [snd]. split; [exact Hv'|]. split; [exact Hf'|].
  assert (tasks w' !! n = Some (mkTask id url Aborted (rec ++ [])%list)) as Hn'.
  { rewrite Ht'. cbn [tasks w1 set_tasks].
    rewrite list_lookup_alter, Hn, decide_True by reflexivity. reflexivity. }
  split; [rewrite Hn'; reflexivity|].
  intros bs. cbn [step]. rewrite Hn'. reflexivity.
Qed.

Lemma download_interrupted_keeps_partial_file_witness :
  let cfg := sample_config MainframeServer in
  let w := exec cfg [GetAdd (Some sample_url) 1700013942250 1700013942250;
                     Responded 0 (Ok 200); Chunk 0 (bytes_of "hello ")]
                initial_world in
  let w' := snd (step cfg (Failed 0 (Error "aborted")) w) in
  (e_status <$> videos w' !! sample_id = Some error
   ∧ e_error <$> videos w' !! sample_id = Some (Some "Error: aborted"))
  ∧ Fs.content "/data/e482ef9a1c39.part" (fs w') = Some (bytes_of "hello ").
Proof.
  intros cfg w w'.
  destruct (download_interrupted_keeps_partial_file cfg w 0 sample_id
              sample_url (mkWriter 0 6) (bytes_of "hello ") (Error "aborted")
              (new_entry sample_url sample_id 1700013942250))
    as (Hv & Hf & _);
    [vm_compute; reflexivity | vm_compute; reflexivity
     | intros _; vm_compute; reflexivity |].
  unfold w'. rewrite Hv, Hf, lookup_insert_eq.
  split; [split; reflexivity | vm_compute; reflexivity].
Defined.

(** ** [POST /admin/delete] *)

(** [/admin/delete] of an entry that is there. *)
Lemma admin_delete_run cfg id info w :
  JS.truthy id = true → videos w !! id = Some info → persist_succeeds cfg w →
  ∃ w', admin_delete cfg (Some id) w
        = (Ok (mkResponse 200 [] (Json [("ok", "true")])), w')
        ∧ videos w' = delete id (videos w)
        ∧ tasks w' = tasks w ∧ disk_ok w' = disk_ok w
        ∧ inodes (fs w') = inodes (fs w)
        ∧ undeletable (fs w') = undeletable (fs w)
        ∧ names (fs w')
          = if JS.truthy_opt (e_path info)
               && bool_decide (default "" (e_path info) ∉ undeletable (fs w))
            then delete (default "" (e_path info)) (names (fs w))
            else names (fs w).
Proof.
  intros Hid Hv Hok. unfold admin_delete.
  cbn [JS.truthy_opt from_option Datatypes.id]. rewrite Hid. cbn [negb].
  unfold bind at 1, get. rewrite Hv.
  set (p := default "" (e_path info)).
  assert (∃ w1, (if JS.truthy_opt (e_path info) && Fs.existsSync p (fs w)
                 then match Fs.unlinkSync p (fs w) with
                      | Ok fs' => modify (set_fs (fun _ => fs'))
                      | Throw _ => ret tt
                      end
                 else ret tt) w = (Ok tt, w1)
                ∧ videos w1 = videos w ∧ tasks w1 = tasks w
                ∧ disk_ok w1 = disk_ok w
                ∧ inodes (fs w1) = inodes (fs w)
                ∧ undeletable (fs w1) = undeletable (fs w)
                ∧ names (fs w1)
                  = if JS.truthy_opt (e_path info)
                       && bool_decide (p ∉ undeletable (fs w))
                    then delete p (names (fs w)) else names (fs w))
    as (w1 & H1 & Hv1 & Ht1 & Hd1 & Hi1 & Hu1 & Hn1).
  { destruct (JS.truthy_opt (e_path info)); cbn [andb];
      [|exists w; repeat split; reflexivity].
    unfold Fs.existsSync, Fs.unlinkSync.
    destruct (names (fs w) !! p) as [i|] eqn:Hp.
    - rewrite bool_decide_eq_true_2 by eauto.
      destruct (decide (p ∈ undeletable (fs w))) as [Hin|Hout].
      + rewrite bool_decide_eq_false_2 by auto.
        exists w. repeat split; reflexivity.
      + rewrite bool_decide_eq_true_2 by exact Hout.
        eexists. split; [reflexivity|]. repeat split; reflexivity.
    - rewrite bool_decide_eq_false_2 by (intros [? [=]]).
      exists w. repeat split; try reflexivity.
      destruct (bool_decide _); [|reflexivity].
      symmetry. apply delete_id. exact Hp. }
  rewrite (bind_ok _ _ _ _ _ H1).
  rewrite (bind_ok _ _ _ _ _ (modify_run _ w1)).
  destruct (persist_ok cfg (set_videos (delete id) w1))
    as (w2 & H2 & Hv2 & Hf2 & Ht2 & Hd2).
  { unfold persist_succeeds. cbn [disk_ok set_videos]. rewrite Hd1. exact Hok. }
  rewrite (bind_ok _ _ _ _ _ H2).
  exists w2. split; [reflexivity|].
  rewrite Hv2, Ht2, Hd2, Hf2. cbn [videos tasks disk_ok fs set_videos].
  rewrite Hv1. repeat split; assumption.
Qed.

(** X14.  [/admin/delete] of an entry that is in [videos] answers
    [{ok: true}] and removes the entry; the file at its [path] is unlinked
    when there is one, and when [unlinkSync] throws the exception is
    swallowed and the entry is removed all the same.  No other entry and
    no other file changes.  Afterwards [/stream/:id] answers 404, and a
    second [/admin/delete] answers 404 [not found]. *)
Theorem admin_delete_removes cfg w id info :
  variant cfg = VideoProxyServer →
  JS.truthy id = true → videos w !! id = Some info →
  let p := default "" (e_path info) in
  let r := fst (step cfg (PostAdminDelete (Some id)) w) in
  let w' := snd (step cfg (PostAdminDelete (Some id)) w) in
  r = Some (mkResponse 200 [] (Json [("ok", "true")]))
  ∧ videos w' = delete id (videos w)
  ∧ tasks w' = tasks w
  ∧ (∀ q, q ≠ p → names (fs w') !! q = names (fs w) !! q)
  ∧ (JS.truthy_opt (e_path info) = true → p ∉ undeletable (fs w) →
     Fs.existsSync p (fs w') = false)
  ∧ (p ∈ undeletable (fs w) → names (fs w') = names (fs w))
  ∧ (∀ range now,
       fst (route_stream cfg id range now w') = json_error 404 "not cached")
  ∧ (inherited id = false →
     fst (step cfg (PostAdminDelete (Some id)) w')
     = Some (json_error 404 "not found")).
Proof.
  intros Hvar Hid Hv. cbv zeta. cbn [step]. rewrite Hvar.
  destruct (admin_delete_run cfg id info w Hid Hv)
    as (w' & Hrun & Hv' & Ht' & _ & _ & _ & Hn').
  { intros Hm. rewrite Hvar in Hm. discriminate. }
  rewrite Hrun. cbn [fst snd].
  split; [reflexivity|]. split; [exact Hv'|]. split; [exact Ht'|].
  split; [|split; [|split; [|split]]].
  - intros q Hq. rewrite Hn'. destruct (_ && _); [|reflexivity].
    apply lookup_delete_ne. congruence.
  - intros Hp Hu. unfold Fs.existsSync. rewrite Hn', Hp.
    rewrite (bool_decide_eq_true_2 _ Hu). cbn [andb].
    apply bool_decide_eq_false. rewrite lookup_delete_eq. intros [? [=]].
  - intros Hu. rewrite Hn'.
    rewrite (bool_decide_eq_false_2 (_ ∉ _)) by auto.
    rewrite andb_false_r. reflexivity.
  - intros range now. apply stream_absent_404. rewrite Hv'.
    apply lookup_delete_eq.
  - intros _. unfold admin_delete.
    cbn [JS.truthy_opt from_option Datatypes.id].
    rewrite Hid. cbn [negb]. unfold bind, get. rewrite Hv', lookup_delete_eq.
    reflexivity.
Qed.

Lemma admin_delete_removes_witness :
  let cfg := sample_config VideoProxyServer in
  let w' := snd (step cfg (PostAdminDelete (Some sample_id))
                      (sample_world VideoProxyServer)) in
  videos w' !! sample_id = None
  ∧ Fs.existsSync "/data/e482ef9a1c39" (fs w') = false
  ∧ fst (route_stream cfg sample_id None 1700013950000 w')
    = json_error 404 "not cached".
Proof.
  intros cfg w'.
  destruct (admin_delete_removes cfg (sample_world VideoProxyServer) sample_id
              sample_entry)
    as (_ & Hv & _ & _ & Hf & _ & Hs & _);
    [reflexivity | reflexivity | vm_compute; reflexivity |].
  split; [unfold w'; rewrite Hv; apply lookup_delete_eq|].
  split; [|apply Hs].
  apply Hf; [reflexivity|]. vm_compute. intros [=].
Defined.

(** X15.  [/admin/delete] answers 400 [missing id] when no id is given,
    and 404 [not found] when [videos] has no entry under the id (the id
    not being a property name that every object inherits); in both cases
    nothing changes, not even [videos.json]. *)
Theorem admin_delete_refuses cfg id w :
  variant cfg = VideoProxyServer →
  (JS.truthy_opt id = false →
   step cfg (PostAdminDelete id) w = (Some (json_error 400 "missing id"), w))
  ∧ (JS.truthy_opt id = true → videos w !! default "" id = None →
     inherited (default "" id) = false →
     step cfg (PostAdminDelete id) w = (Some (json_error 404 "not found"), w)).
Proof.
  intros Hvar. cbn [step]. rewrite Hvar. unfold admin_delete. split.
  - intros ->. reflexivity.
  - intros -> Hv _. cbn [negb]. unfold bind, get. rewrite Hv. reflexivity.
Qed.

Lemma admin_delete_refuses_witness :
  step (sample_config VideoProxyServer) (PostAdminDelete None) initial_world
  = (Some (json_error 400 "missing id"), initial_world)
  ∧ step (sample_config VideoProxyServer) (PostAdminDelete (Some "0123456789ab"))
         initial_world
    = (Some (json_error 404 "not found"), initial_world).
Proof.
  destruct (admin_delete_refuses (sample_config VideoProxyServer) None
              initial_world eq_refl) as [H1 _].
  destruct (admin_delete_refuses (sample_config VideoProxyServer)
              (Some "0123456789ab") initial_world eq_refl) as [_ H2].
  split; [apply H1; reflexivity | apply H2; reflexivity].
Defined.

(** X16.  [video-proxy-server]: when an entry is deleted while its
    download is in flight, the download goes on.  When it finishes the
    file is renamed to its final path, [videos[id].status = 'ready']
    throws, and the [catch] block, finding no entry, does nothing: the
    file stays under [DATA_DIR] with no entry in [videos], and
    [/stream/:id] answers 404. *)
Theorem delete_during_download_orphans_file cfg w n id url wr rec e0 i now :
  variant cfg = VideoProxyServer →
  JS.truthy id = true →
  videos w !! id = Some e0 → JS.truthy_opt (e_path e0) = false →
  tasks w !! n = Some (mkTask id url (Piping wr) rec) →
  names (fs w) !! tmpPath_of cfg id = Some i →
  let w' := exec cfg [PostAdminDelete (Some id); Finished n now] w in
  videos w' = delete id (videos w)
  ∧ names (fs w') !! filePath_of cfg id = Some i
  ∧ names (fs w') !! tmpPath_of cfg id = None
  ∧ inodes (fs w') = inodes (fs w)
  ∧ ∀ range now',
      fst (route_stream cfg id range now' w') = json_error 404 "not cached".
Proof.
  intros Hvar Hid Hv Hp Hn Hi. cbv zeta.
  change (exec cfg [PostAdminDelete (Some id); Finished n now] w)
    with (snd (step cfg (Finished n now)
                    (snd (step cfg (PostAdminDelete (Some id)) w)))).
  assert (persist_succeeds cfg w) as Hok
      by (intros Hm; rewrite Hvar in Hm; discriminate).
  destruct (admin_delete_run cfg id e0 w Hid Hv Hok)
    as (w1 & Hrun & Hv1 & Ht1 & _ & Hi1 & _ & Hn1).
  rewrite Hp in Hn1. cbn [andb] in Hn1.
  assert (snd (step cfg (PostAdminDelete (Some id)) w) = w1) as ->.
  { cbn [step]. rewrite Hvar, Hrun. reflexivity. }
  rewrite <- Ht1 in Hn. rewrite (step_finished _ _ _ _ _ _ _ _ Hn).
  set (w2 := set_tasks _ w1).
  assert (videos w2 !! id = None) as Hgone
      by (cbn [videos w2 set_tasks]; rewrite Hv1; apply lookup_delete_eq).
  assert (names (fs w2) !! tmpPath_of cfg id = Some i) as Hi2
      by (cbn [fs w2 set_tasks]; rewrite Hn1; exact Hi).
  pose proof (renameSync_run (tmpPath_of cfg id) (filePath_of cfg id) w2 i Hi2)
    as Hren.
  set (w3 := set_fs _ w2) in Hren.
  destruct (assign_none id "status" (with_status ready) w3 Hgone) as [e He].
  assert (download_finish cfg id now w2
          = (Ok tt, add_console ("download error " ++ exn_message e) w3)) as Hfin.
  { unfold download_finish. cbv zeta.
    erewrite try_catch_throw
      by (rewrite (bind_ok _ _ _ _ _ Hren), (bind_throw _ _ _ _ _ He);
          reflexivity).
    unfold download_catch. rewrite Hvar.
    rewrite (bind_ok _ _ _ _ _ (console_log_run _ w3)).
    unfold bind, get. cbn [videos add_console].
    rewrite (Hgone : videos w3 !! id = None). reflexivity. }
  rewrite Hfin. cbn [snd videos fs add_console w3 set_fs names inodes w2 set_tasks].
  split; [exact Hv1|]. split; [apply lookup_insert_eq|]. split; [|split].
  - rewrite lookup_insert_ne
      by (intros Heq; symmetry in Heq; revert Heq;
          apply tmpPath_ne_filePath; reflexivity).
    apply lookup_delete_eq.
  - exact Hi1.
  - intros range now'. apply stream_absent_404. exact Hgone.
Qed.

Lemma delete_during_download_orphans_file_witness :
  let cfg := sample_config VideoProxyServer in
  let w := exec cfg sample_piping initial_world in
  let w' := exec cfg [PostAdminDelete (Some sample_id);
                      Finished 0 1700013943000] w in
  videos w' = delete sample_id (videos w)
  ∧ names (fs w') !! "/data/e482ef9a1c39" = Some 0%nat.
Proof.
  intros cfg w w'.
  destruct (delete_during_download_orphans_file cfg w 0 sample_id sample_url
              (mkWriter 0 11) (bytes_of "hello world")
              (new_entry sample_url sample_id 1700013942250) 0%nat
              1700013943000)
    as (Hv & Hf & _);
    [reflexivity | reflexivity | vm_compute; reflexivity | reflexivity
     | vm_compute; reflexivity | vm_compute; reflexivity |].
  exact (conj Hv Hf).
Defined.

(** ** The cleanup task: what a sweep leaves alone *)

Lemma evicts_one cfg now k info p :
  evicts cfg now [(k, info)] p
  ↔ expired cfg now info = true ∧ default "" (e_path info) = p.
Proof.
  unfold evicts. rewrite Exists_cons, Exists_nil. cbn [snd]. tauto.
Qed.

Lemma sweep_entry_names_eq cfg now w kv p :
  names (fs (sweep_entry cfg now w kv)) !! p
  = if decide ((p ∉ undeletable (fs w)) ∧ evicts cfg now [kv] p) then None
    else names (fs w) !! p.
Proof.
  destruct kv as [k info].
  pose proof (evicts_one cfg now k info p) as Hev.
  unfold sweep_entry. unfold expired in Hev.
  destruct (JS.truthy_opt (e_path info)); cbn [negb andb] in *.
  2:{ rewrite decide_False; [reflexivity|].
      intros [_ [H _]%Hev]. discriminate. }
  destruct (_ <? _).
  2:{ rewrite decide_False; [reflexivity|].
      intros [_ [H _]%Hev]. discriminate. }
  cbn [fs add_console set_videos]. unfold Fs.unlinkSync.
  set (q := default "" (e_path info)) in *.
  destruct (decide ((p ∉ undeletable (fs w)) ∧ evicts cfg now [(k, info)] p))
    as [[Hu [_ He]%Hev]|Hn].
  - subst p.
    destruct (names (fs w) !! q) eqn:E; [|exact E].
    rewrite decide_False by exact Hu. cbn. apply lookup_delete_eq.
  - destruct (names (fs w) !! q) eqn:E; [|reflexivity].
    destruct (decide (q ∈ undeletable (fs w))) as [Hin|Hout]; [reflexivity|].
    cbn. apply lookup_delete_ne. intros <-. apply Hn.
    split; [exact Hout|]. apply Hev. auto.
Qed.

Lemma sweep_entry_inodes cfg now w kv :
  inodes (fs (sweep_entry cfg now w kv)) = inodes (fs w)
  ∧ next_ino (fs (sweep_entry cfg now w kv)) = next_ino (fs w)
  ∧ tasks (sweep_entry cfg now w kv) = tasks w.
Proof.
  destruct kv as [k info]. unfold sweep_entry.
  destruct (negb _); [auto|]. destruct (_ <? _); [|auto].
  cbn. unfold Fs.unlinkSync.
  destruct (names (fs w) !! _); [|auto].
  case_decide; auto.
Qed.

Lemma sweep_loop_fs cfg now l : ∀ w,
  let w' := foldl (sweep_entry cfg now) w l in
  (∀ p, names (fs w') !! p
        = if decide ((p ∉ undeletable (fs w)) ∧ evicts cfg now l p) then None
          else names (fs w) !! p)
  ∧ inodes (fs w') = inodes (fs w)
  ∧ next_ino (fs w') = next_ino (fs w)
  ∧ undeletable (fs w') = undeletable (fs w)
  ∧ tasks w' = tasks w.
Proof.
  induction l as [|kv l IH]; intros w; cbv zeta; cbn [foldl].
  - split; [|auto]. intros p. rewrite decide_False; [reflexivity|].
    intros [_ H]. inversion H.
  - destruct (IH (sweep_entry cfg now w kv)) as (Hn & Hi & Hx & Hu & Ht).
    destruct (sweep_entry_inodes cfg now w kv) as (Hi1 & Hx1 & Ht1).
    pose proof (sweep_entry_undeletable cfg now w kv) as Hu1.
    split; [|rewrite Hi, Hx, Hu, Ht; auto].
    intros p. rewrite Hn, Hu1, sweep_entry_names_eq. unfold evicts.
    repeat case_decide; try reflexivity; exfalso;
      repeat match goal with
             | H : _ ∧ _ |- _ => destruct H
             | H : ¬ (_ ∧ _) |- _ => apply H; split; [assumption|]
             end;
      rewrite ?Exists_cons in *; rewrite ?Exists_nil in *; tauto.
Qed.

(** What a sweep does to the file system: it unlinks the paths of the
    entries it evicts, those that cannot be unlinked apart. *)
Lemma sweep_fs cfg now w :
  let w' := snd (sweep cfg now w) in
  (∀ p, names (fs w') !! p
        = if decide ((p ∉ undeletable (fs w))
                     ∧ evicts cfg now (map_to_list (videos w)) p)
          then None else names (fs w) !! p)
  ∧ inodes (fs w') = inodes (fs w)
  ∧ next_ino (fs w') = next_ino (fs w)
  ∧ undeletable (fs w') = undeletable (fs w)
  ∧ tasks w' = tasks w.
Proof.
  cbv zeta. unfold sweep, bind, get, modify. cbv beta iota.
  destruct (persist cfg _) as [r w'] eqn:E.
  apply persist_videos in E as (_ & Hfs & Ht & _).
  cbn [snd]. rewrite Hfs, Ht. apply sweep_loop_fs.
Qed.

Lemma evicts_lookup cfg now (m : gmap string Entry) p :
  evicts cfg now (map_to_list m) p
  ↔ ∃ id info, m !! id = Some info ∧ expired cfg now info = true
               ∧ default "" (e_path info) = p.
Proof.
  unfold evicts. rewrite Exists_exists. split.
  - intros ([id info] & Hin%elem_of_map_to_list & He & Hp). eauto.
  - intros (id & info & Hl & He & Hp). exists (id, info).
    split; [apply elem_of_map_to_list; exact Hl | auto].
Qed.

(** X17.  A sweep spares what is active: an entry whose last access (or
    addition) lies no more than the inactivity threshold back, the
    boundary included, stays in [videos] unchanged, and its file keeps its
    content, unless an evicted entry has the same [path]. *)
Theorem sweep_spares_active cfg w now id info data :
  cached w id info data →
  now - last_seen info ≤ INACTIVITY_MS cfg →
  (∀ id' info', videos w !! id' = Some info' →
                expired cfg now info' = true → e_path info' ≠ e_path info) →
  cached (snd (sweep cfg now w)) id info data.
Proof.
  intros (Hv & Ht & Hc) Hle Hother.
  assert (expired cfg now info = false) as Hex.
  { unfold expired. destruct (Z.ltb_spec (INACTIVITY_MS cfg) (now - last_seen info));
      [lia | apply andb_false_r]. }
  destruct (sweep_fs cfg now w) as (Hn & Hi & _).
  split; [rewrite sweep_videos, Hv, Hex; reflexivity|]. split; [exact Ht|].
  unfold Fs.content in *. rewrite Hn, Hi.
  rewrite decide_False; [exact Hc|].
  intros [_ (id' & info' & Hl & He & Hp)%evicts_lookup].
  apply (Hother id' info' Hl He).
  unfold expired in He. apply andb_true_iff in He as [Ht' _].
  destruct (e_path info') as [p'|], (e_path info) as [p|];
    try discriminate; cbn in Hp; congruence.
Qed.

Lemma sweep_spares_active_witness :
  cached (snd (sweep (sample_config VideoProxyServer) 1700017543000
                     (sample_world VideoProxyServer)))
         sample_id sample_entry (bytes_of "hello world").
Proof.
  apply (sweep_spares_active (sample_config VideoProxyServer)
           (sample_world VideoProxyServer) 1700017543000 sample_id
           sample_entry (bytes_of "hello world")).
  - repeat split; vm_compute; reflexivity.
  - vm_compute. discriminate.
  - intros id' info' Hl He.
    assert (videos (sample_world VideoProxyServer)
            = {[sample_id := sample_entry]}) as Hvid
        by (vm_compute; reflexivity).
    rewrite Hvid in Hl. apply lookup_singleton_Some in Hl as [_ <-].
    vm_compute in He. discriminate He.
Defined.

Lemma expired_later cfg now1 now2 info :
  now1 ≤ now2 → expired cfg now1 info = true → expired cfg now2 info = true.
Proof.
  unfold expired. intros Hle [Ht Hlt%Z.ltb_lt]%andb_true_iff.
  rewrite Ht. apply Z.ltb_lt. lia.
Qed.

Lemma FS_eq (f g : FS) :
  names f = names g → inodes f = inodes g → next_ino f = next_ino g →
  undeletable f = undeletable g → f = g.
Proof. destruct f, g. cbn. intros -> -> -> ->. reflexivity. Qed.

(** X18.  A later sweep subsumes an earlier one: sweeping at [now1] and
    then at [now2 >= now1] leaves the same entries and the same files as
    sweeping at [now2] alone.  In particular a second sweep at the same
    time changes nothing. *)
Theorem sweep_later_subsumes_earlier cfg w now1 now2 :
  now1 ≤ now2 →
  let wa := snd (sweep cfg now2 (snd (sweep cfg now1 w))) in
  let wb := snd (sweep cfg now2 w) in
  videos wa = videos wb ∧ fs wa = fs wb ∧ tasks wa = tasks wb.
Proof.
  intros Hle. cbv zeta.
  set (w1 := snd (sweep cfg now1 w)).
  assert (∀ id, videos w1 !! id
                = match videos w !! id with
                  | Some info => if expired cfg now1 info then None else Some info
                  | None => None
                  end) as Hv1 by (intros id; apply sweep_videos).
  destruct (sweep_fs cfg now1 w) as (Hn1 & Hi1 & Hx1 & Hu1 & Ht1).
  fold w1 in Hn1, Hi1, Hx1, Hu1, Ht1.
  destruct (sweep_fs cfg now2 w1) as (Hna & Hia & Hxa & Hua & Hta).
  destruct (sweep_fs cfg now2 w) as (Hnb & Hib & Hxb & Hub & Htb).
  split; [|split].
  - apply map_eq. intros id. rewrite !sweep_videos, Hv1.
    destruct (videos w !! id) as [info|]; [|reflexivity].
    destruct (expired cfg now1 info) eqn:E1; [|reflexivity].
    rewrite (expired_later cfg now1 now2 info Hle E1). reflexivity.
  - apply FS_eq; try congruence.
    apply map_eq. intros p. rewrite Hna, Hnb, Hn1, Hu1.
    destruct (decide (p ∉ undeletable (fs w))) as [Hp|Hp].
    2:{ rewrite !decide_False by tauto. reflexivity. }
    destruct (decide ((p ∉ undeletable (fs w))
                      ∧ evicts cfg now2 (map_to_list (videos w)) p))
      as [[_ Hb]|Hb].
    + apply evicts_lookup in Hb as (id & info & Hl & He & Hpath).
      destruct (expired cfg now1 info) eqn:E1.
      * destruct (decide (_ ∧ evicts cfg now2 _ p)); [reflexivity|].
        rewrite decide_True; [reflexivity|]. split; [exact Hp|].
        apply evicts_lookup. eauto.
      * rewrite decide_True; [reflexivity|]. split; [exact Hp|].
        apply evicts_lookup. exists id, info.
        split; [rewrite Hv1, Hl, E1; reflexivity | auto].
    + rewrite !decide_False; [reflexivity | |].
      * intros [_ (id & info & Hl & He & Hpath)%evicts_lookup].
        apply Hb. split; [exact Hp|]. apply evicts_lookup.
        exists id, info. split; [exact Hl|].
        split; [eapply expired_later; eassumption | exact Hpath].
      * intros [_ (id & info & Hl & He & Hpath)%evicts_lookup].
        apply Hb. split; [exact Hp|]. apply evicts_lookup.
        exists id, info. split; [|auto].
        rewrite Hv1 in Hl. destruct (videos w !! id) as [i0|]; [|discriminate].
        destruct (expired cfg now1 i0); [discriminate | exact Hl].
  - congruence.
Qed.

Lemma sweep_later_subsumes_earlier_witness :
  let cfg := sample_config MainframeServer in
  let w := sample_world MainframeServer in
  videos (snd (sweep cfg 1700017543001 (snd (sweep cfg 1700013950000 w))))
  = videos (snd (sweep cfg 1700017543001 w)).
Proof.
  intros cfg w.
  destruct (sweep_later_subsumes_earlier cfg w 1700013950000 1700017543001)
    as (H & _); [lia | exact H].
Defined.

(** ** The sweeper and the downloads in flight *)

(** X29.  The sweeper does not disturb a download in flight: as long as
    no id is generated twice, the files it unlinks are final files, so
    that after a sweep every open write stream still has its temporary
    file under its path, holding what the download has received so
    far. *)
Theorem sweep_spares_downloads_in_flight cfg evs now n t wr :
  fresh_ids cfg evs initial_world →
  let w := exec cfg evs initial_world in
  tasks w !! n = Some t → writer_of (t_phase t) = Some wr →
  let w' := snd (sweep cfg now w) in
  tasks w' !! n = Some t
  ∧ names (fs w') !! tmpPath_of cfg (t_id t) = Some (w_ino wr)
  ∧ inodes (fs w') !! w_ino wr = Some (t_received t).
Proof.
  intros Hfresh. cbv zeta. intros Hn Hw.
  pose proof (exec_invariant cfg evs initial_world (invariant_initial cfg) Hfresh)
    as HI. unfold invariant in HI.
  set (w := exec cfg evs initial_world) in *.
  destruct (inv_writer _ _ _ _ _ _ HI n t wr Hn Hw) as (Hb & _ & Hc & _).
  destruct (sweep_fs cfg now w) as (Hnames & Hi & _ & _ & Ht).
  split; [rewrite Ht; exact Hn|]. split; [|rewrite Hi; exact Hc].
  rewrite Hnames, decide_False; [exact Hb|].
  intros [_ (id & info & Hl & He & Hp)%evicts_lookup].
  unfold expired in He. apply andb_true_iff in He as [Htr _].
  destruct (e_path info) as [p|] eqn:Hpath; [|discriminate].
  cbn in Htr, Hp. subst p.
  assert (paths w !! id = Some (Some (tmpPath_of cfg (t_id t)))) as HP
      by (rewrite paths_lookup, Hl; cbn; rewrite Hpath; reflexivity).
  destruct (inv_cached _ _ _ _ _ _ HI id _ HP Htr) as (Heq & _).
  revert Heq. apply tmpPath_ne_filePath.
  rewrite (inv_len _ _ _ _ _ _ HI n t Hn).
  symmetry. apply (inv_key _ _ _ _ _ _ HI id _ HP).
Qed.

Lemma sweep_spares_downloads_in_flight_witness :
  let cfg := sample_config VideoProxyServer in
  let w' := snd (sweep cfg 1800000000000 (exec cfg sample_piping initial_world)) in
  names (fs w') !! "/data/e482ef9a1c39.part" = Some 0%nat
  ∧ inodes (fs w') !! 0%nat = Some (bytes_of "hello world").
Proof.
  intros cfg w'.
  destruct (sweep_spares_downloads_in_flight cfg sample_piping 1800000000000 0
              (mkTask sample_id sample_url (Piping (mkWriter 0 11))
                      (bytes_of "hello world"))
              (mkWriter 0 11))
    as (_ & H1 & H2).
  - cbn [fresh_ids sample_piping].
    split; [intros id _; apply not_elem_of_nil|].
    repeat (split; [intros id [=]|]). exact I.
  - vm_compute. reflexivity.
  - reflexivity.
  - exact (conj H1 H2).
Defined.

(** ** [videos.json] mirrors [videos] *)

Ltac run_handler :=
  repeat
    (cbv beta iota;
     cbn [fst snd videos fs disk_ok persisted tasks console set_videos set_fs
          set_tasks set_persisted add_console set_disk_ok names inodes
          from_option Datatypes.id] in *;
     match goal with
     | H : disk_ok ?w = true |- context [disk_ok ?w] => rewrite H
     | H : ?x = _ |- context [match ?x with _ => _ end] => rewrite H
     | |- context [<[?k := _]> _ !! ?k] => rewrite lookup_insert_eq
     | |- context [match ?x with _ => _ end] =>
         lazymatch x with
         | context [match _ with _ => _ end] => fail
         | _ => destruct x eqn:?
         end
     end).

Ltac unfold_handlers :=
  unfold route_stream; unfold add, stream, admin_delete, download_start,
    download_response, download_chunk, download_finish, download_catch;
  unfold assign, renameSync, statSync_size, createWriteStream, set_task,
    console_log, persist;
  unfold writeMetadata, try_catch, bind, get, modify, ret, throw, lift_res,
    Fs.renameSync, Fs.statSync_size, Fs.content, Fs.open_w.

Lemma sweep_loop_disk cfg now l : ∀ w,
  disk_ok (foldl (sweep_entry cfg now) w l) = disk_ok w
  ∧ persisted (foldl (sweep_entry cfg now) w l) = persisted w.
Proof.
  induction l as [|[k info] l IH]; intros w; cbn [foldl]; [auto|].
  destruct (IH (sweep_entry cfg now w (k, info))) as [-> ->].
  unfold sweep_entry. destruct (negb _); [auto|]. destruct (_ <? _); [|auto].
  destruct (Fs.unlinkSync _ _); auto.
Qed.

(** A turn that starts with [videos.json] writable ends with [videos.json]
    equal to [videos], or has changed neither. *)
Lemma step_settles cfg ev w :
  ev ≠ DiskOk false → disk_ok w = true →
  let w' := snd (step cfg ev w) in
  disk_ok w' = true
  ∧ (persisted w' = videos w'
     ∨ (videos w' = videos w ∧ persisted w' = persisted w)).
Proof.
  intros Hev Hd. cbv zeta.
  destruct ev as [url now now'|id range now|id|now|n r|n bs|n now|n e|b];
    cbn [step].
  - unfold_handlers. run_handler; auto.
  - unfold_handlers. run_handler; auto.
  - unfold_handlers. run_handler; auto.
  - unfold sweep, bind, get, modify. cbv beta iota.
    destruct (sweep_loop_disk cfg now (map_to_list (videos w)) w) as [Hd' _].
    unfold persist, writeMetadata, try_catch.
    destruct (variant cfg); cbv beta; rewrite Hd', Hd; cbn;
      (split; [congruence | left; reflexivity]).
  - unfold_handlers. run_handler; auto.
  - unfold_handlers. run_handler; auto.
  - unfold_handlers. run_handler; auto.
  - unfold_handlers. run_handler; auto.
  - destruct b; [cbn; auto | congruence].
Qed.

(** X19.  As long as [videos.json] can be written, it holds after every
    turn of the event loop what [videos] holds: every handler, and every
    continuation of [downloadFull], that changes [videos] calls
    [persist()] before it ends, also on its error paths. *)
Theorem metadata_mirrors_videos cfg evs w :
  synced w → Forall (fun ev => ev ≠ DiskOk false) evs →
  synced (exec cfg evs w).
Proof.
  revert w. induction evs as [|ev evs IH]; intros w Hs Hevs; [exact Hs|].
  apply Forall_cons in Hevs as [Hev Hevs].
  change (exec cfg (ev :: evs) w) with (exec cfg evs (snd (step cfg ev w))).
  apply IH; [|exact Hevs].
  destruct Hs as [Hd Hp].
  destruct (step_settles cfg ev w Hev Hd) as (Hd' & [Hs' | [Hv' Hp']]).
  - split; assumption.
  - split; [exact Hd' | congruence].
Qed.

Lemma metadata_mirrors_videos_witness :
  synced (exec (sample_config MainframeServer)
               (sample_download ++ [GetStream sample_id None 1700013950000;
                                    Cleanup 1700017550001])%list
               initial_world).
Proof.
  apply (metadata_mirrors_videos (sample_config MainframeServer)).
  - split; reflexivity.
  - repeat constructor; discriminate.
Defined.

(** X20.  [videos.json] catches up: whatever it held before, a turn that
    starts with the file writable and changes [videos] leaves it equal to
    [videos], and so does every sweep, changes or not. *)
Theorem metadata_catches_up cfg ev w :
  disk_ok w = true → ev ≠ DiskOk false →
  let w' := snd (step cfg ev w) in
  (videos w' ≠ videos w → persisted w' = videos w')
  ∧ (∀ now, ev = Cleanup now → persisted w' = videos w').
Proof.
  intros Hd Hev. cbv zeta. split.
  - intros Hne.
    destruct (step_settles cfg ev w Hev Hd) as (_ & [Hs | [Hv _]]);
      [exact Hs | contradiction].
  - intros now ->. cbn [step]. unfold sweep, bind, get, modify. cbv beta iota.
    destruct (sweep_loop_disk cfg now (map_to_list (videos w)) w) as [Hd' _].
    unfold persist, writeMetadata, try_catch.
    destruct (variant cfg); cbv beta; rewrite Hd', Hd; reflexivity.
Qed.

Lemma metadata_catches_up_witness :
  let cfg := sample_config VideoProxyServer in
  let w := exec cfg [DiskOk false;
                     GetAdd (Some sample_url) 1700013942250 1700013942250;
                     DiskOk true] initial_world in
  persisted w = ∅
  ∧ persisted (snd (step cfg (Cleanup 1700013950000) w)) = videos w.
Proof.
  intros cfg w. split; [reflexivity|].
  destruct (metadata_catches_up cfg (Cleanup 1700013950000) w)
    as [_ H]; [reflexivity | discriminate |].
  rewrite (H 1700013950000 eq_refl). vm_compute. reflexivity.
Defined.

(** ** [/stream-proxy]: what is relayed and what is refused *)

Lemma stream_proxy_run cfg url range origin :
  JS.truthy url = true → parses_as_URL cfg url = true →
  stream_proxy cfg (Some url) range origin
  = match origin url (forwarded_range range) with
    | Throw _ => json_error 502 "stream failed"
    | Ok up =>
        if proxy_accepts (variant cfg) (up_status up) then
          mkResponse (if up_status up =? 206 then 206 else 200)
            ((if up_status up =? 206
              then match origin_header "content-range" up with
                   | Some cr => [("Content-Range", cr)]
                   | None => []
                   end
                   ++ [("Accept-Ranges",
                        default "bytes" (origin_header "accept-ranges" up))]
              else [])
             ++ match origin_header "content-length" up with
                | Some cl => [("Content-Length", cl)]
                | None => []
                end
             ++ match variant cfg with
                | VideoProxyServer =>
                    match origin_header "content-type" up with
                    | Some ct => [("Content-Type", ct)]
                    | None => []
                    end
                | MainframeServer =>
                    [("Content-Type",
                      default "application/octet-stream"
                              (origin_header "content-type" up))]
                end
             ++ [("Cache-Control", "no-store")])%list
            (Bytes (up_body up))
        else json_error 502 ("upstream " ++ JS.dec (up_status up))
    end.
Proof.
  intros Hu Hp. unfold stream_proxy, forwarded_range, proxy_accepts.
  cbn [JS.truthy_opt from_option Datatypes.id]. rewrite Hu, Hp. cbn [negb].
  destruct (origin url _) as [up|e]; [|reflexivity].
  unfold origin_header.
  destruct (variant cfg).
  - destruct (Z.leb_spec 400 (up_status up)), (Z.ltb_spec (up_status up) 400);
      try lia; [reflexivity|].
    destruct (up_status up =? 206);
      destruct (header "content-range" (up_headers up)) as [cr|];
      destruct (header "accept-ranges" (up_headers up)) as [ar|];
      destruct (header "content-length" (up_headers up)) as [cl|];
      destruct (header "content-type" (up_headers up)) as [ct|];
      cbn [JS.truthy_opt from_option Datatypes.id];
      repeat match goal with
             | |- context [JS.truthy ?s] => destruct (JS.truthy s)
             end; reflexivity.
  - destruct (status_ok (up_status up)); cbn [negb]; [|reflexivity].
    destruct (up_status up =? 206);
      destruct (header "content-range" (up_headers up)) as [cr|];
      destruct (header "accept-ranges" (up_headers up)) as [ar|];
      destruct (header "content-length" (up_headers up)) as [cl|];
      destruct (header "content-type" (up_headers up)) as [ct|];
      cbn [JS.truthy_opt from_option Datatypes.id];
      repeat match goal with
             | |- context [JS.truthy ?s] => destruct (JS.truthy s)
             end; reflexivity.
Qed.

(** X21.  When the origin answers with a status that is accepted,
    [/stream-proxy] relays the body as it is, with [Cache-Control:
    no-store].  The status is 206 for 206 and 200 for every other
    accepted status.  [Content-Length] and [Content-Type] are those of the
    origin ([application/octet-stream] in the mainframe server when the
    origin names no type), and for 206 [Content-Range] is the origin's and
    [Accept-Ranges] the origin's or [bytes]; a header with an empty value
    counts as missing. *)
Theorem stream_proxy_relays_origin cfg url range origin up :
  JS.truthy url = true → parses_as_URL cfg url = true →
  origin url (forwarded_range range) = Ok up →
  proxy_accepts (variant cfg) (up_status up) = true →
  let r := stream_proxy cfg (Some url) range origin in
  let partial := up_status up =? 206 in
  status r = (if partial then 206 else 200)
  ∧ body r = Bytes (up_body up)
  ∧ header "Cache-Control" (headers r) = Some "no-store"
  ∧ header "Content-Length" (headers r) = origin_header "content-length" up
  ∧ header "Content-Type" (headers r)
    = match variant cfg with
      | VideoProxyServer => origin_header "content-type" up
      | MainframeServer =>
          Some (default "application/octet-stream"
                        (origin_header "content-type" up))
      end
  ∧ header "Content-Range" (headers r)
    = (if partial then origin_header "content-range" up else None)
  ∧ header "Accept-Ranges" (headers r)
    = (if partial
       then Some (default "bytes" (origin_header "accept-ranges" up))
       else None).
Proof.
  intros Hu Hp Ho Ha. cbv zeta.
  rewrite (stream_proxy_run cfg url range origin Hu Hp), Ho, Ha.
  cbn [status body headers].
  destruct (up_status up =? 206), (variant cfg);
    destruct (origin_header "content-range" up),
             (origin_header "accept-ranges" up),
             (origin_header "content-length" up),
             (origin_header "content-type" up);
    repeat split; reflexivity.
Qed.

Lemma stream_proxy_relays_origin_witness :
  let r := stream_proxy (sample_config MainframeServer) (Some sample_url) None
             (fun _ _ => Ok (mkUpstream 200 [("content-length", "11")]
                                        (bytes_of "hello world"))) in
  status r = 200 ∧ body r = Bytes (bytes_of "hello world")
  ∧ header "Content-Type" (headers r) = Some "application/octet-stream".
Proof.
  intro r.
  destruct (stream_proxy_relays_origin (sample_config MainframeServer)
              sample_url None
              (fun _ _ => Ok (mkUpstream 200 [("content-length", "11")]
                                         (bytes_of "hello world")))
              (mkUpstream 200 [("content-length", "11")]
                          (bytes_of "hello world")))
    as (H1 & H2 & _ & _ & H5 & _); try reflexivity.
  exact (conj H1 (conj H2 H5)).
Defined.

(** X22.  What [/stream-proxy] refuses: 400 [missing url] without a
    [url], 400 [invalid url] when [new URL(url)] throws, 502 [stream
    failed] when the request to the origin fails, and 502 [upstream N]
    when the origin answers with a status [N] that is not accepted.  The
    status of the answer is always one of 200, 206, 400 and 502. *)
Theorem stream_proxy_refusals cfg url range origin :
  let r := stream_proxy cfg url range origin in
  let u := default "" url in
  (JS.truthy_opt url = false → r = json_error 400 "missing url")
  ∧ (JS.truthy_opt url = true → parses_as_URL cfg u = false →
     r = json_error 400 "invalid url")
  ∧ (JS.truthy_opt url = true → parses_as_URL cfg u = true →
     (∀ e, origin u (forwarded_range range) = Throw e →
           r = json_error 502 "stream failed")
     ∧ (∀ up, origin u (forwarded_range range) = Ok up →
              proxy_accepts (variant cfg) (up_status up) = false →
              r = json_error 502 ("upstream " ++ JS.dec (up_status up))))
  ∧ (status r = 200 ∨ status r = 206 ∨ status r = 400 ∨ status r = 502).
Proof.
  cbv zeta. destruct url as [u|]; cbn [JS.truthy_opt from_option Datatypes.id].
  2:{ repeat split; try discriminate; cbn; auto. }
  destruct (JS.truthy u) eqn:Hu.
  2:{ unfold stream_proxy. cbn [JS.truthy_opt]. rewrite Hu.
      repeat split; try discriminate; cbn; auto. }
  destruct (parses_as_URL cfg u) eqn:Hp.
  2:{ unfold stream_proxy. cbn [JS.truthy_opt from_option Datatypes.id].
      rewrite Hu, Hp. repeat split; try discriminate; cbn; auto. }
  rewrite (stream_proxy_run cfg u range origin Hu Hp).
  split; [discriminate|]. split; [discriminate|]. split.
  - intros _ _. split.
    + intros e ->. reflexivity.
    + intros up -> ->. reflexivity.
  - destruct (origin u _) as [up|e]; [|cbn; auto].
    destruct (proxy_accepts _ _); [|cbn; auto].
    cbn [status]. destruct (_ =? _); auto.
Qed.

(** X23.  The two servers differ on the statuses of the origin below 400
    and outside 200..299, 304 for one: [video-proxy-server] relays the
    body with status 200, the mainframe server answers 502. *)
Theorem stream_proxy_unusual_status cfg url range origin up :
  JS.truthy url = true → parses_as_URL cfg url = true →
  origin url (forwarded_range range) = Ok up →
  up_status up < 400 → status_ok (up_status up) = false →
  let r := stream_proxy cfg (Some url) range origin in
  match variant cfg with
  | VideoProxyServer => status r = 200 ∧ body r = Bytes (up_body up)
  | MainframeServer =>
      r = json_error 502 ("upstream " ++ JS.dec (up_status up))
  end.
Proof.
  intros Hu Hp Ho Hlt Hok. cbv zeta.
  rewrite (stream_proxy_run cfg url range origin Hu Hp), Ho.
  unfold proxy_accepts. destruct (variant cfg).
  - destruct (Z.ltb_spec (up_status up) 400); [|lia].
    cbn [status body].
    destruct (Z.eqb_spec (up_status up) 206) as [E|_]; [|auto].
    rewrite E in Hok. discriminate.
  - rewrite Hok. reflexivity.
Qed.

Lemma stream_proxy_unusual_status_witness :
  status (stream_proxy (sample_config VideoProxyServer) (Some sample_url) None
            (fun _ _ => Ok (mkUpstream 304 [] []))) = 200
  ∧ stream_proxy (sample_config MainframeServer) (Some sample_url) None
      (fun _ _ => Ok (mkUpstream 304 [] []))
    = json_error 502 "upstream 304".
Proof.
  split.
  - apply (stream_proxy_unusual_status (sample_config VideoProxyServer)
             sample_url None (fun _ _ => Ok (mkUpstream 304 [] []))
             (mkUpstream 304 [] [])); reflexivity.
  - apply (stream_proxy_unusual_status (sample_config MainframeServer)
             sample_url None (fun _ _ => Ok (mkUpstream 304 [] []))
             (mkUpstream 304 [] [])); reflexivity.
Defined.

(** ** [/watch/:id] *)

Lemma plain_forallb s :
  forallb plain_char (list_ascii_of_string s) = true → plain s.
Proof.
  unfold plain. induction (list_ascii_of_string s) as [|c l IH]; cbn [forallb].
  - constructor.
  - intros [Hc Hl]%andb_true_iff. constructor; auto.
Qed.

Lemma encode_char_plain c :
  plain (if uri_unreserved c then String c "" else percent_escape c).
Proof.
  apply plain_forallb.
  destruct c as [[] [] [] [] [] [] [] []]; vm_compute; reflexivity.
Qed.

Lemma plain_append a b : plain a → plain b → plain (a ++ b).
Proof.
  unfold plain. intros Ha Hb. rewrite chars_append. apply Forall_app. auto.
Qed.

Lemma encodeURIComponent_plain s : plain (encodeURIComponent s).
Proof.
  induction s as [|c s IH]; cbn [encodeURIComponent].
  - constructor.
  - apply plain_append; [apply encode_char_plain | exact IH].
Qed.

Lemma proxy_src_plain u : plain (proxy_src u).
Proof.
  unfold proxy_src. apply plain_append; [|apply encodeURIComponent_plain].
  apply plain_forallb. vm_compute. reflexivity.
Qed.

Lemma unreserved_not_percent c :
  uri_unreserved c = true → Ascii.eqb c "%" = false.
Proof.
  destruct c as [[] [] [] [] [] [] [] []]; intros H; try reflexivity;
    vm_compute in H; discriminate H.
Qed.

Lemma escape_decoded c :
  ascii_of_N (16 * hex_value (upper_hex_digit (N_of_ascii c / 16))
              + hex_value (upper_hex_digit (N_of_ascii c mod 16))) = c.
Proof. destruct c as [[] [] [] [] [] [] [] []]; vm_compute; reflexivity. Qed.

Lemma unescape_char c t :
  unescape ((if uri_unreserved c then String c "" else percent_escape c) ++ t)
  = String c (unescape t).
Proof.
  destruct (uri_unreserved c) eqn:E.
  - change (String c "" ++ t) with (String c t). cbn [unescape].
    rewrite (unreserved_not_percent c E). reflexivity.
  - unfold percent_escape.
    change (unescape (String "%" (String (upper_hex_digit (N_of_ascii c / 16))
                        (String (upper_hex_digit (N_of_ascii c mod 16)) t)))
            = String c (unescape t)).
    cbn [unescape]. change (Ascii.eqb "%" "%") with true. cbv iota.
    rewrite escape_decoded. reflexivity.
Qed.

Lemma unescape_encode s : unescape (encodeURIComponent s) = s.
Proof.
  induction s as [|c s IH]; [reflexivity|].
  cbn [encodeURIComponent]. rewrite unescape_char, IH. reflexivity.
Qed.

Lemma plain_no_markup s :
  plain s →
  Forall (fun c => c ≠ "034"%char ∧ c ≠ "<"%char ∧ c ≠ ">"%char
                   ∧ c ≠ " "%char)
         (list_ascii_of_string s).
Proof.
  unfold plain. intros H. eapply Forall_impl; [exact H|]. cbv beta.
  intros c Hc. repeat split; intros ->; discriminate Hc.
Qed.

(** X24.  [encodeURIComponent] loses nothing: decoding the [%XX] escapes
    of its result gives the string back, so that two URLs with the same
    encoding are the same URL, and the [url] parameter that
    [/stream-proxy] receives from a watch page is the URL the page was
    built for. *)
Theorem encodeURIComponent_round_trip s :
  unescape (encodeURIComponent s) = s
  ∧ ∀ s', proxy_src s = proxy_src s' → s = s'.
Proof.
  split; [apply unescape_encode|].
  intros s' H. unfold proxy_src in H.
  apply (inj (String.append "/stream-proxy?url=")) in H.
  rewrite <- (unescape_encode s), <- (unescape_encode s'), H. reflexivity.
Qed.

(** X25.  The watch page of [video-proxy-server].  For [temp] the source
    of the video is [/stream-proxy?url=] followed by the encoded [url];
    for an entry it is [/stream/:id] when the entry has a [path] and the
    proxy of its [source] otherwise.  A proxied source is made of letters,
    digits and [- _ . ! ~ * ' ( ) % / ? =] alone: whatever the URL, it
    holds no double quote, no angle bracket and no space, and cannot end
    the [src] attribute it is written in. *)
Theorem watch_proxy_src_is_encoded id url w :
  let v := VideoProxyServer in
  (id = "temp" → JS.truthy_opt url = true →
   watch v id url w
   = send_html (watch_page v id (proxy_src (default "" url))))
  ∧ (id ≠ "temp" → ∀ info, videos w !! id = Some info →
     watch v id url w
     = send_html
         (watch_page v id
            (if JS.truthy_opt (e_path info) then "/stream/" ++ id
             else proxy_src (if JS.truthy_opt (e_source info)
                             then default "" (e_source info) else ""))))
  ∧ (∀ u, plain (proxy_src u)
          ∧ Forall (fun c => c ≠ "034"%char ∧ c ≠ "<"%char ∧ c ≠ ">"%char
                             ∧ c ≠ " "%char)
                   (list_ascii_of_string (proxy_src u))).
Proof.
  cbv zeta. split; [|split].
  - intros -> Hu. unfold watch. cbn [String.eqb Ascii.eqb Bool.eqb].
    rewrite Hu. reflexivity.
  - intros Hid info Hv. unfold watch, watch_info.
    destruct (String.eqb_spec id "temp") as [->|_]; [contradiction|].
    rewrite Hv. reflexivity.
  - intros u. split; [apply proxy_src_plain|].
    apply plain_no_markup, proxy_src_plain.
Qed.

(** X26.  The mainframe server proxies the [url] of a temp watch only
    when it does not begin with a slash: a [url] that begins with one is
    written into the [src] attribute as it is, not encoded, where
    [video-proxy-server] proxies and encodes every [url]. *)
Theorem watch_mainframe_local_url_verbatim url w :
  JS.truthy url = true →
  watch MainframeServer "temp" (Some url) w
  = send_html (watch_page MainframeServer "temp"
                 (if String.prefix "/" url then url else proxy_src url))
  ∧ (∀ rest, url = "/" ++ rest →
             watch MainframeServer "temp" (Some url) w
             = send_html (watch_page MainframeServer "temp" url))
  ∧ watch VideoProxyServer "temp" (Some url) w
    = send_html (watch_page VideoProxyServer "temp" (proxy_src url)).
Proof.
  intros Hu. unfold watch. cbn [String.eqb Ascii.eqb Bool.eqb JS.truthy_opt].
  rewrite Hu. cbn [negb from_option Datatypes.id].
  split; [reflexivity|]. split; [|reflexivity].
  intros rest ->. destruct rest; reflexivity.
Qed.

Lemma watch_mainframe_local_url_verbatim_witness :
  watch MainframeServer "temp" (Some "/list") initial_world
  = send_html (watch_page MainframeServer "temp" "/list").
Proof.
  destruct (watch_mainframe_local_url_verbatim "/list" initial_world eq_refl)
    as (_ & H & _).
  apply (H "list"). reflexivity.
Defined.

(** X27.  What [/watch/:id] refuses: 400 for [temp] without a [url], and
    404 for an id under which [videos] has nothing.  A property name that
    every object inherits ([constructor], [toString], ...) is not such an
    id: [videos[id]] finds a value without [path] or [source], for which
    [video-proxy-server] sends a page with an empty proxy URL and the
    mainframe server throws, which is answered 500. *)
Theorem watch_refusals v id url w :
  (id = "temp" → JS.truthy_opt url = false →
   watch v id url w = mkResponse 400 [] (Text "Missing url for temp watch"))
  ∧ (id ≠ "temp" → videos w !! id = None →
     (inherited id = false →
      watch v id url w = mkResponse 404 [] (Text "Unknown id"))
     ∧ (inherited id = true →
        match v with
        | VideoProxyServer =>
            watch v id url w = send_html (watch_page v id (proxy_src ""))
        | MainframeServer => status (watch v id url w) = 500
        end)).
Proof.
  split.
  - intros -> Hu. unfold watch. cbn [String.eqb Ascii.eqb Bool.eqb].
    rewrite Hu. destruct v; reflexivity.
  - intros Hid Hv. unfold watch, watch_info.
    destruct (String.eqb_spec id "temp") as [->|_]; [contradiction|].
    rewrite Hv. split; intros ->; destruct v; reflexivity.
Qed.

(** X28.  A watch page that points at [/stream/:id] does not lead to a
    404: as long as no id is generated twice, an entry with a [path] has
    its page point at [/stream/:id], and a request for it without a
    [Range] header is answered 200 with the bytes of the file at the
    entry's path.  The answer is given whenever [persist()] does not
    throw: always in [video-proxy-server], and in the mainframe server
    while [videos.json] can be written. *)
Theorem watch_cached_leads_to_stream cfg evs id info url now :
  fresh_ids cfg evs initial_world →
  let w := exec cfg evs initial_world in
  persist_succeeds cfg w →
  videos w !! id = Some info → JS.truthy_opt (e_path info) = true →
  watch (variant cfg) id url w
  = send_html (watch_page (variant cfg) id ("/stream/" ++ id))
  ∧ ∃ data, e_path info = Some (filePath_of cfg id)
            ∧ Fs.content (filePath_of cfg id) (fs w) = Some data
            ∧ status (fst (route_stream cfg id None now w)) = 200
            ∧ body (fst (route_stream cfg id None now w)) = Bytes data.
Proof.
  intros Hfresh. cbv zeta. intros Hok Hv Ht.
  pose proof (exec_invariant cfg evs initial_world (invariant_initial cfg) Hfresh)
    as HI. unfold invariant in HI.
  set (w := exec cfg evs initial_world) in *.
  destruct (e_path info) as [p|] eqn:Hp; [|discriminate]. cbn in Ht.
  assert (paths w !! id = Some (Some p)) as HP
      by (rewrite paths_lookup, Hv; cbn; rewrite Hp; reflexivity).
  pose proof (inv_key _ _ _ _ _ _ HI id _ HP) as Hlen.
  destruct (inv_cached _ _ _ _ _ _ HI id p HP Ht)
    as (-> & n & t & i & _ & _ & _ & HN & Hc).
  split.
  - unfold watch, watch_info.
    destruct (String.eqb_spec id "temp") as [->|_]; [discriminate Hlen|].
    rewrite Hv, Hp. cbn [JS.truthy_opt]. rewrite Ht.
    destruct (variant cfg); reflexivity.
  - assert (Fs.content (filePath_of cfg id) (fs w) = Some (t_received t))
      as Hfile.
    { unfold Fs.content. rewrite HN. cbn. rewrite Hc. reflexivity. }
    destruct (stream_cached cfg w id info (filePath_of cfg id) (t_received t)
                None now Hv Hp Ht Hfile Hok) as (w' & Hrun & _).
    exists (t_received t). rewrite Hrun.
    split; [reflexivity|]. split; [exact Hfile|]. split; reflexivity.
Qed.

Lemma watch_cached_leads_to_stream_witness :
  let cfg := sample_config VideoProxyServer in
  let w := exec cfg sample_download initial_world in
  watch VideoProxyServer sample_id None w
  = send_html (watch_page VideoProxyServer sample_id "/stream/e482ef9a1c39")
  ∧ ∃ data, e_path sample_entry = Some (filePath_of cfg sample_id)
            ∧ Fs.content (filePath_of cfg sample_id) (fs w) = Some data
            ∧ status (fst (route_stream cfg sample_id None 1700013950000 w))
              = 200
            ∧ body (fst (route_stream cfg sample_id None 1700013950000 w))
              = Bytes data.
Proof.
  intros cfg w.
  apply (watch_cached_leads_to_stream cfg sample_download sample_id sample_entry
           None 1700013950000).
  - cbn [fresh_ids sample_download].
    split; [intros id _; apply not_elem_of_nil|].
    repeat (split; [intros id [=]|]). exact I.
  - intros [=].
  - vm_compute. reflexivity.
  - reflexivity.
Defined.

(** ** The unit of a range *)

Lemma replace_first_absent s :
  Forall (fun c => c ≠ "b"%char) (list_ascii_of_string s) →
  JS.replace_first "bytes=" "" s = s.
Proof.
  induction s as [|c s IH]; intros H; [reflexivity|].
  cbn [list_ascii_of_string] in H. apply Forall_cons in H as [Hc Hs].
  cbn [JS.replace_first String.prefix].
  destruct (ascii_dec "b" c) as [<-|_]; [contradiction Hc; reflexivity|].
  rewrite (IH Hs). reflexivity.
Qed.

Lemma digits_without_b s :
  all_digits s → Forall (fun c => c ≠ "b"%char) (list_ascii_of_string s).
Proof.
  unfold all_digits. intros H. eapply Forall_impl; [exact H|]. cbv beta.
  intros c [d Hd] ->. discriminate Hd.
Qed.

(** X30.  The unit of a range is optional: [s-e] without [bytes=] is
    answered, and the state changed, exactly as [bytes=s-e], because
    [replace(/bytes=/, '')] leaves a header without the prefix as it
    is. *)
Theorem stream_range_unit_optional cfg w id now s e :
  0 ≤ s → 0 ≤ e →
  route_stream cfg id (Some (JS.dec s ++ "-" ++ JS.dec e)) now w
  = route_stream cfg id (Some (bytes_range s e)) now w.
Proof.
  intros Hs He.
  assert (range_parts (JS.dec s ++ "-" ++ JS.dec e)
          = range_parts (bytes_range s e)) as Hparts.
  { unfold range_parts, bytes_range. rewrite replace_bytes_prefix.
    rewrite replace_first_absent; [reflexivity|].
    rewrite !chars_append. apply Forall_app. split.
    - apply digits_without_b, dec_all_digits, Hs.
    - apply Forall_app. split.
      + repeat constructor. discriminate.
      + apply digits_without_b, dec_all_digits, He. }
  assert (∀ total data,
            send_file (Some (JS.dec s ++ "-" ++ JS.dec e)) total data
            = send_file (Some (bytes_range s e)) total data) as Hsend.
  { intros total data. apply send_file_same_bounds.
    - pose proof (dec_truthy s Hs) as Ht.
      destruct (JS.dec s); [discriminate | reflexivity].
    - reflexivity.
    - rewrite Hparts. reflexivity.
    - rewrite Hparts. reflexivity. }
  unfold route_stream, stream, bind, get.
  destruct (videos w !! id) as [info|]; [|reflexivity].
  destruct (negb _ || negb _); [reflexivity|].
  unfold lift_res. destruct (Fs.statSync_size _ _); [|reflexivity].
  unfold modify. destruct (persist cfg _) as [[[]|x] w']; [|reflexivity].
  unfold ret. rewrite Hsend. reflexivity.
Qed.

Lemma stream_range_unit_optional_witness :
  route_stream (sample_config VideoProxyServer) sample_id (Some "2-4")
               1700013950000 (sample_world VideoProxyServer)
  = route_stream (sample_config VideoProxyServer) sample_id
                 (Some (bytes_range 2 4)) 1700013950000
                 (sample_world VideoProxyServer).
Proof.
  apply (stream_range_unit_optional (sample_config VideoProxyServer)
           (sample_world VideoProxyServer) sample_id 1700013950000 2 4); lia.
Defined.
